(** * TinyML waste sorter: sort controller (Arduino UNO) and vision
      controller (ESP32-CAM)

    A shallow embedding of the decision logic of the two sketches

    - [FinalWorkingCodeWithServos/Arduino/Arduino.ino]: vote tally,
      [calculateBin], [parseResponse], [runStateMachine];
    - [FinalWorkingCodeWithServos/ESPv3Code_copy_20251018033055/
      ESPv3Code_copy_20251018033055.ino]: [BoundingBox], [DetectionFilter]
      and the filter block of [runInference];

    followed by the properties established about them.

    Conventions.  A [uint8_t] / [uint32_t] value is a [Z] whose wrap-around
    is written out where the source computes with it.  A [float] is an IEEE
    binary32 value ([spec_float] at precision 24); on the UNO [double] is
    binary32 as well, on the ESP32 it is binary64.  A C string is the
    [string] of the characters before its terminating NUL.  Debug output on
    the USB serial port ([Serial.print]) is not modelled. *)

From Stdlib Require Import ZArith List String Ascii Bool Lia.
From Stdlib Require Import Floats.SpecFloat.
From Stdlib Require Import Permutation Sorted.
From Stdlib Require Import DecimalString.
Import ListNotations.

Local Open Scope Z_scope.

(* ================================================================== *)
(** * Floating point *)
(* ================================================================== *)

(** IEEE binary32, the [float] of both boards. *)
Module F32.
Definition prec : Z := 24.
Definition emax : Z := 128.
Definition float := spec_float.

(** Conversion of an integer, rounding to nearest even. *)
Definition of_Z (z : Z) : float := binary_normalize prec emax z 0 false.

Definition add (x y : float) : float := SFadd prec emax x y.
Definition mul (x y : float) : float := SFmul prec emax x y.
Definition div (x y : float) : float := SFdiv prec emax x y.

(** The C comparisons; each is false as soon as an operand is NaN. *)
Definition lt (x y : float) : bool := SFltb x y.
Definition le (x y : float) : bool := SFleb x y.
Definition gt (x y : float) : bool := SFltb y x.
Definition ge (x y : float) : bool := SFleb y x.

Definition is_nan (x : float) : bool :=
  match x with S754_nan => true | _ => false end.

Definition zero : float := S754_zero false.

(** The decimal literal [n / 10^k]: the quotient rounded to nearest, for
    [n] and [10^k] that binary32 holds exactly. *)
Definition lit (n : Z) (k : nat) : float := div (of_Z n) (of_Z (10 ^ Z.of_nat k)).
End F32.

(** IEEE binary64, the [double] of the ESP32 (result type of [sqrt]). *)
Module F64.
Definition prec : Z := 53.
Definition emax : Z := 1024.
Definition float := spec_float.

Definition of_Z (z : Z) : float := binary_normalize prec emax z 0 false.
Definition sqrt (x : float) : float := SFsqrt prec emax x.

(** Narrowing conversion [(float)d]. *)
Definition to_f32 (x : float) : F32.float :=
  match x with
  | S754_finite s m e => binary_round F32.prec F32.emax s m e
  | _ => x
  end.
End F64.

(* ================================================================== *)
(** * Sort controller: [Arduino.ino] *)
(* ================================================================== *)

Module Sorter.

(** ** Constants *)

Definition S1_HOME : Z := 0.
Definition S1_REPOSITION1 : Z := 45.
Definition S1_REPOSITION2 : Z := 90.
Definition S1_MID : Z := 90.
Definition S1_FAR : Z := 180.
Definition S2_HOME : Z := 90.
Definition S2_RIGHT : Z := 20.
Definition S2_LEFT : Z := 160.

Definition SETTLE_MS : Z := 250.
Definition HOLD_MS : Z := 300.
Definition TIMEOUT_MS : Z := 2500.

Definition MAX_VOTES : Z := 3.
Definition MAJORITY_VOTES : Z := 2.
Definition MIN_CONFIDENCE : F32.float := Eval vm_compute in F32.lit 65 2.
Definition MAX_REPOSITIONS : Z := 2.

(** The literal [0.01] of [calculateBin]. *)
Definition CONF_FLOOR : F32.float := Eval vm_compute in F32.lit 1 2.

Definition u8 (z : Z) : Z := z mod 256.
Definition u32 (z : Z) : Z := z mod 2 ^ 32.

(** ** State *)

Inductive SystemState :=
| STATE_IDLE
| STATE_DETECT
| STATE_REQUEST
| STATE_WAIT
| STATE_REPOSITION
| STATE_DECIDE
| STATE_SORT
| STATE_ERROR.

(** The global variables of the sketch. *)
Record Globals := mkGlobals {
  state : SystemState;
  votesCan : Z;
  votesGlass : Z;
  votesBottle : Z;
  confCan : F32.float;
  confGlass : F32.float;
  confBottle : F32.float;
  deadline : Z;
  repositionAttempts : Z;
  consecutiveNones : Z
}.

Definition initial : Globals :=
  mkGlobals STATE_IDLE 0 0 0 F32.zero F32.zero F32.zero 0 0 0.

Definition set_state (s : SystemState) (g : Globals) : Globals :=
  mkGlobals s (votesCan g) (votesGlass g) (votesBottle g)
            (confCan g) (confGlass g) (confBottle g)
            (deadline g) (repositionAttempts g) (consecutiveNones g).

Definition set_deadline (d : Z) (g : Globals) : Globals :=
  mkGlobals (state g) (votesCan g) (votesGlass g) (votesBottle g)
            (confCan g) (confGlass g) (confBottle g)
            d (repositionAttempts g) (consecutiveNones g).

Definition set_repositionAttempts (n : Z) (g : Globals) : Globals :=
  mkGlobals (state g) (votesCan g) (votesGlass g) (votesBottle g)
            (confCan g) (confGlass g) (confBottle g)
            (deadline g) n (consecutiveNones g).

Definition set_consecutiveNones (n : Z) (g : Globals) : Globals :=
  mkGlobals (state g) (votesCan g) (votesGlass g) (votesBottle g)
            (confCan g) (confGlass g) (confBottle g)
            (deadline g) (repositionAttempts g) n.

(** The six assignments [votesX = 0; confX = 0.0] that appear in
    [STATE_WAIT] (twice) and in [STATE_ERROR]. *)
Definition zeroVotes (g : Globals) : Globals :=
  mkGlobals (state g) 0 0 0 F32.zero F32.zero F32.zero
            (deadline g) (repositionAttempts g) (consecutiveNones g).

(** ** Voting system *)

Definition resetVotes (g : Globals) : Globals :=
  mkGlobals (state g) 0 0 0 F32.zero F32.zero F32.zero (deadline g) 0 0.

Definition recordVote (className : string) (confidence : F32.float)
           (g : Globals) : Globals :=
  let g' :=
    if String.eqb className "CAN3" then
      mkGlobals (state g) (u8 (votesCan g + 1)) (votesGlass g) (votesBottle g)
                (F32.add (confCan g) confidence) (confGlass g) (confBottle g)
                (deadline g) (repositionAttempts g) (consecutiveNones g)
    else if String.eqb className "GLASS3" then
      mkGlobals (state g) (votesCan g) (u8 (votesGlass g + 1)) (votesBottle g)
                (confCan g) (F32.add (confGlass g) confidence) (confBottle g)
                (deadline g) (repositionAttempts g) (consecutiveNones g)
    else if String.eqb className "BOTTLE3" then
      mkGlobals (state g) (votesCan g) (votesGlass g) (u8 (votesBottle g + 1))
                (confCan g) (confGlass g) (F32.add (confBottle g) confidence)
                (deadline g) (repositionAttempts g) (consecutiveNones g)
    else g in
  set_consecutiveNones 0 g'.

Definition getTotalVotes (g : Globals) : Z :=
  u8 (votesCan g + votesGlass g + votesBottle g).

Definition hasMajority (g : Globals) : bool :=
  (MAJORITY_VOTES <=? votesCan g) ||
  (MAJORITY_VOTES <=? votesGlass g) ||
  (MAJORITY_VOTES <=? votesBottle g).

Definition calculateBin (g : Globals) : Z :=
  if MAJORITY_VOTES <=? votesCan g then 1
  else if MAJORITY_VOTES <=? votesGlass g then 2
  else if MAJORITY_VOTES <=? votesBottle g then 3
  else if getTotalVotes g =? 0 then 4
  else
    let maxConf := confCan g in
    let bin := 1 in
    let '(maxConf, bin) :=
      if F32.gt (confGlass g) maxConf then (confGlass g, 2) else (maxConf, bin) in
    let '(maxConf, bin) :=
      if F32.gt (confBottle g) maxConf then (confBottle g, 3) else (maxConf, bin) in
    if F32.lt maxConf CONF_FLOOR then 4 else bin.

(** The conversion [%d] of [snprintf], for a value that is not negative. *)
Definition decimal (z : Z) : string :=
  NilEmpty.string_of_uint (N.to_uint (Z.to_N z)).

(** [snprintf(buffer, 17, ...)]: at most 16 characters are kept. *)
Definition snprintf17 (s : string) : string := substring 0 16 s.

(** ** Effects on the outside world, in program order *)

Inductive Effect :=
| Lcd (line1 line2 : string)      (* updateDisplay *)
| Servo1 (angle : Z)              (* servo1.write *)
| Servo2 (angle : Z)              (* servo2.write *)
| Delay (ms : Z)                  (* delay *)
| EspDrain                        (* read and drop pending input *)
| EspPrintln (line : string).     (* espSerial.println *)

Definition moveServo1 (angle : Z) : list Effect := [Servo1 angle; Delay SETTLE_MS].
Definition moveServo2 (angle : Z) : list Effect := [Servo2 angle; Delay SETTLE_MS].

Definition performDrop (isRight : bool) : list Effect :=
  if isRight
  then moveServo2 S2_RIGHT ++ [Delay HOLD_MS] ++ moveServo2 S2_HOME
  else moveServo2 S2_LEFT ++ [Delay HOLD_MS] ++ moveServo2 S2_HOME.

Definition sortToBin (bin : Z) : list Effect :=
  moveServo1 S1_HOME ++
  (if bin =? 1 then moveServo1 S1_HOME ++ performDrop true ++ moveServo1 S1_HOME
   else if bin =? 2 then moveServo1 S1_MID ++ performDrop true ++ moveServo1 S1_HOME
   else if bin =? 3 then moveServo1 S1_FAR ++ performDrop true ++ moveServo1 S1_HOME
   else moveServo1 S1_MID ++ performDrop false ++ moveServo1 S1_HOME).

Definition showVotes (g : Globals) : list Effect :=
  [Lcd "Voting..."
       (snprintf17 ("C:" ++ decimal (votesCan g) ++ " G:" ++ decimal (votesGlass g)
                    ++ " B:" ++ decimal (votesBottle g)))].

(** [requestInference]; [now] is the value [millis()] returns there. *)
Definition requestInference (now : Z) (g : Globals) : Globals * list Effect :=
  (set_deadline (u32 (now + TIMEOUT_MS)) g, [EspDrain; Delay 10; EspPrintln "INFER"]).

(** ** C string primitives

    A [char*] into a buffer is the suffix of the buffer that starts
    there; a null pointer is [None]. *)

Fixpoint strchr (s : string) (c : ascii) : option string :=
  match s with
  | EmptyString => None
  | String a s' => if Ascii.eqb a c then Some s else strchr s' c
  end.

Fixpoint strstr (haystack needle : string) : option string :=
  match haystack with
  | EmptyString => if prefix needle haystack then Some haystack else None
  | String _ h' => if prefix needle haystack then Some haystack else strstr h' needle
  end.

(** [strncmp(s, lit, strlen(lit)) == 0]. *)
Definition starts_with (lit s : string) : bool := prefix lit s.

(** [p + n], for [n] not beyond the end of the string. *)
Fixpoint ptr_add (p : string) (n : nat) {struct n} : string :=
  match n, p with
  | O, _ => p
  | S n', String _ p' => ptr_add p' n'
  | S _, EmptyString => EmptyString
  end.

(** [strncpy(out, src, n); out[n] = '\0'], for [n <= strlen(src)]. *)
Fixpoint strncpy (src : string) (n : nat) {struct n} : string :=
  match n, src with
  | O, _ => EmptyString
  | S n', String a src' => String a (strncpy src' n')
  | S _, EmptyString => EmptyString
  end.

Definition colon : ascii := ":"%char.

Section WithLibc.

(** [atof] of the C library. *)
Variable atof : string -> F32.float.

(** ** ESP32 communication *)

(** [parseResponse(buffer, outClass, outConf)]: the returned flag
    together with the contents of the two output locations. *)
Definition parseResponse (buffer : string) (outClass : string) (outConf : F32.float)
  : bool * string * F32.float :=
  if String.eqb buffer "" then (false, outClass, outConf)
  else if starts_with "NONE" buffer then (false, outClass, outConf)
  else if starts_with "ERR:" buffer then (false, outClass, outConf)
  else
    match strstr buffer "OK" with
    | Some okPtr =>
        match strchr (ptr_add okPtr 2) colon with
        | None => (false, outClass, outConf)
        | Some colonPtr =>
            let classPtr := ptr_add colonPtr 1 in
            match strchr classPtr colon with
            | None => (false, outClass, outConf)
            | Some secondColonPtr =>
                let classLen := (String.length classPtr - String.length secondColonPtr)%nat in
                let classLen := if (15 <? classLen)%nat then 15%nat else classLen in
                let outClass := strncpy classPtr classLen in
                let outConf := atof (ptr_add secondColonPtr 1) in
                (F32.ge outConf MIN_CONFIDENCE, outClass, outConf)
            end
        end
    | None => (false, outClass, outConf)
    end.

(** ** State machine *)

(** What one call of [runStateMachine] observes: the clock [millis()],
    the answer of [isObjectPresent()] (whose own pause is not listed
    among the effects), and the serial link ([None]: nothing available;
    [Some cs]: the characters the read loop receives in its window). *)
Record Input := mkInput {
  now : Z;
  present : bool;
  rx : option (list ascii)
}.

Definition safe_char (c : ascii) : bool :=
  let n := N_of_ascii c in
  ((48 <=? n) && (n <=? 57) || (65 <=? n) && (n <=? 90) ||
   (97 <=? n) && (n <=? 122) || (n =? 58) || (n =? 46))%N.

Definition is_eol (c : ascii) : bool :=
  let n := N_of_ascii c in ((n =? 10) || (n =? 13))%N.

(** The read loop of [STATE_WAIT]; [idx] is the number of characters
    already stored, the result is what is appended to the buffer. *)
Fixpoint readLine (cs : list ascii) (idx : nat) : string :=
  match cs with
  | [] => EmptyString
  | c :: cs' =>
      if is_eol c then EmptyString
      else if safe_char c then
        if (idx <? 31)%nat then String c (readLine cs' (S idx))
        else readLine cs' idx
      else readLine cs' idx
  end.

(** The six assignments and the display of the give-up branch. *)
Definition giveUp (g : Globals) : Globals * list Effect :=
  (set_state STATE_DECIDE (zeroVotes g), [Lcd "Can't detect" "-> Bin 4"; Delay 1000]).

Definition binName (bin : Z) : string :=
  if bin =? 1 then "CAN" else if bin =? 2 then "GLASS"
  else if bin =? 3 then "BOTTLE" else "MIXED".

Definition runStateMachine (i : Input) (g : Globals) : Globals * list Effect :=
  match state g with
  | STATE_IDLE =>
      (if present i then set_state STATE_DETECT g else g, [Lcd "Ready" ""])
  | STATE_DETECT =>
      if present i
      then (set_state STATE_REQUEST (resetVotes g),
            [Lcd "Detecting" "Object present"; Delay 100] ++ moveServo1 S1_HOME)
      else (set_state STATE_IDLE g, [Lcd "Detecting" "Object present"; Delay 100])
  | STATE_REQUEST =>
      let '(g1, fx) := requestInference (now i) g in
      (set_state STATE_WAIT g1, Lcd "Requesting" "Inference..." :: fx)
  | STATE_WAIT =>
      if deadline g <? now i then (set_state STATE_ERROR g, [])
      else
        match rx i with
        | None => (g, [])
        | Some cs =>
            let buffer := readLine cs 0 in
            if String.eqb buffer "" then (g, [Delay 50])
            else
              let '(ok, className, confidence) := parseResponse buffer "" F32.zero in
              if ok then
                let g1 := recordVote className confidence g in
                let fx := [Delay 50] ++ showVotes g1 ++ [Delay 500] in
                if hasMajority g1 || (MAX_VOTES <=? getTotalVotes g1)
                then (set_state STATE_DECIDE g1, fx)
                else (set_state STATE_REQUEST g1, fx)
              else
                let g1 := set_consecutiveNones (u8 (consecutiveNones g + 1)) g in
                if 0 <? repositionAttempts g1 then
                  if repositionAttempts g1 <? MAX_REPOSITIONS
                  then (set_state STATE_REPOSITION g1, [Delay 50])
                  else let '(g2, fx) := giveUp g1 in (g2, Delay 50 :: fx)
                else if present i then
                  if repositionAttempts g1 <? MAX_REPOSITIONS
                  then (set_state STATE_REPOSITION g1, [Delay 50])
                  else let '(g2, fx) := giveUp g1 in (g2, Delay 50 :: fx)
                else (set_state STATE_IDLE g1, [Delay 50])
        end
  | STATE_REPOSITION =>
      let g1 := set_repositionAttempts (u8 (repositionAttempts g + 1)) g in
      (set_state STATE_REQUEST g1,
       [Lcd (snprintf17 ("Reposition #" ++ decimal (repositionAttempts g1)))
            "Trying again..."]
       ++ (if repositionAttempts g1 =? 1
           then moveServo1 S1_REPOSITION1 else moveServo1 S1_REPOSITION2)
       ++ [Delay 300])
  | STATE_DECIDE =>
      let bin := calculateBin g in
      (set_state STATE_SORT g,
       [Lcd (snprintf17 ("Bin " ++ decimal bin)) (binName bin); Delay 1000])
  | STATE_SORT =>
      let bin := calculateBin g in
      (set_state STATE_IDLE g, sortToBin bin)
  | STATE_ERROR =>
      (set_state STATE_IDLE (zeroVotes g),
       [Lcd "Error/Timeout" "-> Bin 4"; Delay 1500] ++ moveServo1 S1_HOME ++ sortToBin 4)
  end.

(** [loop] called once per input, the effects concatenated. *)
Fixpoint run (ins : list Input) (g : Globals) : Globals * list Effect :=
  match ins with
  | [] => (g, [])
  | i :: ins' =>
      let '(g1, fx1) := runStateMachine i g in
      let '(g2, fx2) := run ins' g1 in
      (g2, fx1 ++ Delay 10 :: fx2)
  end.

End WithLibc.

End Sorter.

(** A stand-in for the [atof] of the C library of the UNO (avr-libc),
    used to instantiate [Sorter.parseResponse] on concrete replies.  It
    reads what [strtod] reads there: white space, a sign, then [inf],
    [infinity] or [nan] in either case, or a decimal number
    [digits[.digits]] with an optional exponent [e[sign]digits]; the
    value is rounded to the nearest binary32, and text that does not
    start a number gives 0. *)
Module Libc.

Definition digit_of (c : ascii) : option Z :=
  let n := N_of_ascii c in
  if ((48 <=? n) && (n <=? 57))%N then Some (Z.of_N n - 48) else None.

Definition isspace (c : ascii) : bool :=
  let n := N_of_ascii c in ((n =? 32) || ((9 <=? n) && (n <=? 13)))%N.

Fixpoint skip_space (s : string) : string :=
  match s with
  | String c s' => if isspace c then skip_space s' else s
  | EmptyString => EmptyString
  end.

(** An optional sign: whether it is a minus, and the text after it. *)
Definition sign (s : string) : bool * string :=
  match s with
  | String c s' =>
      if Ascii.eqb c "-"%char then (true, s')
      else if Ascii.eqb c "+"%char then (false, s')
      else (false, s)
  | EmptyString => (false, s)
  end.

Definition tolower (c : ascii) : ascii :=
  let n := N_of_ascii c in
  if ((65 <=? n) && (n <=? 90))%N then ascii_of_N (n + 32) else c.

(** [lit], in lower case, starts [s] in either case. *)
Fixpoint starts_nocase (lit s : string) : bool :=
  match lit, s with
  | EmptyString, _ => true
  | String a lit', String c s' => Ascii.eqb a (tolower c) && starts_nocase lit' s'
  | String _ _, EmptyString => false
  end.

(** A run of digits: the number read so far, the count of digits read
    here, and the text after them. *)
Fixpoint digits (s : string) (acc : Z) (count : nat) : Z * nat * string :=
  match s with
  | EmptyString => (acc, count, s)
  | String c s' =>
      match digit_of c with
      | Some d => digits s' (10 * acc + d) (S count)
      | None => (acc, count, s)
      end
  end.

(** The exponent part, 0 when there is none. *)
Definition exponent (s : string) : Z :=
  match s with
  | String c s' =>
      if Ascii.eqb (tolower c) "e"%char then
        let '(neg, s'') := sign s' in
        let '(e, count, _) := digits s'' 0 O in
        if (count =? 0)%nat then 0 else if neg then - e else e
      else 0
  | EmptyString => 0
  end.

(** [n * 10^e] for [n >= 0], rounded to nearest, ties to even: the
    quotient is taken with three bits more than the precision and a
    last bit that records a remainder. *)
Definition round_decimal (neg : bool) (n e : Z) : F32.float :=
  if n =? 0 then S754_zero neg
  else
    let num := if 0 <=? e then n * 10 ^ e else n in
    let den := if 0 <=? e then 1 else 10 ^ (- e) in
    let shift := Z.max 0 (F32.prec + 3 + Z.log2 den - Z.log2 num) in
    let q := (num * 2 ^ shift) / den in
    let sticky := if (num * 2 ^ shift) mod den =? 0 then 0 else 1 in
    let m := 2 * q + sticky in
    binary_normalize F32.prec F32.emax (if neg then - m else m) (- (shift + 1)) false.

Definition atof (s : string) : F32.float :=
  let '(neg, s1) := sign (skip_space s) in
  if starts_nocase "inf" s1 then S754_infinity neg
  else if starts_nocase "nan" s1 then S754_nan
  else
    let '(whole, nwhole, s2) := digits s1 0 O in
    let '(n, nfrac, s3) :=
      match s2 with
      | String c s' =>
          if Ascii.eqb c "."%char then digits s' whole O else (whole, O, s2)
      | EmptyString => (whole, O, s2)
      end in
    if (nwhole + nfrac =? 0)%nat then F32.zero
    else round_decimal neg n (exponent s3 - Z.of_nat nfrac).

End Libc.

(* ================================================================== *)
(** * Vision controller: [ESPv3Code_copy_20251018033055.ino] *)
(* ================================================================== *)

Module Vision.

Definition u32 (z : Z) : Z := z mod 2 ^ 32.

(** [(int32_t)z] and the wrap-around of [int32_t] arithmetic. *)
Definition i32 (z : Z) : Z := (z + 2 ^ 31) mod 2 ^ 32 - 2 ^ 31.

(** ** Configuration *)

Definition MIN_CONFIDENCE : F32.float := Eval vm_compute in F32.lit 65 2.
Definition NMS_IOU_THRESHOLD : F32.float := Eval vm_compute in F32.lit 2 1.
Definition MIN_BOX_SIZE : Z := 2.
Definition SPATIAL_THRESHOLD : Z := 60.

(** ** Bounding boxes *)

Record BoundingBox := mkBox {
  x : Z;
  y : Z;
  width : Z;
  height : Z;
  confidence : F32.float;
  label : string;
  suppressed : bool
}.

(** The default constructor [BoundingBox()]. *)
Definition emptyBox : BoundingBox := mkBox 0 0 0 0 F32.zero "" false.

Definition set_suppressed (v : bool) (b : BoundingBox) : BoundingBox :=
  mkBox (x b) (y b) (width b) (height b) (confidence b) (label b) v.

Definition area (b : BoundingBox) : Z := u32 (width b * height b).
Definition centerX (b : BoundingBox) : Z := u32 (x b + width b / 2).
Definition centerY (b : BoundingBox) : Z := u32 (y b + height b / 2).

Definition isValid (b : BoundingBox) : bool :=
  (MIN_BOX_SIZE <=? width b) && (MIN_BOX_SIZE <=? height b) &&
  F32.ge (confidence b) MIN_CONFIDENCE.

(** ** Arrays

    [boxes[i]] is [get boxes i]; [boxes[i].suppressed = true] is
    [suppress i boxes]; [boxes[i] = v] is [put i v boxes].  The indices
    the loops produce are always within the array. *)

Definition get (boxes : list BoundingBox) (i : nat) : BoundingBox :=
  nth i boxes emptyBox.

Fixpoint put (i : nat) (v : BoundingBox) (boxes : list BoundingBox)
  : list BoundingBox :=
  match boxes, i with
  | [], _ => []
  | _ :: bs, O => v :: bs
  | b :: bs, S i' => b :: put i' v bs
  end.

Definition suppress (i : nat) (boxes : list BoundingBox) : list BoundingBox :=
  put i (set_suppressed true (get boxes i)) boxes.

(** [for (k = from; k < from + n; k++) body(k)], without [break]. *)
Definition for_range {St : Type} (from n : nat) (body : nat -> St -> St) (s : St) : St :=
  fold_left (fun s k => body k s) (seq from n) s.

(** ** DetectionFilter *)

Definition calculateIoU (a b : BoundingBox) : F32.float :=
  let x1 := Z.max (x a) (x b) in
  let y1 := Z.max (y a) (y b) in
  let x2 := Z.min (u32 (x a + width a)) (u32 (x b + width b)) in
  let y2 := Z.min (u32 (y a + height a)) (u32 (y b + height b)) in
  if (x2 <=? x1) || (y2 <=? y1) then F32.zero
  else
    let intersection := u32 ((x2 - x1) * (y2 - y1)) in
    let unionArea := u32 (area a + area b - intersection) in
    if 0 <? unionArea
    then F32.div (F32.of_Z intersection) (F32.of_Z unionArea)
    else F32.zero.

(** [sqrt] is applied to an [int32_t] and yields a [double], which the
    return narrows to [float]. *)
Definition distance (a b : BoundingBox) : F32.float :=
  let dx := i32 (i32 (centerX a) - i32 (centerX b)) in
  let dy := i32 (i32 (centerY a) - i32 (centerY b)) in
  F64.to_f32 (F64.sqrt (F64.of_Z (i32 (i32 (dx * dx) + i32 (dy * dy))))).

Definition sameClass (a b : BoundingBox) : bool := String.eqb (label a) (label b).

(** One comparison of the bubble sort: [boxes[j]] and [boxes[j+1]]
    are exchanged when the first has the smaller confidence. *)
Definition sortStep (j : nat) (boxes : list BoundingBox) : list BoundingBox :=
  if F32.lt (confidence (get boxes j)) (confidence (get boxes (j + 1)))
  then
    let temp := get boxes j in
    put (j + 1) temp (put j (get boxes (j + 1)) boxes)
  else boxes.

(** [sortByConfidence(boxes, count)].  With [count = 0] the bound
    [count - 1] wraps to [2^32 - 1] and the loop reads outside the
    array: that call has no result. *)
Definition sortByConfidence (boxes : list BoundingBox) : option (list BoundingBox) :=
  let count := List.length boxes in
  match count with
  | O => None
  | S _ =>
      Some (for_range 0 (count - 1)
              (fun i => for_range 0 (count - i - 1) sortStep) boxes)
  end.

(** The test of the inner loop of [applyNMS]. *)
Definition tooClose (a b : BoundingBox) : bool :=
  let iou := calculateIoU a b in
  let dist := distance a b in
  F32.gt iou NMS_IOU_THRESHOLD || F32.lt dist (F32.of_Z SPATIAL_THRESHOLD).

Definition nmsInner (i j : nat) (boxes : list BoundingBox) : list BoundingBox :=
  if suppressed (get boxes j) then boxes
  else if negb (sameClass (get boxes i) (get boxes j)) then boxes
  else if tooClose (get boxes i) (get boxes j) then suppress j boxes
  else boxes.

Definition nmsOuter (count i : nat) (boxes : list BoundingBox) : list BoundingBox :=
  if suppressed (get boxes i) then boxes
  else for_range (i + 1) (count - (i + 1)) (nmsInner i) boxes.

Definition applyNMS (boxes : list BoundingBox) : option (list BoundingBox) :=
  match sortByConfidence boxes with
  | None => None
  | Some sorted =>
      let count := List.length boxes in
      Some (for_range 0 count (nmsOuter count) sorted)
  end.

Definition ASPECT_MAX : F32.float := Eval vm_compute in F32.of_Z 10.
Definition ASPECT_MIN : F32.float := Eval vm_compute in F32.lit 1 1.

Section WithModel.

(** [EI_CLASSIFIER_INPUT_WIDTH] and [EI_CLASSIFIER_INPUT_HEIGHT], from
    the generated model header. *)
Variables EI_CLASSIFIER_INPUT_WIDTH EI_CLASSIFIER_INPUT_HEIGHT : Z.

Definition filterInvalidBody (i : nat) (boxes : list BoundingBox)
  : list BoundingBox :=
  let b := get boxes i in
  if suppressed b then boxes
  else if negb (isValid b) then suppress i boxes
  else if (EI_CLASSIFIER_INPUT_WIDTH <? u32 (x b + width b)) ||
          (EI_CLASSIFIER_INPUT_HEIGHT <? u32 (y b + height b))
       then suppress i boxes
  else
    let aspectRatio := F32.div (F32.of_Z (width b)) (F32.of_Z (height b)) in
    if F32.gt aspectRatio ASPECT_MAX || F32.lt aspectRatio ASPECT_MIN
    then suppress i boxes
    else boxes.

Definition filterInvalid (boxes : list BoundingBox) : list BoundingBox :=
  for_range 0 (List.length boxes) filterInvalidBody boxes.

End WithModel.

Definition containedIn (inner outer : BoundingBox) : bool :=
  (x outer <=? x inner) && (y outer <=? y inner) &&
  (u32 (x inner + width inner) <=? u32 (x outer + width outer)) &&
  (u32 (y inner + height inner) <=? u32 (y outer + height outer)).

Definition removeContainedInner (i j : nat) (boxes : list BoundingBox)
  : list BoundingBox :=
  if (i =? j)%nat || suppressed (get boxes j) then boxes
  else
    let contained := containedIn (get boxes j) (get boxes i) in
    if contained && F32.gt (confidence (get boxes i)) (confidence (get boxes j))
    then suppress j boxes
    else boxes.

Definition removeContainedOuter (count i : nat) (boxes : list BoundingBox)
  : list BoundingBox :=
  if suppressed (get boxes i) then boxes
  else for_range 0 count (removeContainedInner i) boxes.

Definition removeContained (boxes : list BoundingBox) : list BoundingBox :=
  let count := List.length boxes in
  for_range 0 count (removeContainedOuter count) boxes.

Definition SCORE_CONF : F32.float := Eval vm_compute in F32.lit 7 1.
Definition SCORE_AREA : F32.float := Eval vm_compute in F32.lit 3 1.
Definition SCORE_NORM : F32.float := Eval vm_compute in F32.of_Z 1000.

(** The composite score of [keepBestPerClass], every operation rounded
    on its own. *)
Definition score (b : BoundingBox) : F32.float :=
  F32.add (F32.mul (confidence b) SCORE_CONF)
          (F32.mul (F32.div (F32.of_Z (area b)) SCORE_NORM) SCORE_AREA).

(** The inner loop of [keepBestPerClass] over the indices [js]; it
    stops at the [break]. *)
Fixpoint keepBestInner (i : nat) (js : list nat) (boxes : list BoundingBox)
  : list BoundingBox :=
  match js with
  | [] => boxes
  | j :: js' =>
      if suppressed (get boxes j) then keepBestInner i js' boxes
      else if negb (sameClass (get boxes i) (get boxes j)) then keepBestInner i js' boxes
      else
        let scorei := score (get boxes i) in
        let scorej := score (get boxes j) in
        if F32.ge scorei scorej
        then keepBestInner i js' (suppress j boxes)
        else suppress i boxes
  end.

Definition keepBestOuter (count i : nat) (boxes : list BoundingBox)
  : list BoundingBox :=
  if suppressed (get boxes i) then boxes
  else keepBestInner i (seq (i + 1) (count - (i + 1))) boxes.

Definition keepBestPerClass (boxes : list BoundingBox) : list BoundingBox :=
  let count := List.length boxes in
  for_range 0 count (keepBestOuter count) boxes.

Section WithModelInput.

Variables EI_CLASSIFIER_INPUT_WIDTH EI_CLASSIFIER_INPUT_HEIGHT : Z.

(** The block "Apply all filters" of [runInference], entered when
    [rawCount > 0]. *)
Definition applyFilters (boxes : list BoundingBox) : option (list BoundingBox) :=
  let boxes := filterInvalid EI_CLASSIFIER_INPUT_WIDTH EI_CLASSIFIER_INPUT_HEIGHT boxes in
  let boxes := removeContained boxes in
  match applyNMS boxes with
  | None => None
  | Some boxes => Some (keepBestPerClass boxes)
  end.

(** What [runInference] reports for the raw detections [raw]: the
    first box left unsuppressed ([OK:label:confidence]) or nothing
    ([NONE]).  The raw boxes enter with [suppressed = false]. *)
Definition runInference (raw : list BoundingBox) : option (option BoundingBox) :=
  let boxes := map (set_suppressed false) raw in
  match boxes with
  | [] => Some None
  | _ :: _ =>
      match applyFilters boxes with
      | None => None
      | Some boxes => Some (find (fun b => negb (suppressed b)) boxes)
      end
  end.

End WithModelInput.

End Vision.

(* ================================================================== *)
(** * Sort controller: the presence sensor *)
(* ================================================================== *)

Module Sensor.

Definition DISTANCE_MIN : Z := 3.
Definition DISTANCE_MAX : Z := 33.
Definition HC_DELAY_MS : Z := 50.

(** The echo timeout handed to [pulseIn], in microseconds. *)
Definition ECHO_TIMEOUT_US : Z := 30000.

Definition u16 (z : Z) : Z := z mod 2 ^ 16.

(** [measureDistance], as a function of what [pulseIn] returns: the
    length of the echo pulse in microseconds, 0 when none was seen. *)
Definition measureDistance (duration : Z) : Z :=
  if duration =? 0 then 999
  else
    let cm := u16 (duration / 58) in
    if 300 <? cm then 999 else cm.

(** [isObjectPresent], as a function of the two echo pulses. *)
Definition isObjectPresent (duration1 duration2 : Z) : bool :=
  let d1 := measureDistance duration1 in
  let d2 := measureDistance duration2 in
  let inRange1 := (DISTANCE_MIN <=? d1) && (d1 <=? DISTANCE_MAX) in
  let inRange2 := (DISTANCE_MIN <=? d2) && (d2 <=? DISTANCE_MAX) in
  inRange1 && inRange2.

End Sensor.

(* ================================================================== *)
(** * Vision controller: camera, inference runner and main loop *)
(* ================================================================== *)

(** The part of [ESPv3Code_copy_20251018033055.ino] around the filters:
    [CameraManager], the input and output of [runInference], [setup] and
    [loop].  The camera driver, the heap, the JPEG decoder and the
    classifier are outside the sketch: what they answer is an input
    ([World]), what the sketch asks of them is an [Event].  The heap
    events are those of the image buffer; the array [boxes] that
    [runInference] takes with [new] and gives back with [delete[]] is
    the list that [Vision.runInference] works on. *)
Module Esp.
Import Vision.

Definition RAW_WIDTH : Z := 320.
Definition RAW_HEIGHT : Z := 240.
Definition BYTES_PER_PIXEL : Z := 3.
Definition MAX_RETRY : nat := 3.

Inductive Event :=
| Malloc (p : Z)                  (* malloc returned the block [p] *)
| Free (p : Z)                    (* free(p) *)
| FbGet                           (* esp_camera_fb_get returned a frame *)
| FbReturn                        (* esp_camera_fb_return *)
| Resize (w h : Z)                (* crop_and_interpolate_rgb888 *)
| Pause (ms : Z)                  (* delay *)
| Serial2Flush
| Serial2Println (line : string).

(** A frame of the driver: whether [buf] is set, and [len]. *)
Record Frame := mkFrame { buf : bool; len : Z }.

(** The answers of the environment while one command is handled:
    [malloc] ([None]: a null pointer), [esp_camera_fb_get] at each
    attempt, [fmt2rgb888], and [run_classifier] ([None]: an error code;
    otherwise the bounding boxes of the result). *)
Record World := mkWorld {
  malloc : option Z;
  fb_get : nat -> option Frame;
  fmt2rgb888 : bool;
  run_classifier : option (list BoundingBox)
}.

(** ** CameraManager *)

Record CameraManager := mkCamera {
  active : bool;
  imageBuffer : option Z
}.

(** The constructor. *)
Definition newCamera : CameraManager := mkCamera false None.

(** [initialize]; [esp_camera_init_ok] is the answer of the driver. *)
Definition initialize (esp_camera_init_ok : bool) (cam : CameraManager)
  : bool * CameraManager * list Event :=
  if active cam then (true, cam, [])
  else if negb esp_camera_init_ok
       then (false, cam, [Serial2Println "ERR:CAM_INIT_FAILED"])
       else (true, mkCamera true (imageBuffer cam), []).

(** The loop [for (retry = 0; retry < MAX_RETRY && !frame; retry++)],
    with [n] iterations left. *)
Fixpoint getFrame (get : nat -> option Frame) (retry n : nat)
  : option Frame * list Event :=
  match n with
  | O => (None, [])
  | S n' =>
      match get retry with
      | Some f => (Some f, [FbGet])
      | None =>
          let '(frame, fx) := getFrame get (S retry) n' in
          ((frame, (if (retry <? MAX_RETRY - 1)%nat then [Pause 10] else []) ++ fx))
      end
  end.

Definition capture (targetWidth targetHeight : Z) (w : World) (cam : CameraManager)
  : bool * CameraManager * list Event :=
  if negb (active cam) then (false, cam, [])
  else
    let fx0 := match imageBuffer cam with Some p => [Free p] | None => [] end in
    match malloc w with
    | None => (false, mkCamera (active cam) None, fx0)
    | Some p =>
        let '(frame, fxr) := getFrame (fb_get w) 0 MAX_RETRY in
        let fx1 := fx0 ++ [Malloc p] ++ fxr in
        match frame with
        | None => (false, mkCamera (active cam) None, fx1 ++ [Free p])
        | Some f =>
            if negb (buf f) || (len f =? 0)
            then (false, mkCamera (active cam) None, fx1 ++ [FbReturn; Free p])
            else if negb (fmt2rgb888 w)
            then (false, mkCamera (active cam) None, fx1 ++ [FbReturn; Free p])
            else
              (true, mkCamera (active cam) (Some p),
               fx1 ++ [FbReturn]
               ++ (if negb (targetWidth =? RAW_WIDTH) || negb (targetHeight =? RAW_HEIGHT)
                   then [Resize targetWidth targetHeight] else []))
        end
    end.

Definition getBuffer (cam : CameraManager) : option Z := imageBuffer cam.

Definition release (cam : CameraManager) : CameraManager * list Event :=
  match imageBuffer cam with
  | Some p => (mkCamera (active cam) None, [Free p])
  | None => (cam, [])
  end.

(** ** Serial link *)

Definition CR : ascii := "013"%char.
Definition LF : ascii := "010"%char.

(** [Serial2.println(s)] on the wire. *)
Definition println (s : string) : list ascii := list_ascii_of_string s ++ [CR; LF].

(** [snprintf(response, 32, ...)]: at most 31 characters are kept. *)
Definition snprintf32 (s : string) : string := substring 0 31 s.

(** [readStringUntil(terminator)] on the characters that arrive before
    its timeout. *)
Fixpoint readStringUntil (terminator : ascii) (rx : list ascii) : string :=
  match rx with
  | [] => EmptyString
  | c :: rx' =>
      if Ascii.eqb c terminator then EmptyString
      else String c (readStringUntil terminator rx')
  end.

(** [isspace] of the C locale. *)
Definition isspace (c : ascii) : bool :=
  let n := N_of_ascii c in ((n =? 32) || ((9 <=? n) && (n <=? 13)))%N.

Fixpoint trim_left (s : string) : string :=
  match s with
  | String c s' => if isspace c then trim_left s' else s
  | EmptyString => EmptyString
  end.

Fixpoint trim_right (s : string) : string :=
  match s with
  | EmptyString => EmptyString
  | String c s' =>
      match trim_right s' with
      | EmptyString => if isspace c then EmptyString else String c EmptyString
      | t => String c t
      end
  end.

(** [String::trim]. *)
Definition trim (s : string) : string := trim_right (trim_left s).

Section WithModel.

Variables EI_CLASSIFIER_INPUT_WIDTH EI_CLASSIFIER_INPUT_HEIGHT : Z.

(** The conversion [%.2f] of [snprintf]. *)
Variable printf_2f : F32.float -> string.

(** ** Inference runner *)

(** The copy of one raw detection into [boxes[i]]. *)
Definition copyRaw (raw : BoundingBox) : BoundingBox :=
  mkBox (x raw) (y raw) (width raw) (height raw) (confidence raw)
        (substring 0 31 (label raw)) false.

Definition response (b : BoundingBox) : string :=
  snprintf32 ("OK:" ++ label b ++ ":" ++ printf_2f (confidence b)).

(** [runInference(imageData)]: the returned flag and what is sent; no
    result where the filters have none. *)
Definition runInference (imageData : option Z) (w : World)
  : option (bool * list Event) :=
  match imageData with
  | None => Some (false, [Serial2Println "ERR:NULL_IMAGE"])
  | Some _ =>
      match run_classifier w with
      | None => Some (false, [Serial2Println "ERR:INFERENCE_FAILED"])
      | Some result =>
          match Vision.runInference EI_CLASSIFIER_INPUT_WIDTH
                  EI_CLASSIFIER_INPUT_HEIGHT (map copyRaw result) with
          | None => None
          | Some (Some b) =>
              Some (true, [Serial2Flush; Pause 10; Serial2Println (response b);
                           Serial2Flush])
          | Some None =>
              Some (true, [Serial2Flush; Pause 10; Serial2Println "NONE";
                           Serial2Flush])
          end
      end
  end.

(** ** Setup and main loop *)

(** [setup]: the two pauses after the serial ports are opened, then the
    camera; the result is the camera it leaves to [loop], or [None] when
    it stays in [while(1)] for ever. *)
Definition setup (esp_camera_init_ok : bool) : option CameraManager * list Event :=
  let '(ok, cam, fx) := initialize esp_camera_init_ok newCamera in
  if ok then (Some cam, [Pause 100; Pause 100] ++ fx ++ [Pause 500])
  else (None, [Pause 100; Pause 100] ++ fx ++ [Serial2Println "ERR:CAMERA_INIT"]).

(** One of the two blocks of [loop]: a command line has arrived, from
    the Arduino ([fromArduino]) or from the serial monitor.  The flag
    returned says whether the block ended in [return]. *)
Definition handleCommand (fromArduino : bool) (rx : list ascii) (w : World)
           (cam : CameraManager)
  : option (bool * CameraManager * list Event) :=
  let cmd := trim (readStringUntil LF rx) in
  if String.eqb cmd "INFER" then
    let '(ok, cam1, fx1) :=
      capture EI_CLASSIFIER_INPUT_WIDTH EI_CLASSIFIER_INPUT_HEIGHT w cam in
    if negb ok then
      let '(cam2, fx2) := release cam1 in
      Some (true, cam2,
            fx1 ++ (if fromArduino then [Serial2Println "ERR:CAPTURE_FAILED"] else [])
            ++ fx2)
    else
      match runInference (getBuffer cam1) w with
      | None => None
      | Some (_, fxr) =>
          let '(cam2, fx2) := release cam1 in
          Some (false, cam2, fx1 ++ fxr ++ fx2)
      end
  else Some (false, cam, []).

(** What one call of [loop] finds: the line waiting on UART2 and on
    the monitor, if any, and the answers of the environment for each. *)
Record LoopInput := mkLoopInput {
  serial2 : option (list ascii);
  serial0 : option (list ascii);
  world2 : World;
  world0 : World
}.

Definition loop (i : LoopInput) (cam : CameraManager)
  : option (CameraManager * list Event) :=
  let first :=
    match serial2 i with
    | Some rx => handleCommand true rx (world2 i) cam
    | None => Some (false, cam, [])
    end in
  match first with
  | None => None
  | Some (true, cam1, fx1) => Some (cam1, fx1)
  | Some (false, cam1, fx1) =>
      let second :=
        match serial0 i with
        | Some rx => handleCommand false rx (world0 i) cam1
        | None => Some (false, cam1, [])
        end in
      match second with
      | None => None
      | Some (true, cam2, fx2) => Some (cam2, fx1 ++ fx2)
      | Some (false, cam2, fx2) => Some (cam2, fx1 ++ fx2 ++ [Pause 10])
      end
  end.

(** [loop] called once per input. *)
Fixpoint loops (ins : list LoopInput) (cam : CameraManager)
  : option (CameraManager * list Event) :=
  match ins with
  | [] => Some (cam, [])
  | i :: ins' =>
      match loop i cam with
      | None => None
      | Some (cam1, fx1) =>
          match loops ins' cam1 with
          | None => None
          | Some (cam2, fx2) => Some (cam2, fx1 ++ fx2)
          end
      end
  end.

End WithModel.

End Esp.

(** The callback [getImageData] that hands the pixels to the
    classifier.  The image is the list of the bytes of [g_imageData]; a
    read outside of it has no result. *)
Module EspImage.

Definition u32 (z : Z) : Z := z mod 2 ^ 32.

(** [(g[o + 2] << 16) + (g[o + 1] << 8) + g[o]], converted to [float]. *)
Definition readPixel (g_imageData : list Z) (byteOffset : Z) : option F32.float :=
  match nth_error g_imageData (Z.to_nat (u32 (byteOffset + 2))),
        nth_error g_imageData (Z.to_nat (u32 (byteOffset + 1))),
        nth_error g_imageData (Z.to_nat byteOffset) with
  | Some r, Some g, Some b => Some (F32.of_Z (Z.shiftl r 16 + Z.shiftl g 8 + b))
  | _, _, _ => None
  end.

(** The loop, with [n] iterations left: the values stored in [out]. *)
Fixpoint fill (g_imageData : list Z) (byteOffset : Z) (n : nat)
  : option (list F32.float) :=
  match n with
  | O => Some []
  | S n' =>
      match readPixel g_imageData byteOffset with
      | None => None
      | Some v =>
          match fill g_imageData (u32 (byteOffset + 3)) n' with
          | Some vs => Some (v :: vs)
          | None => None
          end
      end
  end.

Section WithModel.
Variables EI_CLASSIFIER_INPUT_WIDTH EI_CLASSIFIER_INPUT_HEIGHT : Z.

(** [getImageData(offset, length, out)]: the value returned and what
    is stored in [out]; [out] says whether that pointer is set. *)
Definition getImageData (g_imageData : option (list Z)) (offset length : Z)
           (out : bool) : option (Z * list F32.float) :=
  match g_imageData with
  | None => Some (-1, [])
  | Some image =>
      if negb out then Some (-1, [])
      else
        let maxPixels := u32 (EI_CLASSIFIER_INPUT_WIDTH * EI_CLASSIFIER_INPUT_HEIGHT) in
        if maxPixels <? u32 (offset + length) then Some (-1, [])
        else
          match fill image (u32 (offset * 3)) (Z.to_nat length) with
          | Some vs => Some (0, vs)
          | None => None
          end
  end.

End WithModel.

End EspImage.

(** A stand-in for the conversion [%.2f] of the C library, used to
    instantiate [Esp.response] on concrete boxes: the value rounded to
    the nearest hundredth, ties to even. *)
Module LibcOut.

Definition cents (m : positive) (e : Z) : Z :=
  let n := 100 * Z.pos m in
  if 0 <=? e then n * 2 ^ e
  else
    let d := 2 ^ (- e) in
    let q := n / d in
    let r := n mod d in
    if (d <? 2 * r) || ((d =? 2 * r) && Z.odd q) then q + 1 else q.

Definition fixed2 (c : Z) : string :=
  Sorter.decimal (c / 100) ++ "." ++ Sorter.decimal (c / 10 mod 10)
  ++ Sorter.decimal (c mod 10).

Definition printf_2f (v : F32.float) : string :=
  match v with
  | S754_zero false => "0.00"
  | S754_zero true => "-0.00"
  | S754_infinity false => "inf"
  | S754_infinity true => "-inf"
  | S754_nan => "nan"
  | S754_finite false m e => fixed2 (cents m e)
  | S754_finite true m e => "-" ++ fixed2 (cents m e)
  end.

End LibcOut.

(* ================================================================== *)
(** * Vocabulary of the properties *)
(* ================================================================== *)

Module SorterSpec.
Import Sorter.

(** Two states carry the same vote counts. *)
Definition sameVotes (g g' : Globals) : Prop :=
  votesCan g = votesCan g' /\ votesGlass g = votesGlass g' /\
  votesBottle g = votesBottle g'.

(** Two states carry the same tally: counts and accumulated confidences. *)
Definition sameTally (g g' : Globals) : Prop :=
  sameVotes g g' /\
  confCan g = confCan g' /\ confGlass g = confGlass g' /\
  confBottle g = confBottle g'.

(** Every count and every accumulated confidence is zero. *)
Definition tallyZero (g : Globals) : Prop :=
  votesCan g = 0 /\ votesGlass g = 0 /\ votesBottle g = 0 /\
  confCan g = F32.zero /\ confGlass g = F32.zero /\ confBottle g = F32.zero.

(** The accumulated confidence of the class sorted to bin 1 (CAN),
    2 (GLASS) or 3 (BOTTLE); the bin numbers follow the priority order. *)
Definition confOf (g : Globals) (bin : Z) : F32.float :=
  if bin =? 1 then confCan g else if bin =? 2 then confGlass g else confBottle g.

(** A drop to the left, the movement that only the unknown bin uses. *)
Definition isLeftDrop (e : Effect) : bool :=
  match e with Servo2 a => a =? S2_LEFT | _ => false end.

(** A drop to either side. *)
Definition isDrop (e : Effect) : bool :=
  match e with Servo2 a => (a =? S2_LEFT) || (a =? S2_RIGHT) | _ => false end.

Definition isLcd (e : Effect) : bool :=
  match e with Lcd _ _ => true | _ => false end.

(** *** Shapes of a reply buffer *)

(** [needle] occurs in [s]. *)
Definition occurs (needle s : string) : Prop :=
  exists pre post, s = (pre ++ needle ++ post)%string.

(** The first occurrence of [needle] in [s] is after [pre] and is
    followed by [post]. *)
Definition firstAt (needle pre post s : string) : Prop :=
  s = (pre ++ needle ++ post)%string /\
  forall pre' post', s = (pre' ++ needle ++ post')%string ->
                     (String.length pre <= String.length pre')%nat.

Fixpoint countChar (c : ascii) (s : string) : nat :=
  match s with
  | EmptyString => O
  | String a s' => ((if Ascii.eqb a c then 1 else 0) + countChar c s')%nat
  end.

(** The buffers that the specification lists as "no detection". *)
Definition noDetectionShape (buffer : string) : Prop :=
  buffer = ""%string \/
  starts_with "NONE" buffer = true \/
  starts_with "ERR:" buffer = true \/
  ~ occurs "OK" buffer \/
  exists pre tail, firstAt "OK" pre tail buffer /\ (countChar colon tail < 2)%nat.

(** Every other buffer: the first [OK], then text without a colon, a
    colon, the label, a second colon and the remainder. *)
Definition okShape (buffer pre garbage lbl rest : string) : Prop :=
  starts_with "NONE" buffer = false /\
  starts_with "ERR:" buffer = false /\
  firstAt "OK" pre (garbage ++ ":" ++ lbl ++ ":" ++ rest)%string buffer /\
  countChar colon garbage = O /\
  countChar colon lbl = O.

(** *** Executions *)

Section Runs.
Variable atof : string -> F32.float.

(** The states the sketch can be in: those a sequence of calls of
    [loop] leads to from the initial values of the globals. *)
Definition reachable (g : Globals) : Prop :=
  exists ins, fst (run atof ins initial) = g.

(** The reply a call in [STATE_WAIT] would parse from its input, if the
    link delivers a non-empty line. *)
Definition replyOf (i : Input) : option (bool * string * F32.float) :=
  match rx i with
  | None => None
  | Some cs =>
      let buffer := readLine cs 0 in
      if String.eqb buffer "" then None
      else Some (parseResponse atof buffer "" F32.zero)
  end.

(** The reply of [i], if any, is not an accepted detection. *)
Definition nonDetection (i : Input) : Prop :=
  match replyOf i with Some (ok, _, _) => ok = false | None => True end.

(** The calls made from [g] on the inputs [ins], up to the first state
    in [STATE_DECIDE] or [STATE_ERROR], where the voting of a cycle ends:
    each call with the state it starts from, and the state reached at
    the end. *)
Fixpoint execVoting (ins : list Input) (g : Globals)
  : list (Globals * Input) * Globals :=
  match ins with
  | [] => ([], g)
  | i :: ins' =>
      match state g with
      | STATE_DECIDE | STATE_ERROR => ([], g)
      | _ =>
          let '(tr, gf) := execVoting ins' (fst (runStateMachine atof i g)) in
          ((g, i) :: tr, gf)
      end
  end.

(** A call that sends [INFER]. *)
Definition isRequest (c : Globals * Input) : bool :=
  match state (fst c) with STATE_REQUEST => true | _ => false end.

(** A call that receives a reply in time: the end of a round trip. *)
Definition isReply (c : Globals * Input) : bool :=
  match state (fst c), replyOf (snd c) with
  | STATE_WAIT, Some _ => negb (deadline (fst c) <? now (snd c))
  | _, _ => false
  end.

(** The states of a cycle in which nothing has been detected. *)
Definition phaseOK (g : Globals) : Prop :=
  tallyZero g /\
  match state g with
  | STATE_REQUEST | STATE_WAIT | STATE_ERROR =>
      0 <= repositionAttempts g <= MAX_REPOSITIONS
  | STATE_REPOSITION => 0 <= repositionAttempts g < MAX_REPOSITIONS
  | STATE_DECIDE => repositionAttempts g = MAX_REPOSITIONS
  | _ => False
  end.

(** Replies received so far in the cycle, read off the state. *)
Definition repliesSoFar (g : Globals) : Z :=
  match state g with
  | STATE_REQUEST | STATE_WAIT | STATE_ERROR => repositionAttempts g
  | STATE_REPOSITION => repositionAttempts g + 1
  | _ => MAX_REPOSITIONS + 1
  end.

(** Requests sent so far in the cycle, read off the state. *)
Definition requestsSoFar (g : Globals) : Z :=
  match state g with
  | STATE_REQUEST => repositionAttempts g
  | STATE_WAIT | STATE_REPOSITION | STATE_ERROR => repositionAttempts g + 1
  | _ => MAX_REPOSITIONS + 1
  end.

Definition b2z (b : bool) : Z := if b then 1 else 0.

(** While the machine asks for votes, no class has a majority and the
    cap is not reached. *)
Definition votingOpen (g : Globals) : Prop :=
  match state g with
  | STATE_REQUEST | STATE_WAIT | STATE_REPOSITION =>
      hasMajority g = false /\ getTotalVotes g < MAX_VOTES
  | _ => True
  end.

(** The scenario of repeated non-detections: whenever a call in
    [STATE_WAIT] is made before the deadline, the object is present and
    the reply, if there is one, is not a detection. *)
Definition unseen (c : Globals * Input) : Prop :=
  state (fst c) = STATE_WAIT -> now (snd c) <= deadline (fst c) ->
  present (snd c) = true /\ nonDetection (snd c).

End Runs.

(** A class of the tally as the sketch leaves it: no vote and no
    confidence, one vote with a confidence that was accepted, or the
    two votes of a majority. *)
Definition classOK (votes : Z) (conf : F32.float) : Prop :=
  (votes = 0 /\ conf = F32.zero) \/
  (votes = 1 /\ F32.ge conf MIN_CONFIDENCE = true) \/
  votes = MAJORITY_VOTES.

Definition tallyOK (g : Globals) : Prop :=
  classOK (votesCan g) (confCan g) /\
  classOK (votesGlass g) (confGlass g) /\
  classOK (votesBottle g) (confBottle g).

End SorterSpec.

(** Concrete runs, used to exercise the properties. *)
Module Scenario.
Import Sorter.

Definition line (s : string) : option (list ascii) :=
  Some (list_ascii_of_string (s ++ String "010" "")).

(** A state in [STATE_DETECT] that still holds values of an earlier cycle. *)
Definition detecting : Globals :=
  mkGlobals STATE_DETECT 1 0 0 (F32.lit 7 1) F32.zero F32.zero 0 1 0.

Definition objectSeen : Input := mkInput 100 true None.

(** Three round trips that each end in [NONE], with idle polls between. *)
Definition threeNones : list Input :=
  [mkInput 200 true None; mkInput 900 true (line "NONE");
   mkInput 1000 true None;
   mkInput 1400 true None; mkInput 1800 true None; mkInput 2100 true (line "NONE");
   mkInput 2200 true None;
   mkInput 2700 true None; mkInput 3100 true (line "NONE");
   mkInput 3200 true None].

(** Power-up, an object, its confirmation and the first request. *)
Definition firstRequest : list Input :=
  [mkInput 0 true None; mkInput 10 true None; mkInput 20 true None].

Definition paperReply : Input := mkInput 400 true (line "OK:PAPER:0.91").

(** Two tallies written by hand: one vote for a can with an accumulated
    confidence of 0.005, and a sum that is not a number. *)
Definition belowFloor : Globals :=
  mkGlobals STATE_DECIDE 1 0 0 (F32.lit 5 3) F32.zero F32.zero 0 0 0.
Definition nanSum : Globals :=
  mkGlobals STATE_DECIDE 1 1 0 S754_nan (F32.lit 9 1) F32.zero 0 0 0.

(** Power-up, an object and its confirmation, then two round trips: a
    can at 0.70 and glass at 0.90. *)
Definition canThenGlass : list Input :=
  [mkInput 0 true None; mkInput 10 true None;
   mkInput 20 true None; mkInput 400 true (line "OK:CAN3:0.70");
   mkInput 1000 true None; mkInput 1400 true (line "OK:GLASS3:0.90")].

(** Three overlapping detections of one can in a 96 x 96 frame. *)
Definition can90 : Vision.BoundingBox :=
  Vision.mkBox 10 10 40 40 (F32.lit 9 1) "CAN3" false.
Definition can80 : Vision.BoundingBox :=
  Vision.mkBox 12 12 40 40 (F32.lit 8 1) "CAN3" false.
Definition can95 : Vision.BoundingBox :=
  Vision.mkBox 11 9 40 42 (F32.lit 95 2) "CAN3" false.

(** A detection whose confidence is not a number, between two others. *)
Definition can70 : Vision.BoundingBox :=
  Vision.mkBox 10 10 40 40 (F32.lit 7 1) "CAN3" false.
Definition canNaN : Vision.BoundingBox :=
  Vision.mkBox 12 12 40 40 S754_nan "CAN3" false.

(** Three coinciding detections one pixel wide. *)
Definition dot90 : Vision.BoundingBox :=
  Vision.mkBox 0 0 1 1 (F32.lit 9 1) "CAN3" false.
Definition dot80 : Vision.BoundingBox :=
  Vision.mkBox 0 0 1 1 (F32.lit 8 1) "CAN3" false.
Definition dot95 : Vision.BoundingBox :=
  Vision.mkBox 0 0 1 1 (F32.lit 95 2) "CAN3" false.

End Scenario.

Module VisionSpec.
Import Vision.

(** A box after a stage, compared with the box before it: unchanged, or
    its flag has gone from false to true and nothing else has changed. *)
Definition grows (before after : BoundingBox) : Prop :=
  after = before \/
  (suppressed before = false /\ after = set_suppressed true before).

(** A stage that works in place: position by position the boxes grow. *)
Definition inPlace (input output : list BoundingBox) : Prop :=
  Forall2 grows input output.

(** A stage that may also reorder: the output is, box by box, the growth
    of a permutation of the input. *)
Definition stageRel (input output : list BoundingBox) : Prop :=
  exists p, Permutation input p /\ Forall2 grows p output.

(** The boxes still in the running. *)
Definition survivors (boxes : list BoundingBox) : list BoundingBox :=
  filter (fun b => negb (suppressed b)) boxes.

(** Descending confidence. *)
Definition confGe (a b : BoundingBox) : Prop :=
  F32.ge (confidence a) (confidence b) = true.

Definition noNaN (boxes : list BoundingBox) : Prop :=
  Forall (fun b => F32.is_nan (confidence b) = false) boxes.

(** The condition under which [applyNMS] lets the box [a] suppress [b]. *)
Definition clash (a b : BoundingBox) : bool :=
  sameClass a b && tooClose a b.

(** The IoU of two boxes exceeds the threshold. *)
Definition overlapping (a b : BoundingBox) : Prop :=
  F32.gt (calculateIoU a b) NMS_IOU_THRESHOLD = true.

(** One pass of the inner loop: [k] comparisons from the left. *)
Definition pass (k : nat) (l : list BoundingBox) : list BoundingBox :=
  for_range 0 k sortStep l.

(** After [i] passes the last [i] boxes are in their final place. *)
Definition sortedTail (boxes : list BoundingBox) (i : nat) (s : list BoundingBox)
  : Prop :=
  Permutation boxes s /\
  exists front tail,
    s = front ++ tail /\ List.length tail = i /\
    StronglySorted confGe tail /\
    forall p t, In p front -> In t tail -> confGe p t.

(** What the inner loop does to [b] when the box [a] is in charge. *)
Definition nmsMark (a b : BoundingBox) : BoundingBox :=
  if negb (suppressed b) && clash a b then set_suppressed true b else b.

Section WithModel.
Variables W H : Z.

(** The box passes every test of [filterInvalid]. *)
Definition plausible (b : BoundingBox) : bool :=
  isValid b &&
  negb ((W <? u32 (x b + width b)) || (H <? u32 (y b + height b))) &&
  negb (let aspectRatio := F32.div (F32.of_Z (width b)) (F32.of_Z (height b)) in
        F32.gt aspectRatio ASPECT_MAX || F32.lt aspectRatio ASPECT_MIN).

End WithModel.

End VisionSpec.

(* ================================================================== *)
(** * Vocabulary of the further properties *)
(* ================================================================== *)

Module SorterMore.
Import Sorter SorterSpec.

(** The bin of a class name the sorter knows. *)
Definition binOf (className : string) : option Z :=
  if String.eqb className "CAN3" then Some 1
  else if String.eqb className "GLASS3" then Some 2
  else if String.eqb className "BOTTLE3" then Some 3
  else None.

(** The votes that the class of that name holds. *)
Definition votesOf (className : string) (g : Globals) : Z :=
  if String.eqb className "CAN3" then votesCan g
  else if String.eqb className "GLASS3" then votesGlass g
  else if String.eqb className "BOTTLE3" then votesBottle g
  else 0.

(** Where the two servos stand. *)
Record Pose := mkPose { arm : Z; flap : Z }.

(** The pose after an effect. *)
Definition move (p : Pose) (e : Effect) : Pose :=
  match e with
  | Servo1 a => mkPose a (flap p)
  | Servo2 a => mkPose (arm p) a
  | _ => p
  end.

Definition poseAfter (fx : list Effect) (p : Pose) : Pose := fold_left move fx p.

(** The poses in which the flap is opened, to either side, in order. *)
Fixpoint dropPoses (fx : list Effect) (p : Pose) : list Pose :=
  match fx with
  | [] => []
  | e :: fx' =>
      let p' := move p e in
      if isDrop e then p' :: dropPoses fx' p' else dropPoses fx' p'
  end.

(** The place where [sortToBin] lets the object fall. *)
Definition dropPoseOf (bin : Z) : Pose :=
  if bin =? 1 then mkPose S1_HOME S2_RIGHT
  else if bin =? 2 then mkPose S1_MID S2_RIGHT
  else if bin =? 3 then mkPose S1_FAR S2_RIGHT
  else mkPose S1_MID S2_LEFT.

(** The arrows of the state diagram. *)
Definition mayFollow (s s' : SystemState) : bool :=
  match s, s' with
  | STATE_IDLE, (STATE_IDLE | STATE_DETECT) => true
  | STATE_DETECT, (STATE_REQUEST | STATE_IDLE) => true
  | STATE_REQUEST, STATE_WAIT => true
  | STATE_WAIT, (STATE_WAIT | STATE_ERROR | STATE_REQUEST | STATE_DECIDE
                 | STATE_REPOSITION | STATE_IDLE) => true
  | STATE_REPOSITION, STATE_REQUEST => true
  | STATE_DECIDE, STATE_SORT => true
  | STATE_SORT, STATE_IDLE => true
  | STATE_ERROR, STATE_IDLE => true
  | _, _ => false
  end.

(** The counters stay within these bounds. *)
Definition countersBounded (g : Globals) : Prop :=
  0 <= votesCan g <= MAJORITY_VOTES /\
  0 <= votesGlass g <= MAJORITY_VOTES /\
  0 <= votesBottle g <= MAJORITY_VOTES /\
  votesCan g + votesGlass g + votesBottle g <= MAX_VOTES /\
  0 <= repositionAttempts g <= MAX_REPOSITIONS /\
  0 <= consecutiveNones g <= MAX_REPOSITIONS + 1.

(** The bounds together with what the state adds to them. *)
Definition countersInv (g : Globals) : Prop :=
  countersBounded g /\
  match state g with
  | STATE_REQUEST | STATE_WAIT =>
      votesCan g < MAJORITY_VOTES /\ votesGlass g < MAJORITY_VOTES /\
      votesBottle g < MAJORITY_VOTES /\
      votesCan g + votesGlass g + votesBottle g < MAX_VOTES /\
      consecutiveNones g <= repositionAttempts g
  | STATE_REPOSITION =>
      votesCan g < MAJORITY_VOTES /\ votesGlass g < MAJORITY_VOTES /\
      votesBottle g < MAJORITY_VOTES /\
      votesCan g + votesGlass g + votesBottle g < MAX_VOTES /\
      repositionAttempts g < MAX_REPOSITIONS /\
      consecutiveNones g <= repositionAttempts g + 1
  | _ => True
  end.

(** Two states differ at most in [consecutiveNones]. *)
Definition sameButNones (g g' : Globals) : Prop :=
  state g = state g' /\ sameTally g g' /\ deadline g = deadline g' /\
  repositionAttempts g = repositionAttempts g'.

(** The characters of a line up to its end. *)
Fixpoint beforeEol (cs : list ascii) : list ascii :=
  match cs with
  | [] => []
  | c :: cs' => if is_eol c then [] else c :: beforeEol cs'
  end.

(** The text fits the two lines of 16 characters of the display. *)
Definition lcdFits (e : Effect) : Prop :=
  match e with
  | Lcd line1 line2 => (String.length line1 <= 16 /\ String.length line2 <= 16)%nat
  | _ => True
  end.

(** The requests for an inference among the effects. *)
Definition isInfer (e : Effect) : bool :=
  match e with EspPrintln line => String.eqb line "INFER" | _ => false end.

Definition inferSent (fx : list Effect) : nat := List.length (filter isInfer fx).

End SorterMore.

Module VisionMore.
Import Vision VisionSpec.

Section WithModel.
Variables W H : Z.

(** What [filterInvalid] does to one box. *)
Definition filterOne (b : BoundingBox) : BoundingBox :=
  if suppressed b then b
  else if plausible W H b then b
  else set_suppressed true b.

End WithModel.

(** Some box of the array is still in the running. *)
Definition alive (boxes : list BoundingBox) : bool :=
  existsb (fun b => negb (suppressed b)) boxes.

(** No two boxes that are left carry the same label. *)
Definition onePerClass (boxes : list BoundingBox) : Prop :=
  forall i j, (i < j < List.length boxes)%nat ->
    suppressed (get boxes i) = false -> suppressed (get boxes j) = false ->
    sameClass (get boxes i) (get boxes j) = false.

End VisionMore.

Module EspMore.
Import Esp.

(** The image buffers that the camera manager owns. *)
Definition owned (cam : CameraManager) : list Z :=
  match imageBuffer cam with Some p => [p] | None => [] end.

(** [free(p)] on the blocks in use; no result when [p] is not one. *)
Fixpoint freeBlock (p : Z) (blocks : list Z) : option (list Z) :=
  match blocks with
  | [] => None
  | q :: bs =>
      if p =? q then Some bs
      else match freeBlock p bs with
           | Some bs' => Some (q :: bs')
           | None => None
           end
  end.

(** The blocks in use after the events; no result when a block is
    freed that is not in use. *)
Fixpoint heapAfter (fx : list Event) (blocks : list Z) : option (list Z) :=
  match fx with
  | [] => Some blocks
  | Malloc p :: fx' => heapAfter fx' (p :: blocks)
  | Free p :: fx' =>
      match freeBlock p blocks with
      | Some bs => heapAfter fx' bs
      | None => None
      end
  | _ :: fx' => heapAfter fx' blocks
  end.

(** The frames of the driver that are held after the events; no result
    when a frame is returned that is not held, or a second one taken. *)
Fixpoint framesAfter (fx : list Event) (held : nat) : option nat :=
  match fx with
  | [] => Some held
  | FbGet :: fx' =>
      match held with O => framesAfter fx' 1%nat | S _ => None end
  | FbReturn :: fx' =>
      match held with O => None | S h => framesAfter fx' h end
  | _ :: fx' => framesAfter fx' held
  end.

(** The lines sent to the Arduino. *)
Fixpoint sent (fx : list Event) : list string :=
  match fx with
  | [] => []
  | Serial2Println line :: fx' => line :: sent fx'
  | _ :: fx' => sent fx'
  end.

(** The replies to [INFER]. *)
Definition isReplyLine (line : string) : bool :=
  String.eqb line "ERR:CAPTURE_FAILED" || String.eqb line "ERR:INFERENCE_FAILED" ||
  String.eqb line "NONE" || prefix "OK:" line.

(** The line is the command [INFER]. *)
Definition isInferLine (rx : option (list ascii)) : bool :=
  match rx with
  | Some cs => String.eqb (trim (readStringUntil LF cs)) "INFER"
  | None => false
  end.

(** The commands [INFER] that arrive from the Arduino. *)
Definition requests (ins : list LoopInput) : nat :=
  List.length (filter (fun i => isInferLine (serial2 i)) ins).

End EspMore.

Module ImageMore.

(** The pixel [k] of an image of three bytes per pixel, as one number:
    the third byte in bits 16 to 23, the second in bits 8 to 15. *)
Definition packed (image : list Z) (k : nat) : Z :=
  Z.shiftl (nth (3 * k + 2) image 0) 16 + Z.shiftl (nth (3 * k + 1) image 0) 8
  + nth (3 * k) image 0.

End ImageMore.

(** Further concrete inputs, used to exercise the properties. *)
Module ScenarioMore.
Import Vision Esp.

(** A can, a smaller detection of the same can inside it, and a bottle,
    in a 96 x 96 frame. *)
Definition canBig : BoundingBox := mkBox 10 10 40 40 (F32.lit 9 1) "CAN3" false.
Definition canInside : BoundingBox := mkBox 15 15 10 10 (F32.lit 8 1) "CAN3" false.
Definition bottle : BoundingBox := mkBox 50 50 30 40 (F32.lit 85 2) "BOTTLE3" false.

(** A camera that delivers a frame at the second attempt, and a
    classifier that finds the three boxes. *)
Definition goodWorld : World :=
  mkWorld (Some 4096)
          (fun retry => if (retry =? 0)%nat then None else Some (mkFrame true 5120))
          true (Some [canInside; canBig; bottle]).

(** A camera that delivers no frame. *)
Definition blindWorld : World :=
  mkWorld (Some 4096) (fun _ => None) true (Some []).

(** The camera manager that [setup] leaves. *)
Definition readyCamera : CameraManager := mkCamera true None.

(** Two requests of the Arduino with an idle call between them; the
    second request finds the camera blind. *)
Definition twoRequests : list LoopInput :=
  [mkLoopInput (Some (println "INFER")) None goodWorld goodWorld;
   mkLoopInput None None goodWorld goodWorld;
   mkLoopInput (Some (println "INFER")) None blindWorld goodWorld].

(** The sorter waiting for a reply, with one vote for glass recorded;
    and the reply that gives the second. *)
Definition oneGlass : Sorter.Globals :=
  Sorter.mkGlobals Sorter.STATE_WAIT 0 1 0 F32.zero (F32.lit 88 2) F32.zero 3000 0 0.

Definition glassReply : Sorter.Input :=
  Sorter.mkInput 1200 true (Scenario.line "OK:GLASS3:0.91").

(** An image of two by two pixels. *)
Definition tinyImage : list Z := [1; 2; 3; 10; 20; 30; 0; 0; 255; 255; 255; 255].

End ScenarioMore.

(* ================================================================== *)
(** * The order of floating-point comparison *)
(* ================================================================== *)

Module FloatOrder.

Lemma pos_cmp (m n : positive) : Pos.compare_cont Eq m n = Pos.compare m n.
Proof. reflexivity. Qed.

Ltac cmp_cases :=
  repeat match goal with
    | |- context [Pos.compare_cont Eq ?m ?n] => rewrite (pos_cmp m n)
    | H : context [Pos.compare_cont Eq ?m ?n] |- _ => rewrite (pos_cmp m n) in H
    end;
  repeat match goal with
    | |- context [Z.compare ?a ?b] => destruct (Z.compare_spec a b)
    | H : context [Z.compare ?a ?b] |- _ => destruct (Z.compare_spec a b)
    | |- context [Pos.compare ?a ?b] => destruct (Pos.compare_spec a b)
    | H : context [Pos.compare ?a ?b] |- _ => destruct (Pos.compare_spec a b)
    end;
  simpl in *; subst; try reflexivity; try discriminate; try lia.

Ltac by_cases3 a b c :=
  destruct a as [[]|[]| |[] ? ?], b as [[]|[]| |[] ? ?], c as [[]|[]| |[] ? ?];
  simpl in *; intros; try reflexivity; try discriminate; cmp_cases.

Ltac by_cases2 a b :=
  destruct a as [[]|[]| |[] ? ?], b as [[]|[]| |[] ? ?];
  simpl in *; intros; try reflexivity; try discriminate; cmp_cases.

(** [a >= a] unless [a] is NaN. *)
Lemma ge_refl (a : F32.float) : F32.is_nan a = false -> F32.ge a a = true.
Proof.
  unfold F32.ge, SFleb.
  destruct a as [[]|[]| |[] m e]; simpl; intros; try reflexivity; try discriminate;
    rewrite Z.compare_refl, pos_cmp, Pos.compare_refl; reflexivity.
Qed.

(** Comparison is total away from NaN: [not (a > b)] gives [b >= a]. *)
Lemma not_gt_ge (a b : F32.float) :
  F32.is_nan a = false -> F32.is_nan b = false ->
  F32.gt a b = false -> F32.ge b a = true.
Proof.
  unfold F32.gt, F32.ge, SFltb, SFleb. by_cases2 a b.
Qed.

Lemma gt_ge (a b : F32.float) : F32.gt a b = true -> F32.ge a b = true.
Proof.
  unfold F32.gt, F32.ge, SFltb, SFleb.
  destruct (SFcompare b a) as [[]|]; intros; try discriminate; reflexivity.
Qed.

Lemma ge_trans (a b c : F32.float) :
  F32.ge a b = true -> F32.ge b c = true -> F32.ge a c = true.
Proof.
  unfold F32.ge, SFleb. by_cases3 a b c.
Qed.

Lemma gt_ge_trans (a b c : F32.float) :
  F32.gt a b = true -> F32.ge b c = true -> F32.gt a c = true.
Proof.
  unfold F32.gt, F32.ge, SFltb, SFleb. by_cases3 a b c.
Qed.

(** [c >= a > b] excludes [c < b]. *)
Lemma ge_gt_not_lt (c a b : F32.float) :
  F32.ge c a = true -> F32.gt a b = true -> F32.lt c b = false.
Proof.
  unfold F32.ge, F32.gt, F32.lt, SFleb, SFltb. by_cases3 c a b.
Qed.

Lemma ge_gt_gt (c a b : F32.float) :
  F32.ge c a = true -> F32.gt a b = true -> F32.gt c b = true.
Proof.
  unfold F32.ge, F32.gt, SFleb, SFltb. by_cases3 c a b.
Qed.

Lemma gt_not_ge (a b : F32.float) : F32.gt a b = true -> F32.ge b a = false.
Proof. unfold F32.gt, F32.ge, SFltb, SFleb. by_cases2 a b. Qed.

(** A value that compares is a number. *)
Lemma ge_not_nan (c a : F32.float) : F32.ge c a = true -> F32.is_nan c = false.
Proof.
  unfold F32.ge, SFleb.
  destruct c as [[]|[]| |[] m e]; try reflexivity.
  destruct a as [[]|[]| |[] m e]; intros; discriminate.
Qed.

(** Adding to zero gives the value back, for a value above zero. *)
Lemma add_zero_l (c : F32.float) :
  F32.gt c F32.zero = true -> F32.add F32.zero c = c.
Proof. destruct c as [[]|[]| |[] m e]; intros; try discriminate; reflexivity. Qed.

End FloatOrder.

(* ================================================================== *)
(** * Properties of the sort controller *)
(* ================================================================== *)

Module SorterProofs.
Import Sorter SorterSpec.

(** ** The bin decision *)

Lemma calculateBin_sameTally (g g' : Globals) :
  sameTally g g' -> calculateBin g = calculateBin g'.
Proof.
  intros [[Hc [Hg Hb]] [Hcc [Hcg Hcb]]].
  unfold calculateBin, getTotalVotes.
  rewrite Hc, Hg, Hb, Hcc, Hcg, Hcb. reflexivity.
Qed.

(** C1.  When some class has reached the majority threshold,
    [calculateBin] returns the bin of the first class, in the order CAN,
    GLASS, BOTTLE, whose count is at least [MAJORITY_VOTES]; the result is
    the same for every state with the same counts, whatever the
    accumulated confidences are. *)
Theorem calculateBin_majority (g : Globals) :
  hasMajority g = true ->
  (MAJORITY_VOTES <= votesCan g -> calculateBin g = 1) /\
  (votesCan g < MAJORITY_VOTES -> MAJORITY_VOTES <= votesGlass g ->
   calculateBin g = 2) /\
  (votesCan g < MAJORITY_VOTES -> votesGlass g < MAJORITY_VOTES ->
   MAJORITY_VOTES <= votesBottle g -> calculateBin g = 3) /\
  (1 <= calculateBin g <= 3) /\
  (forall g', sameVotes g g' -> calculateBin g' = calculateBin g).
Proof.
  intros Hmaj.
  assert (Hcases : forall h, sameVotes g h ->
            calculateBin h =
            if MAJORITY_VOTES <=? votesCan g then 1
            else if MAJORITY_VOTES <=? votesGlass g then 2 else 3).
  { intros h [Hc [Hg Hb]]. unfold calculateBin. rewrite <- Hc, <- Hg, <- Hb.
    unfold hasMajority in Hmaj.
    destruct (MAJORITY_VOTES <=? votesCan g); [reflexivity|].
    destruct (MAJORITY_VOTES <=? votesGlass g); [reflexivity|].
    destruct (MAJORITY_VOTES <=? votesBottle g); [reflexivity|discriminate]. }
  assert (Hself : sameVotes g g) by (repeat split).
  pose proof (Hcases g Hself) as Hg.
  repeat split.
  - intros H. rewrite Hg. apply Z.leb_le in H. rewrite H. reflexivity.
  - intros H1 H2. rewrite Hg.
    apply Z.leb_gt in H1. apply Z.leb_le in H2. rewrite H1, H2. reflexivity.
  - intros H1 H2 H3. rewrite Hg.
    apply Z.leb_gt in H1. apply Z.leb_gt in H2. rewrite H1, H2. reflexivity.
  - rewrite Hg. destruct (_ <=? _); [lia|]. destruct (_ <=? _); lia.
  - rewrite Hg. destruct (_ <=? _); [lia|]. destruct (_ <=? _); lia.
  - intros g' Hs. rewrite (Hcases g' Hs), Hg. reflexivity.
Qed.

(** The tally of the scenario "CAN:2, GLASS:1, BOTTLE:0". *)
Lemma calculateBin_majority_witness :
  let g := mkGlobals STATE_DECIDE 2 1 0 (F32.lit 14 1) (F32.lit 99 2) F32.zero 0 0 0 in
  hasMajority g = true /\ calculateBin g = 1.
Proof.
  split; [reflexivity|].
  refine (proj1 (calculateBin_majority
           (mkGlobals STATE_DECIDE 2 1 0 (F32.lit 14 1) (F32.lit 99 2) F32.zero 0 0 0)
           _) _);
    [reflexivity | vm_compute; discriminate].
Defined.

(** On tallies written by hand the last test of [calculateBin] matters:
    with one vote for CAN and an accumulated confidence of 0.005 the
    result is the unknown bin 4, and with a sum that is not a number CAN
    is returned although its sum is not at least that of GLASS.  The
    sketch reaches neither tally ([hand_set_tallies_unreachable] below),
    since a vote is recorded only with a confidence of at least
    [MIN_CONFIDENCE]; the decision by confidence is therefore stated for
    the states of the running sketch. *)
Remark calculateBin_hand_set_tallies :
  (hasMajority Scenario.belowFloor = false /\
   getTotalVotes Scenario.belowFloor = 1 /\
   F32.gt (confCan Scenario.belowFloor) (confGlass Scenario.belowFloor) = true /\
   F32.gt (confCan Scenario.belowFloor) (confBottle Scenario.belowFloor) = true /\
   calculateBin Scenario.belowFloor = 4) /\
  (hasMajority Scenario.nanSum = false /\
   getTotalVotes Scenario.nanSum = 2 /\
   F32.ge (confCan Scenario.nanSum) (confGlass Scenario.nanSum) = false /\
   calculateBin Scenario.nanSum = 1).
Proof. vm_compute. repeat split. Qed.

(** The decision by confidence on an arbitrary tally.  With no
    majority, a nonzero total and accumulated confidences that are
    numbers, there is a class [b] whose accumulated confidence is at
    least that of every class and strictly above that of every class
    earlier in the order CAN, GLASS, BOTTLE; [calculateBin] returns [b]
    unless that confidence is below the floor 0.01. *)
Lemma calculateBin_order (g : Globals) :
  hasMajority g = false ->
  getTotalVotes g <> 0 ->
  F32.is_nan (confCan g) = false ->
  F32.is_nan (confGlass g) = false ->
  F32.is_nan (confBottle g) = false ->
  exists b,
    1 <= b <= 3 /\
    (forall c, 1 <= c <= 3 -> F32.ge (confOf g b) (confOf g c) = true) /\
    (forall c, 1 <= c < b -> F32.gt (confOf g b) (confOf g c) = true) /\
    calculateBin g = if F32.lt (confOf g b) CONF_FLOOR then 4 else b.
Proof.
  intros Hmaj Htot Nc Ng Nb.
  unfold hasMajority in Hmaj.
  apply orb_false_iff in Hmaj as [Hmaj Hb3].
  apply orb_false_iff in Hmaj as [Hb1 Hb2].
  apply Z.eqb_neq in Htot.
  unfold calculateBin. rewrite Hb1, Hb2, Hb3, Htot.
  assert (Hcase : forall c, 1 <= c <= 3 -> c = 1 \/ c = 2 \/ c = 3) by (intros; lia).
  destruct (F32.gt (confGlass g) (confCan g)) eqn:Hgc;
    [ destruct (F32.gt (confBottle g) (confGlass g)) eqn:Hbg
    | destruct (F32.gt (confBottle g) (confCan g)) eqn:Hbc ].
  - (* BOTTLE > GLASS > CAN *)
    exists 3. split; [lia|]. split; [|split; [|reflexivity]].
    + intros c Hc. destruct (Hcase c Hc) as [-> | [-> | ->]]; unfold confOf; simpl.
      * apply FloatOrder.gt_ge.
        apply (FloatOrder.gt_ge_trans _ _ _ Hbg (FloatOrder.gt_ge _ _ Hgc)).
      * apply FloatOrder.gt_ge, Hbg.
      * apply FloatOrder.ge_refl, Nb.
    + intros c Hc. assert (c = 1 \/ c = 2) as [-> | ->] by lia; unfold confOf; simpl.
      * apply (FloatOrder.gt_ge_trans _ _ _ Hbg (FloatOrder.gt_ge _ _ Hgc)).
      * exact Hbg.
  - (* GLASS > CAN, BOTTLE not above GLASS *)
    exists 2. split; [lia|]. split; [|split; [|reflexivity]].
    + intros c Hc. destruct (Hcase c Hc) as [-> | [-> | ->]]; unfold confOf; simpl.
      * apply FloatOrder.gt_ge, Hgc.
      * apply FloatOrder.ge_refl, Ng.
      * apply FloatOrder.not_gt_ge; assumption.
    + intros c Hc. assert (c = 1) as -> by lia. exact Hgc.
  - (* BOTTLE > CAN, GLASS not above CAN *)
    exists 3. split; [lia|]. split; [|split; [|reflexivity]].
    + intros c Hc. destruct (Hcase c Hc) as [-> | [-> | ->]]; unfold confOf; simpl.
      * apply FloatOrder.gt_ge, Hbc.
      * apply FloatOrder.gt_ge.
        apply (FloatOrder.gt_ge_trans _ _ _ Hbc).
        apply FloatOrder.not_gt_ge; assumption.
      * apply FloatOrder.ge_refl, Nb.
    + intros c Hc. assert (c = 1 \/ c = 2) as [-> | ->] by lia; unfold confOf; simpl.
      * exact Hbc.
      * apply (FloatOrder.gt_ge_trans _ _ _ Hbc).
        apply FloatOrder.not_gt_ge; assumption.
  - (* CAN is not exceeded *)
    exists 1. split; [lia|]. split; [|split; [|reflexivity]].
    + intros c Hc. destruct (Hcase c Hc) as [-> | [-> | ->]]; unfold confOf; simpl.
      * apply FloatOrder.ge_refl, Nc.
      * apply FloatOrder.not_gt_ge; assumption.
      * apply FloatOrder.not_gt_ge; assumption.
    + intros c Hc. lia.
Qed.

(** ** Single transitions *)

Section Transitions.
Variable atof : string -> F32.float.

Lemma tallyZero_calculateBin_4 (g : Globals) : tallyZero g -> calculateBin g = 4.
Proof.
  intros [Hc [Hg [Hb _]]]. unfold calculateBin, getTotalVotes.
  rewrite Hc, Hg, Hb. reflexivity.
Qed.

(** C8.  From [STATE_DECIDE] one call displays the bin computed from the
    tally and moves to [STATE_SORT] changing nothing but the state; the
    next call sorts to [calculateBin] of that same state, which is the bin
    displayed, because [calculateBin] depends on the tally alone. *)
Theorem sort_bin_equals_decide_bin (i1 i2 : Input) (g : Globals) :
  state g = STATE_DECIDE ->
  forall g1 fx1 g2 fx2,
    runStateMachine atof i1 g = (g1, fx1) ->
    runStateMachine atof i2 g1 = (g2, fx2) ->
    g1 = set_state STATE_SORT g /\
    sameTally g g1 /\
    fx1 = [Lcd (snprintf17 ("Bin " ++ decimal (calculateBin g)))
               (binName (calculateBin g)); Delay 1000] /\
    calculateBin g1 = calculateBin g /\
    fx2 = sortToBin (calculateBin g) /\
    state g2 = STATE_IDLE /\
    (forall h h', sameTally h h' -> calculateBin h = calculateBin h').
Proof.
  intros Hs g1 fx1 g2 fx2 H1 H2.
  unfold runStateMachine in H1. rewrite Hs in H1.
  injection H1 as <- <-.
  unfold runStateMachine in H2. simpl in H2.
  injection H2 as <- <-.
  repeat split; intros; auto using calculateBin_sameTally.
Qed.

(** C5.  A call in [STATE_WAIT] after the deadline only moves to
    [STATE_ERROR]; the next call zeroes the tally, shows the outcome, then
    runs the actuation sequence of bin 4, with its single drop to the
    left, and ends in [STATE_IDLE]. *)
Theorem timeout_sorts_to_unknown (i i' : Input) (g : Globals) :
  state g = STATE_WAIT ->
  deadline g < now i ->
  forall g1 fx1 g2 fx2,
    runStateMachine atof i g = (g1, fx1) ->
    runStateMachine atof i' g1 = (g2, fx2) ->
    g1 = set_state STATE_ERROR g /\ fx1 = [] /\
    state g2 = STATE_IDLE /\ tallyZero g2 /\ calculateBin g2 = 4 /\
    fx2 = [Lcd "Error/Timeout" "-> Bin 4"; Delay 1500]
            ++ moveServo1 S1_HOME ++ sortToBin 4 /\
    sortToBin 4 = [Servo1 S1_HOME; Delay SETTLE_MS; Servo1 S1_MID; Delay SETTLE_MS;
                   Servo2 S2_LEFT; Delay SETTLE_MS; Delay HOLD_MS;
                   Servo2 S2_HOME; Delay SETTLE_MS; Servo1 S1_HOME; Delay SETTLE_MS] /\
    List.length (filter isDrop fx2) = 1%nat /\
    List.length (filter isLeftDrop fx2) = 1%nat /\
    List.length (filter isLcd fx2) = 1%nat.
Proof.
  intros Hs Hlate g1 fx1 g2 fx2 H1 H2.
  unfold runStateMachine in H1. rewrite Hs in H1.
  apply Z.ltb_lt in Hlate. rewrite Hlate in H1.
  injection H1 as <- <-.
  unfold runStateMachine in H2. simpl in H2.
  injection H2 as <- <-.
  repeat split.
Qed.

End Transitions.

(** A cycle in [STATE_DECIDE] with the tally "CAN:1 0.7, GLASS:1 0.9". *)
Lemma sort_bin_equals_decide_bin_witness :
  let g := mkGlobals STATE_DECIDE 1 1 0 (F32.lit 7 1) (F32.lit 9 1) F32.zero 0 0 0 in
  let i := mkInput 0 true None in
  state g = STATE_DECIDE /\
  snd (runStateMachine Libc.atof i (fst (runStateMachine Libc.atof i g)))
  = sortToBin (calculateBin g).
Proof.
  split; [reflexivity|].
  exact (proj1 (proj2 (proj2 (proj2 (proj2
    (sort_bin_equals_decide_bin Libc.atof (mkInput 0 true None) (mkInput 0 true None)
       (mkGlobals STATE_DECIDE 1 1 0 (F32.lit 7 1) (F32.lit 9 1) F32.zero 0 0 0)
       eq_refl _ _ _ _ eq_refl eq_refl)))))).
Defined.

(** A request sent at time 1000 with one vote recorded; the reply is
    still missing at time 3501. *)
Lemma timeout_sorts_to_unknown_witness :
  let g := mkGlobals STATE_WAIT 1 0 0 (F32.lit 7 1) F32.zero F32.zero 3500 0 0 in
  let i := mkInput 3501 true None in
  state g = STATE_WAIT /\ deadline g < now i /\
  calculateBin (fst (runStateMachine Libc.atof i
                       (fst (runStateMachine Libc.atof i g)))) = 4.
Proof.
  split; [reflexivity|]. split; [reflexivity|].
  exact (proj1 (proj2 (proj2 (proj2 (proj2
    (timeout_sorts_to_unknown Libc.atof (mkInput 3501 true None) (mkInput 3501 true None)
       (mkGlobals STATE_WAIT 1 0 0 (F32.lit 7 1) F32.zero F32.zero 3500 0 0)
       eq_refl eq_refl _ _ _ _ eq_refl eq_refl)))))).
Defined.

End SorterProofs.

(* ================================================================== *)
(** * Properties of the reply parser *)
(* ================================================================== *)

Module ParserProofs.
Import Sorter SorterSpec.
Local Open Scope string_scope.
Local Open Scope nat_scope.

(** ** C strings *)

Lemma append_assoc (a b c : string) : (a ++ b) ++ c = a ++ (b ++ c).
Proof. induction a as [|x a IH]; simpl; [reflexivity | rewrite IH; reflexivity]. Qed.

Lemma append_nil_r (a : string) : a ++ "" = a.
Proof. induction a as [|x a IH]; simpl; [reflexivity | rewrite IH; reflexivity]. Qed.

Lemma length_append (a b : string) :
  String.length (a ++ b) = String.length a + String.length b.
Proof. induction a as [|x a IH]; simpl; [reflexivity | rewrite IH; reflexivity]. Qed.

(** Two splits of one string at the same position coincide. *)
Lemma append_split (a b a' b' : string) :
  a ++ b = a' ++ b' -> String.length a = String.length a' -> a = a' /\ b = b'.
Proof.
  revert a'. induction a as [|x a IH]; intros [|x' a'] H Hl; simpl in *;
    try discriminate; auto.
  injection H as -> H. injection Hl as Hl.
  destruct (IH a' H Hl) as [-> ->]. auto.
Qed.

Lemma prefix_spec (p s : string) : prefix p s = true <-> exists t, s = p ++ t.
Proof.
  revert s. induction p as [|x p IH]; intros s; simpl.
  - split; [exists s; reflexivity | destruct s; reflexivity].
  - destruct s as [|y s].
    + split; [discriminate | intros [t H]; discriminate].
    + simpl. destruct (ascii_dec x y) as [->|Hne].
      * rewrite IH. split; intros [t H]; exists t; [rewrite H; reflexivity|].
        injection H as H. exact H.
      * split; [discriminate|]. intros [t H]. injection H as H _. congruence.
Qed.

Lemma strstr_some (s n p : string) :
  strstr s n = Some p ->
  exists pre post, s = pre ++ p /\ p = n ++ post /\
    forall pre' post', s = pre' ++ n ++ post' -> String.length pre <= String.length pre'.
Proof.
  revert p. induction s as [|x s IH]; intros p; cbn [strstr].
  - destruct (prefix n "") eqn:Hp; [|discriminate].
    intros [= <-]. apply prefix_spec in Hp as [t Ht].
    exists "", t. simpl. repeat split; auto. intros. lia.
  - destruct (prefix n (String x s)) eqn:Hp.
    + intros [= <-]. apply prefix_spec in Hp as [t Ht].
      exists "", t. simpl. repeat split; auto. intros. lia.
    + intros H. destruct (IH p H) as (pre & post & Hs & Hpp & Hmin).
      exists (String x pre), post. simpl. rewrite <- Hs. repeat split; auto.
      intros pre' post' Heq. destruct pre' as [|y pre'].
      * simpl in Heq. assert (prefix n (String x s) = true) as Hc
          by (apply prefix_spec; exists post'; exact Heq).
        congruence.
      * simpl in Heq. injection Heq as _ Heq. simpl.
        specialize (Hmin pre' post' Heq). lia.
Qed.

Lemma strstr_none (s n : string) : strstr s n = None -> ~ occurs n s.
Proof.
  induction s as [|x s IH]; cbn [strstr].
  - destruct (prefix n "") eqn:Hp; [discriminate|]. intros _ (pre & post & H).
    destruct pre; [|discriminate]. simpl in H.
    assert (prefix n "" = true) by (apply prefix_spec; exists post; exact H).
    congruence.
  - destruct (prefix n (String x s)) eqn:Hp; [discriminate|].
    intros H (pre & post & Heq). destruct pre as [|y pre].
    + simpl in Heq.
      assert (prefix n (String x s) = true) by (apply prefix_spec; exists post; exact Heq).
      congruence.
    + simpl in Heq. injection Heq as _ Heq. apply (IH H). exists pre, post. exact Heq.
Qed.

(** [strstr] finds the first occurrence. *)
Lemma strstr_firstAt (n pre post s : string) :
  firstAt n pre post s -> strstr s n = Some (n ++ post).
Proof.
  intros [Hs Hmin]. destruct (strstr s n) as [p|] eqn:Hst.
  - destruct (strstr_some _ _ _ Hst) as (pre2 & post2 & Hs2 & Hp & Hmin2).
    assert (String.length pre = String.length pre2) as Hl.
    { apply Nat.le_antisymm.
      - apply (Hmin pre2 post2). rewrite Hs2, Hp. reflexivity.
      - apply (Hmin2 pre post). exact Hs. }
    rewrite Hs in Hs2. destruct (append_split _ _ _ _ Hs2 Hl) as [_ <-]. reflexivity.
  - exfalso. apply (strstr_none _ _ Hst). exists pre, post. exact Hs.
Qed.

Lemma firstAt_of_strstr (s n p : string) :
  strstr s n = Some p -> exists pre post, p = n ++ post /\ firstAt n pre post s.
Proof.
  intros H. destruct (strstr_some _ _ _ H) as (pre & post & Hs & Hp & Hmin).
  exists pre, post. split; [exact Hp|]. split; [rewrite Hs, Hp; reflexivity | exact Hmin].
Qed.

Lemma strchr_none (s : string) (c : ascii) : strchr s c = None <-> countChar c s = 0.
Proof.
  induction s as [|x s IH]; simpl; [tauto|].
  destruct (Ascii.eqb x c); simpl; [split; discriminate | exact IH].
Qed.

Lemma strchr_append (g t : string) (c : ascii) :
  countChar c g = 0 -> strchr (g ++ String c t) c = Some (String c t).
Proof.
  induction g as [|x g IH]; simpl.
  - rewrite Ascii.eqb_refl. reflexivity.
  - destruct (Ascii.eqb x c); simpl; [discriminate | exact IH].
Qed.

Lemma strchr_some (s p : string) (c : ascii) :
  strchr s c = Some p ->
  exists g t, s = g ++ String c t /\ p = String c t /\ countChar c g = 0.
Proof.
  revert p. induction s as [|x s IH]; simpl; intros p; [discriminate|].
  destruct (Ascii.eqb x c) eqn:Hx.
  - intros [= <-]. apply Ascii.eqb_eq in Hx as ->. exists "", s. auto.
  - intros H. destruct (IH p H) as (g & t & -> & -> & Hg).
    exists (String x g), t. simpl. rewrite Hx. auto.
Qed.

Lemma countChar_append (c : ascii) (a b : string) :
  countChar c (a ++ b) = countChar c a + countChar c b.
Proof. induction a as [|x a IH]; simpl; [reflexivity | rewrite IH; lia]. Qed.

Lemma ptr_add_append (a b : string) : ptr_add (a ++ b) (String.length a) = b.
Proof. induction a as [|x a IH]; simpl; [reflexivity | exact IH]. Qed.

Lemma strncpy_append (a b : string) : strncpy (a ++ b) (String.length a) = a.
Proof. induction a as [|x a IH]; simpl; [reflexivity | rewrite IH; reflexivity]. Qed.

(** Copying at most 15 characters of the label keeps its first 15. *)
Lemma strncpy_substring (a b : string) (n : nat) :
  n <= String.length a -> strncpy (a ++ b) n = substring 0 n a.
Proof.
  revert a. induction n as [|n IH]; intros a Hn.
  - destruct a; reflexivity.
  - destruct a as [|x a]; simpl in *; [lia|]. rewrite IH by lia. reflexivity.
Qed.

Lemma substring_all (a : string) (n : nat) :
  String.length a <= n -> substring 0 n a = a.
Proof.
  revert n. induction a as [|x a IH]; intros [|n] Hn; simpl in *; try reflexivity; try lia.
  rewrite IH by lia. reflexivity.
Qed.

Lemma countChar_split (c : ascii) (s : string) :
  1 <= countChar c s ->
  exists g t, s = g ++ String c t /\ countChar c g = 0.
Proof.
  intros H. destruct (strchr s c) as [p|] eqn:Hp.
  - destruct (strchr_some _ _ _ Hp) as (g & t & Hs & _ & Hg). exists g, t. auto.
  - apply strchr_none in Hp. lia.
Qed.

(** ** [parseResponse] *)

Section Parser.
Variable atof : string -> F32.float.

Lemma parseResponse_noDetection (buffer outClass : string) (outConf : F32.float) :
  noDetectionShape buffer ->
  parseResponse atof buffer outClass outConf = (false, outClass, outConf).
Proof.
  unfold parseResponse.
  intros [-> | [H | [H | [H | (pre & tail & Hfirst & Hcount)]]]].
  - reflexivity.
  - rewrite H. destruct (String.eqb buffer ""); reflexivity.
  - rewrite H. destruct (String.eqb buffer ""); [reflexivity|].
    destruct (starts_with "NONE" buffer); reflexivity.
  - destruct (String.eqb buffer ""); [reflexivity|].
    destruct (starts_with "NONE" buffer); [reflexivity|].
    destruct (starts_with "ERR:" buffer); [reflexivity|].
    destruct (strstr buffer "OK") as [p|] eqn:Hp; [|reflexivity].
    exfalso. apply H. destruct (strstr_some _ _ _ Hp) as (pre & post & Hs & Hpp & _).
    exists pre, post. rewrite Hs, Hpp. reflexivity.
  - destruct (String.eqb buffer ""); [reflexivity|].
    destruct (starts_with "NONE" buffer); [reflexivity|].
    destruct (starts_with "ERR:" buffer); [reflexivity|].
    rewrite (strstr_firstAt _ _ _ _ Hfirst).
    change (ptr_add ("OK" ++ tail) 2) with tail.
    destruct (strchr tail colon) as [colonPtr|] eqn:Hc1; [|reflexivity].
    destruct (strchr_some _ _ _ Hc1) as (g & t & Htail & -> & Hg).
    change (ptr_add (String colon t) 1) with t.
    assert (countChar colon t = 0) as Ht.
    { rewrite Htail, countChar_append in Hcount. cbn [countChar] in Hcount.
      rewrite Ascii.eqb_refl in Hcount. lia. }
    apply strchr_none in Ht. rewrite Ht. reflexivity.
Qed.

Lemma parseResponse_ok (buffer pre garbage lbl rest outClass : string)
      (outConf : F32.float) :
  okShape buffer pre garbage lbl rest ->
  parseResponse atof buffer outClass outConf
  = (F32.ge (atof rest) MIN_CONFIDENCE, substring 0 15 lbl, atof rest).
Proof.
  intros (Hnone & Herr & Hfirst & Hg & Hl).
  unfold parseResponse. rewrite Hnone, Herr.
  assert (String.eqb buffer "" = false) as ->.
  { apply String.eqb_neq. destruct Hfirst as [-> _]. destruct pre; discriminate. }
  rewrite (strstr_firstAt _ _ _ _ Hfirst).
  change (ptr_add ("OK" ++ ?t) 2) with t.
  change (garbage ++ ":" ++ lbl ++ ":" ++ rest)
    with (garbage ++ String colon (lbl ++ String colon rest)).
  rewrite (strchr_append _ _ _ Hg).
  change (ptr_add (String colon ?t) 1) with t.
  rewrite (strchr_append _ _ _ Hl).
  change (ptr_add (String colon rest) 1) with rest.
  assert (String.length (lbl ++ String colon rest)
          - String.length (String colon rest) = String.length lbl) as ->.
  { rewrite length_append. lia. }
  destruct (15 <? String.length lbl) eqn:Hlen.
  - apply Nat.ltb_lt in Hlen. rewrite strncpy_substring by lia. reflexivity.
  - apply Nat.ltb_ge in Hlen. rewrite strncpy_append, substring_all by lia. reflexivity.
Qed.

Lemma shapes_cover (buffer : string) :
  noDetectionShape buffer \/
  exists pre garbage lbl rest, okShape buffer pre garbage lbl rest.
Proof.
  destruct (starts_with "NONE" buffer) eqn:Hnone; [left; right; left; exact Hnone|].
  destruct (starts_with "ERR:" buffer) eqn:Herr;
    [left; right; right; left; exact Herr|].
  destruct (strstr buffer "OK") as [p|] eqn:Hp.
  - destruct (firstAt_of_strstr _ _ _ Hp) as (pre & tail & _ & Hfirst).
    destruct (Nat.lt_ge_cases (countChar colon tail) 2) as [Hlt|Hge].
    + left. do 4 right. exists pre, tail. auto.
    + right.
      destruct (countChar_split colon tail) as (g & t & Htail & Hg); [lia|].
      destruct (countChar_split colon t) as (lbl & rest & Ht & Hl).
      { rewrite Htail, countChar_append, Hg in Hge. cbn [countChar] in Hge.
        rewrite Ascii.eqb_refl in Hge. lia. }
      exists pre, g, lbl, rest. unfold okShape.
      repeat split; auto; subst; apply Hfirst.
  - left. do 3 right. left. apply strstr_none, Hp.
Qed.

(** C4.  [parseResponse] returns a flag and the two outputs for every
    buffer.  On a buffer that is empty, starts with [NONE] or [ERR:],
    holds no [OK], or has fewer than two colons after its first [OK], the
    flag is false and the outputs are untouched.  Every other buffer
    splits, at its first [OK], into text without a colon, a colon, a label
    without a colon, a second colon and a remainder; then the class is the
    first 15 characters of the label, the confidence is [atof] of the
    remainder, and the flag says whether that confidence is at least
    [MIN_CONFIDENCE], the binary32 value of 0.65. *)
Theorem parseResponse_shapes (buffer outClass : string) (outConf : F32.float) :
  (noDetectionShape buffer \/
   exists pre garbage lbl rest, okShape buffer pre garbage lbl rest) /\
  (noDetectionShape buffer ->
   parseResponse atof buffer outClass outConf = (false, outClass, outConf)) /\
  (forall pre garbage lbl rest,
     okShape buffer pre garbage lbl rest ->
     parseResponse atof buffer outClass outConf
     = (F32.ge (atof rest) MIN_CONFIDENCE, substring 0 15 lbl, atof rest) /\
     String.length (substring 0 15 lbl) <= 15) /\
  MIN_CONFIDENCE = F32.lit 65 2.
Proof.
  split; [apply shapes_cover|].
  split; [apply parseResponse_noDetection|].
  split; [|reflexivity].
  intros pre garbage lbl rest H. split; [apply parseResponse_ok with (1 := H)|].
  clear H. generalize 15. induction lbl as [|x lbl IH]; intros [|n]; simpl; try lia.
  specialize (IH n). lia.
Qed.

End Parser.

(** The reply of the scenario after the read loop: two stray characters,
    then [OK:GLASS3:0.91]. *)
Lemma parseResponse_shapes_witness :
  okShape "xxOK:GLASS3:0.91" "xx" "" "GLASS3" "0.91" /\
  parseResponse Libc.atof "xxOK:GLASS3:0.91" "" F32.zero
  = (F32.ge (Libc.atof "0.91") MIN_CONFIDENCE, substring 0 15 "GLASS3", Libc.atof "0.91").
Proof.
  assert (Hshape : okShape "xxOK:GLASS3:0.91" "xx" "" "GLASS3" "0.91").
  { split; [reflexivity|]. split; [reflexivity|]. split; [|split; reflexivity].
    split; [reflexivity|].
    intros [|a [|b pre']] post' Heq; simpl in *; try lia; discriminate Heq. }
  split; [exact Hshape|].
  exact (proj1 (proj1 (proj2 (proj2
           (parseResponse_shapes Libc.atof "xxOK:GLASS3:0.91" "" F32.zero)))
           "xx" "" "GLASS3" "0.91" Hshape)).
Defined.

(** The reply of the scenario, stray bytes first: it is read up to the
    line end and yields a vote for [GLASS3] with confidence 0.91. *)
Example parse_noisy_glass :
  let buffer := readLine (list_ascii_of_string ("xxOK:GLASS3:0.91" ++ String "013" "")) 0 in
  buffer = "xxOK:GLASS3:0.91" /\
  parseResponse Libc.atof buffer "" F32.zero = (true, "GLASS3", F32.lit 91 2).
Proof. vm_compute. split; reflexivity. Qed.

Example parse_low_confidence :
  parseResponse Libc.atof "OK:CAN3:0.50" "" F32.zero = (false, "CAN3", F32.lit 50 2).
Proof. vm_compute. reflexivity. Qed.

Example parse_none :
  parseResponse Libc.atof "NONE" "" F32.zero = (false, "", F32.zero).
Proof. reflexivity. Qed.

End ParserProofs.

(* ================================================================== *)
(** * Properties of the state machine *)
(* ================================================================== *)

Module MachineProofs.
Import Sorter SorterSpec.

Section Machine.
Variable atof : string -> F32.float.

Local Abbreviation step i g := (fst (runStateMachine atof i g)).

(** ** Repeated non-detections *)

(** What a call in [STATE_WAIT] does under the scenario [unseen]. *)
Lemma wait_unseen_step (i : Input) (g : Globals) :
  state g = STATE_WAIT ->
  now i <= deadline g -> present i = true -> nonDetection atof i ->
  step i g =
  match replyOf atof i with
  | None => g
  | Some _ =>
      let g1 := set_consecutiveNones (u8 (consecutiveNones g + 1)) g in
      if repositionAttempts g <? MAX_REPOSITIONS
      then set_state STATE_REPOSITION g1
      else set_state STATE_DECIDE (zeroVotes g1)
  end.
Proof.
  intros Hs Hnow Hpres Hnd.
  unfold runStateMachine, nonDetection, replyOf in *. rewrite Hs.
  apply Z.ltb_ge in Hnow. rewrite Hnow.
  destruct (rx i) as [cs|]; [|reflexivity].
  destruct (String.eqb (readLine cs 0) ""); [reflexivity|].
  destruct (parseResponse atof (readLine cs 0) "" F32.zero) as [[ok cls] conf].
  subst ok. rewrite Hpres. cbn [repositionAttempts set_consecutiveNones giveUp].
  destruct (0 <? repositionAttempts g);
    destruct (repositionAttempts g <? MAX_REPOSITIONS); reflexivity.
Qed.

Lemma phase_step (i : Input) (g : Globals) :
  phaseOK g -> state g <> STATE_DECIDE -> state g <> STATE_ERROR ->
  unseen atof (g, i) ->
  phaseOK (step i g) /\
  repliesSoFar (step i g) = repliesSoFar g + b2z (isReply atof (g, i)) /\
  requestsSoFar (step i g) = requestsSoFar g + b2z (isRequest (g, i)).
Proof.
  intros [Hz Hph] Hnd Hne Hun. unfold unseen in Hun. cbn [fst snd] in Hun.
  unfold repliesSoFar, requestsSoFar, isReply, isRequest, phaseOK. cbn [fst snd].
  destruct (state g) eqn:Hs; try contradiction; try congruence.
  - (* REQUEST *)
    unfold runStateMachine. rewrite Hs. cbn.
    repeat split; try apply Hz; lia.
  - (* WAIT *)
    destruct (deadline g <? now i) eqn:Hlate.
    + (* the deadline has passed *)
      unfold runStateMachine. rewrite Hs, Hlate. cbn.
      destruct (replyOf atof i); cbn; repeat split; try apply Hz; lia.
    + apply Z.ltb_ge in Hlate.
      destruct (Hun eq_refl Hlate) as (Hpres & Hrep).
      rewrite (wait_unseen_step i g Hs Hlate Hpres Hrep).
      destruct (replyOf atof i) as [r|].
      * cbn zeta. unfold MAX_REPOSITIONS in *.
        destruct (repositionAttempts g <? 2) eqn:Hlt.
        -- apply Z.ltb_lt in Hlt. cbn. repeat split; try apply Hz; lia.
        -- apply Z.ltb_ge in Hlt. cbn. repeat split; lia.
      * rewrite Hs. cbn. repeat split; try apply Hz; lia.
  - (* REPOSITION *)
    unfold runStateMachine. rewrite Hs. cbn. unfold MAX_REPOSITIONS, u8 in *.
    rewrite Z.mod_small by lia.
    repeat split; try apply Hz; lia.
Qed.

Lemma phase_run (ins : list Input) (g : Globals) :
  phaseOK g ->
  forall tr gf, execVoting atof ins g = (tr, gf) ->
  Forall (unseen atof) tr ->
  phaseOK gf /\
  Forall (fun c => repositionAttempts (fst c) <= MAX_REPOSITIONS) tr /\
  repliesSoFar gf = repliesSoFar g + Z.of_nat (List.length (filter (isReply atof) tr)) /\
  requestsSoFar gf = requestsSoFar g + Z.of_nat (List.length (filter isRequest tr)).
Proof.
  revert g. induction ins as [|i ins IH]; intros g Hph tr gf Hex Hun.
  - cbn in Hex. injection Hex as <- <-. cbn.
    split; [exact Hph|]. split; [constructor|]. split; lia.
  - cbn [execVoting] in Hex.
    assert (Hatt : repositionAttempts g <= MAX_REPOSITIONS).
    { destruct Hph as [_ Hph]. destruct (state g); try contradiction; lia. }
    destruct (state g) eqn:Hs;
      try (destruct Hph as [_ Hph]; rewrite Hs in Hph; contradiction);
      try (injection Hex as <- <-; cbn;
           split; [exact Hph|]; split; [constructor|]; split; lia);
      destruct (execVoting atof ins (step i g)) as [tr' gf'] eqn:Hex';
      injection Hex as <- <-;
      inversion Hun as [|c l Hc Hl]; subst;
      (destruct (phase_step i g Hph) as (Hph' & Hr & Hq);
         [congruence | congruence | exact Hc |]);
      destruct (IH _ Hph' _ _ Hex' Hl) as (Hgf & Hall & Hr' & Hq');
      (split; [exact Hgf|]);
      (split; [constructor; [exact Hatt | exact Hall]|]);
      cbn [filter];
      rewrite Hr', Hq', Hr, Hq;
      destruct (isReply atof (g, i)); destruct (isRequest (g, i));
      cbn [b2z List.length]; lia.
Qed.

(** [STATE_ERROR] is entered only from [STATE_WAIT] past the deadline. *)
Lemma step_to_error (i : Input) (g : Globals) :
  state g <> STATE_ERROR -> state (step i g) = STATE_ERROR ->
  state g = STATE_WAIT /\ deadline g < now i.
Proof.
  intros Hne. unfold runStateMachine.
  destruct (state g) eqn:Hs; try congruence.
  - destruct (present i); cbn; congruence.
  - destruct (present i); cbn; congruence.
  - cbn. congruence.
  - destruct (deadline g <? now i) eqn:Hlate;
      [intros _; split; [reflexivity | apply Z.ltb_lt, Hlate]|].
    destruct (rx i) as [cs|]; [|cbn; congruence].
    destruct (String.eqb (readLine cs 0) ""); [cbn; congruence|].
    destruct (parseResponse atof (readLine cs 0) "" F32.zero) as [[ok cls] conf].
    destruct ok.
    + destruct (hasMajority (recordVote cls conf g)
                || (MAX_VOTES <=? getTotalVotes (recordVote cls conf g)));
        cbn; congruence.
    + cbn [repositionAttempts set_consecutiveNones giveUp].
      destruct (0 <? repositionAttempts g);
        [| destruct (present i)];
        try destruct (repositionAttempts g <? MAX_REPOSITIONS);
        cbn; congruence.
  - cbn. congruence.
  - cbn. congruence.
  - cbn. congruence.
Qed.

Lemma error_after_timeout (ins : list Input) (g : Globals) :
  forall tr gf, execVoting atof ins g = (tr, gf) ->
  state g <> STATE_ERROR -> state gf = STATE_ERROR ->
  exists c, In c tr /\ state (fst c) = STATE_WAIT /\ deadline (fst c) < now (snd c).
Proof.
  revert g. induction ins as [|i ins IH]; intros g tr gf Hex Hne Hgf.
  - cbn in Hex. injection Hex as <- <-. congruence.
  - cbn [execVoting] in Hex.
    destruct (execVoting atof ins (step i g)) as [tr' gf'] eqn:Hex'.
    assert (Hcont : (tr, gf) = ((g, i) :: tr', gf') ->
                    exists c, In c tr /\ state (fst c) = STATE_WAIT
                              /\ deadline (fst c) < now (snd c)).
    { intros [= -> ->].
      destruct (state (step i g)) eqn:Hnext;
        try (destruct (IH _ _ _ Hex') as (c & Hc & Hw);
             [congruence | exact Hgf | exists c; split; [right; exact Hc | exact Hw]]).
      exists (g, i). split; [left; reflexivity|]. apply step_to_error; assumption. }
    destruct (state g) eqn:Hs; try (apply Hcont; symmetry; exact Hex);
      injection Hex as <- <-; congruence.
Qed.

(** C3.  Start where [STATE_DETECT] has just confirmed the object, and
    follow the calls of [loop] up to the first [STATE_DECIDE] or
    [STATE_ERROR], in any execution in which the object stays present and
    no reply that is read is a detection.  Then the reposition counter
    never exceeds [MAX_REPOSITIONS]; at most [MAX_REPOSITIONS + 1]
    requests are sent and replies received; [STATE_DECIDE] is reached
    exactly when the third reply has been received, and then the tally is
    all zero, hence the bin is 4.  (The only other way out is a missing
    reply, which leads to [STATE_ERROR].) *)
Theorem repositions_bounded (g : Globals) (i0 : Input) (ins : list Input) :
  state g = STATE_DETECT ->
  present i0 = true ->
  forall tr gf,
    execVoting atof ins (step i0 g) = (tr, gf) ->
    Forall (unseen atof) tr ->
    Forall (fun c => repositionAttempts (fst c) <= MAX_REPOSITIONS) tr /\
    repositionAttempts gf <= MAX_REPOSITIONS /\
    Z.of_nat (List.length (filter isRequest tr)) <= MAX_REPOSITIONS + 1 /\
    Z.of_nat (List.length (filter (isReply atof) tr)) <= MAX_REPOSITIONS + 1 /\
    (state gf = STATE_DECIDE <->
     Z.of_nat (List.length (filter (isReply atof) tr)) = MAX_REPOSITIONS + 1) /\
    (state gf = STATE_DECIDE ->
     tallyZero gf /\ calculateBin gf = 4 /\
     Z.of_nat (List.length (filter isRequest tr)) = MAX_REPOSITIONS + 1) /\
    (state gf = STATE_ERROR ->
     exists c, In c tr /\ state (fst c) = STATE_WAIT /\ deadline (fst c) < now (snd c)).
Proof.
  intros Hs Hp tr gf Hex Hun.
  assert (Hstart : step i0 g = set_state STATE_REQUEST (resetVotes g)).
  { unfold runStateMachine. rewrite Hs, Hp. reflexivity. }
  rewrite Hstart in Hex.
  assert (Hph : phaseOK (set_state STATE_REQUEST (resetVotes g))).
  { split; [repeat split|]. cbn. unfold MAX_REPOSITIONS. lia. }
  destruct (phase_run ins _ Hph tr gf Hex Hun) as ([Hz Hgf] & Hall & Hr & Hq).
  cbn in Hr, Hq. unfold repliesSoFar in Hr. unfold requestsSoFar in Hq.
  unfold MAX_REPOSITIONS in *.
  split; [exact Hall|].
  assert (Herr : state gf = STATE_ERROR ->
                 exists c, In c tr /\ state (fst c) = STATE_WAIT
                           /\ deadline (fst c) < now (snd c)).
  { apply (error_after_timeout ins _ tr gf Hex). cbn. discriminate. }
  destruct (state gf) eqn:Hsf; try contradiction;
    (split; [lia|]); (split; [lia|]); (split; [lia|]);
    (split; [split; [congruence || (intros; lia) | try congruence; intros; lia]|]);
    (split; [|exact Herr]);
    try congruence.
  intros _. split; [exact Hz|].
  split; [apply SorterProofs.tallyZero_calculateBin_4; exact Hz | lia].
Qed.

(** ** Votes while a cycle is open *)

Lemma votingOpen_step (i : Input) (g : Globals) :
  votingOpen g -> votingOpen (step i g).
Proof.
  unfold votingOpen, runStateMachine.
  destruct (state g) eqn:Hs; intros Hinv.
  - destruct (present i); cbn; [exact I | rewrite Hs; exact I].
  - destruct (present i); cbn; [split; [reflexivity | reflexivity] | exact I].
  - cbn. exact Hinv.
  - destruct (deadline g <? now i); [exact I|].
    destruct (rx i) as [cs|]; [|cbn; rewrite Hs; exact Hinv].
    destruct (String.eqb (readLine cs 0) ""); [cbn; rewrite Hs; exact Hinv|].
    destruct (parseResponse atof (readLine cs 0) "" F32.zero) as [[ok cls] conf].
    destruct ok.
    + destruct (hasMajority (recordVote cls conf g)
                || (MAX_VOTES <=? getTotalVotes (recordVote cls conf g))) eqn:Hd.
      * exact I.
      * apply orb_false_iff in Hd as [Hm Ht]. apply Z.leb_gt in Ht.
        cbn [fst state set_state]. split; [exact Hm | exact Ht].
    + cbn [repositionAttempts set_consecutiveNones giveUp].
      destruct (0 <? repositionAttempts g);
        [| destruct (present i)];
        try destruct (repositionAttempts g <? MAX_REPOSITIONS);
        cbn; try exact I; exact Hinv.
  - cbn. exact Hinv.
  - exact I.
  - exact I.
  - exact I.
Qed.

Lemma run_cons (i : Input) (ins : list Input) (g : Globals) :
  fst (run atof (i :: ins) g) = fst (run atof ins (step i g)).
Proof.
  cbn [run]. destruct (runStateMachine atof i g) as [g1 fx1]. cbn [fst].
  destruct (run atof ins g1) as [g2 fx2]. reflexivity.
Qed.

Lemma votingOpen_run (ins : list Input) (g : Globals) :
  votingOpen g -> votingOpen (fst (run atof ins g)).
Proof.
  revert g. induction ins as [|i ins IH]; intros g Hinv; [exact Hinv|].
  rewrite run_cons. apply IH, votingOpen_step, Hinv.
Qed.

Lemma votingOpen_reachable (g : Globals) : reachable atof g -> votingOpen g.
Proof.
  intros [ins <-]. apply votingOpen_run. exact I.
Qed.

Lemma recordVote_unknown (className : string) (confidence : F32.float) (g : Globals) :
  className <> "CAN3"%string -> className <> "GLASS3"%string ->
  className <> "BOTTLE3"%string ->
  recordVote className confidence g = set_consecutiveNones 0 g.
Proof.
  intros H1 H2 H3. unfold recordVote.
  apply String.eqb_neq in H1, H2, H3. rewrite H1, H2, H3. reflexivity.
Qed.

(** C10.  For a class name other than [CAN3], [GLASS3] and [BOTTLE3],
    [recordVote] only resets [consecutiveNones]: the counts and the
    accumulated confidences, hence the majority test and the total, stay
    as they were.  So when the machine, in a state it can reach, receives
    in time an accepted reply with such a name, it shows the unchanged
    votes and goes back to [STATE_REQUEST]. *)
Theorem unknown_label_vote (className : string) (confidence : F32.float) :
  className <> "CAN3"%string -> className <> "GLASS3"%string ->
  className <> "BOTTLE3"%string ->
  (forall g,
     recordVote className confidence g = set_consecutiveNones 0 g /\
     sameTally g (recordVote className confidence g) /\
     consecutiveNones (recordVote className confidence g) = 0 /\
     hasMajority (recordVote className confidence g) = hasMajority g /\
     getTotalVotes (recordVote className confidence g) = getTotalVotes g) /\
  (forall g i,
     reachable atof g -> state g = STATE_WAIT -> now i <= deadline g ->
     replyOf atof i = Some (true, className, confidence) ->
     runStateMachine atof i g
     = (set_state STATE_REQUEST (set_consecutiveNones 0 g),
        [Delay 50] ++ showVotes g ++ [Delay 500])).
Proof.
  intros H1 H2 H3. split.
  - intros g. rewrite (recordVote_unknown _ _ _ H1 H2 H3). repeat split.
  - intros g i Hreach Hs Hnow Hrep.
    pose proof (votingOpen_reachable g Hreach) as Hopen.
    unfold votingOpen in Hopen. rewrite Hs in Hopen. destruct Hopen as [Hm Ht].
    unfold runStateMachine, replyOf in *. rewrite Hs.
    apply Z.ltb_ge in Hnow. rewrite Hnow.
    destruct (rx i) as [cs|]; [|discriminate].
    destruct (String.eqb (readLine cs 0) ""); [discriminate|].
    injection Hrep as ->.
    rewrite (recordVote_unknown _ _ _ H1 H2 H3).
    change (hasMajority (set_consecutiveNones 0 g)) with (hasMajority g).
    change (getTotalVotes (set_consecutiveNones 0 g)) with (getTotalVotes g).
    apply Z.leb_gt in Ht. rewrite Hm, Ht. reflexivity.
Qed.

(** ** The tally of the running sketch *)

(** An accepted reply carries a confidence of at least [MIN_CONFIDENCE]. *)
Lemma parseResponse_accepts (buffer outClass className : string)
      (outConf confidence : F32.float) :
  parseResponse atof buffer outClass outConf = (true, className, confidence) ->
  F32.ge confidence MIN_CONFIDENCE = true.
Proof.
  unfold parseResponse.
  destruct (String.eqb buffer ""); [discriminate|].
  destruct (starts_with "NONE" buffer); [discriminate|].
  destruct (starts_with "ERR:" buffer); [discriminate|].
  destruct (strstr buffer "OK") as [okPtr|]; [|discriminate].
  destruct (strchr (ptr_add okPtr 2) colon) as [colonPtr|]; [|discriminate].
  destruct (strchr (ptr_add colonPtr 1) colon) as [secondColonPtr|]; [|discriminate].
  cbv zeta. intros [= Hok _ <-]. exact Hok.
Qed.

Lemma classOK_vote (votes : Z) (conf confidence : F32.float) :
  classOK votes conf -> (MAJORITY_VOTES <=? votes) = false ->
  F32.ge confidence MIN_CONFIDENCE = true ->
  classOK (u8 (votes + 1)) (F32.add conf confidence).
Proof.
  unfold classOK, MAJORITY_VOTES. intros Hc Hm Hge. apply Z.leb_gt in Hm.
  destruct Hc as [[-> ->] | [[-> _] | ->]]; [| | lia].
  - right. left. split; [reflexivity|].
    rewrite FloatOrder.add_zero_l; [exact Hge|].
    exact (FloatOrder.ge_gt_gt confidence MIN_CONFIDENCE F32.zero Hge eq_refl).
  - right. right. reflexivity.
Qed.

Lemma tallyOK_recordVote (className : string) (confidence : F32.float) (g : Globals) :
  tallyOK g -> hasMajority g = false ->
  F32.ge confidence MIN_CONFIDENCE = true ->
  tallyOK (recordVote className confidence g).
Proof.
  unfold tallyOK, hasMajority. intros (Hc & Hg & Hb) Hm Hge.
  apply orb_false_iff in Hm as [Hm Hm3]. apply orb_false_iff in Hm as [Hm1 Hm2].
  unfold recordVote.
  destruct (String.eqb className "CAN3");
    [| destruct (String.eqb className "GLASS3");
       [| destruct (String.eqb className "BOTTLE3")]];
    cbn [set_consecutiveNones votesCan votesGlass votesBottle
         confCan confGlass confBottle];
    repeat split; auto using classOK_vote.
Qed.

Lemma tallyOK_zero (g : Globals) : tallyZero g -> tallyOK g.
Proof.
  unfold tallyZero, tallyOK, classOK.
  intros (-> & -> & -> & -> & -> & ->). auto 10.
Qed.

Lemma tallyOK_step (i : Input) (g : Globals) :
  votingOpen g -> tallyOK g -> tallyOK (step i g).
Proof.
  intros Hopen Hok. unfold runStateMachine.
  destruct (state g) eqn:Hs.
  - destruct (present i); exact Hok.
  - destruct (present i); [|exact Hok].
    apply tallyOK_zero. unfold tallyZero. cbn. auto 10.
  - exact Hok.
  - destruct (deadline g <? now i); [exact Hok|].
    destruct (rx i) as [cs|]; [|exact Hok].
    destruct (String.eqb (readLine cs 0) ""); [exact Hok|].
    destruct (parseResponse atof (readLine cs 0) "" F32.zero) as [[ok cls] conf] eqn:Hp.
    destruct ok.
    + assert (Hvote : tallyOK (recordVote cls conf g)).
      { apply tallyOK_recordVote; [exact Hok | | exact (parseResponse_accepts _ _ _ _ _ Hp)].
        unfold votingOpen in Hopen. rewrite Hs in Hopen. exact (proj1 Hopen). }
      destruct (hasMajority (recordVote cls conf g)
                || (MAX_VOTES <=? getTotalVotes (recordVote cls conf g)));
        exact Hvote.
    + cbn [repositionAttempts set_consecutiveNones giveUp].
      destruct (0 <? repositionAttempts g);
        [| destruct (present i)];
        try destruct (repositionAttempts g <? MAX_REPOSITIONS);
        try exact Hok;
        apply tallyOK_zero; unfold tallyZero; cbn; auto 10.
  - exact Hok.
  - exact Hok.
  - exact Hok.
  - apply tallyOK_zero. unfold tallyZero. cbn. auto 10.
Qed.

Lemma tallyOK_run (ins : list Input) (g : Globals) :
  votingOpen g -> tallyOK g -> tallyOK (fst (run atof ins g)).
Proof.
  revert g. induction ins as [|i ins IH]; intros g Hopen Hok; [exact Hok|].
  rewrite run_cons. apply IH; [apply votingOpen_step, Hopen | apply tallyOK_step; assumption].
Qed.

Lemma tallyOK_reachable (g : Globals) : reachable atof g -> tallyOK g.
Proof.
  intros [ins <-]. apply tallyOK_run; [exact I|].
  apply tallyOK_zero. unfold tallyZero. cbn. auto 10.
Qed.

Lemma hand_set_tallies_unreachable :
  ~ reachable atof Scenario.belowFloor /\ ~ reachable atof Scenario.nanSum.
Proof.
  split; intros Hreach; destruct (tallyOK_reachable _ Hreach) as (Hc & _);
    unfold classOK in Hc; cbn in Hc;
    destruct Hc as [[H _] | [[_ H] | H]]; discriminate H.
Qed.

(** Without a majority a class holds no vote and no confidence, or one
    vote and a confidence of at least [MIN_CONFIDENCE]. *)
Lemma classOK_open (votes : Z) (conf : F32.float) :
  classOK votes conf -> (MAJORITY_VOTES <=? votes) = false ->
  (votes = 0 /\ conf = F32.zero) \/ F32.ge conf MIN_CONFIDENCE = true.
Proof.
  unfold classOK. intros [H0 | [[_ H1] | ->]] Hm; [left; exact H0 | right; exact H1|].
  rewrite Z.leb_refl in Hm. discriminate.
Qed.

(** C2.  In every state that the sketch reaches, if no class has the
    majority and some vote is recorded, [calculateBin] returns a class
    [b] of CAN, GLASS, BOTTLE whose accumulated confidence is at least
    that of every class and strictly greater than that of every class
    earlier in that order: the class with the greatest sum, the earliest
    one among equal sums.  In particular a class whose sum is strictly
    the greatest is the one returned.  (The sums the sketch accumulates
    are never below the floor 0.01 of the last test, and never NaN.) *)
Theorem calculateBin_greatest_confidence (g : Globals) :
  reachable atof g ->
  hasMajority g = false ->
  getTotalVotes g <> 0 ->
  (exists b,
     1 <= b <= 3 /\ calculateBin g = b /\
     (forall c, 1 <= c <= 3 -> F32.ge (confOf g b) (confOf g c) = true) /\
     (forall c, 1 <= c < b -> F32.gt (confOf g b) (confOf g c) = true)) /\
  (forall b, 1 <= b <= 3 ->
     (forall c, 1 <= c <= 3 -> c <> b -> F32.gt (confOf g b) (confOf g c) = true) ->
     calculateBin g = b).
Proof.
  intros Hreach Hmaj Htot.
  destruct (tallyOK_reachable g Hreach) as (Hc & Hg & Hb).
  pose proof Hmaj as Hm. unfold hasMajority in Hm.
  apply orb_false_iff in Hm as [Hm Hm3]. apply orb_false_iff in Hm as [Hm1 Hm2].
  pose proof (classOK_open _ _ Hc Hm1) as Oc.
  pose proof (classOK_open _ _ Hg Hm2) as Og.
  pose proof (classOK_open _ _ Hb Hm3) as Ob.
  assert (Hnan : forall v s, (v = 0 /\ s = F32.zero) \/ F32.ge s MIN_CONFIDENCE = true ->
                             F32.is_nan s = false).
  { intros v s [[_ ->] | Hge]; [reflexivity | exact (FloatOrder.ge_not_nan _ _ Hge)]. }
  destruct (SorterProofs.calculateBin_order g Hmaj Htot
              (Hnan _ _ Oc) (Hnan _ _ Og) (Hnan _ _ Ob))
    as (b & Hb13 & Hall & Hearlier & Hbin).
  (* some class holds an accepted confidence *)
  assert (Hsome : exists c, 1 <= c <= 3 /\ F32.ge (confOf g c) MIN_CONFIDENCE = true).
  { destruct Oc as [[Vc _] | Oc]; [|exists 1; split; [lia | exact Oc]].
    destruct Og as [[Vg _] | Og]; [|exists 2; split; [lia | exact Og]].
    destruct Ob as [[Vb _] | Ob]; [|exists 3; split; [lia | exact Ob]].
    exfalso. apply Htot. unfold getTotalVotes. rewrite Vc, Vg, Vb. reflexivity. }
  destruct Hsome as (c0 & Hc0 & Hge0).
  assert (Hfloor : F32.lt (confOf g b) CONF_FLOOR = false).
  { apply (FloatOrder.ge_gt_not_lt _ MIN_CONFIDENCE); [|reflexivity].
    exact (FloatOrder.ge_trans _ _ _ (Hall c0 Hc0) Hge0). }
  rewrite Hfloor in Hbin.
  split.
  - exists b. auto.
  - intros b' Hb' Hstrict. rewrite Hbin.
    destruct (Z.eq_dec b b') as [E | Hne]; [exact E|]. exfalso.
    pose proof (Hall b' Hb') as Hge.
    rewrite (FloatOrder.gt_not_ge _ _ (Hstrict b Hb13 Hne)) in Hge. discriminate.
Qed.

End Machine.

Ltac unseen_steps :=
  repeat (constructor;
          [ let H := fresh in
            intros H; first
              [ discriminate H
              | repeat split; vm_compute; first [reflexivity | discriminate] ] | ]).

(** Three non-detections in a row: from the confirmed detection nine
    calls lead to [STATE_DECIDE], the third reply being the last. *)
Lemma repositions_bounded_witness :
  let ex := execVoting Libc.atof Scenario.threeNones
              (fst (runStateMachine Libc.atof Scenario.objectSeen Scenario.detecting)) in
  state Scenario.detecting = STATE_DETECT /\ present Scenario.objectSeen = true /\
  Forall (unseen Libc.atof) (fst ex) /\
  state (snd ex) = STATE_DECIDE /\
  Z.of_nat (List.length (filter (isReply Libc.atof) (fst ex))) = MAX_REPOSITIONS + 1.
Proof.
  cbv zeta.
  pose (ex := execVoting Libc.atof Scenario.threeNones
                (fst (runStateMachine Libc.atof Scenario.objectSeen Scenario.detecting))).
  fold ex.
  assert (Hun : Forall (unseen Libc.atof) (fst ex)).
  { let v := eval vm_compute in (fst ex) in
    replace (fst ex) with v by (vm_compute; reflexivity).
    unseen_steps. constructor. }
  assert (Hdec : state (snd ex) = STATE_DECIDE) by (vm_compute; reflexivity).
  split; [reflexivity|]. split; [reflexivity|]. split; [exact Hun|].
  split; [exact Hdec|].
  exact (proj1 (proj1 (proj2 (proj2 (proj2 (proj2
    (repositions_bounded Libc.atof Scenario.detecting Scenario.objectSeen
       Scenario.threeNones eq_refl eq_refl (fst ex) (snd ex)
       (surjective_pairing ex) Hun)))))) Hdec).
Defined.

(** An accepted reply that names a class the sorter does not know. *)
Lemma unknown_label_vote_witness :
  let g := fst (run Libc.atof Scenario.firstRequest initial) in
  state g = STATE_WAIT /\
  replyOf Libc.atof Scenario.paperReply = Some (true, "PAPER"%string, F32.lit 91 2) /\
  runStateMachine Libc.atof Scenario.paperReply g
  = (set_state STATE_REQUEST (set_consecutiveNones 0 g),
     [Delay 50] ++ showVotes g ++ [Delay 500]).
Proof.
  cbv zeta. split; [vm_compute; reflexivity|]. split; [vm_compute; reflexivity|].
  apply (proj2 (unknown_label_vote Libc.atof "PAPER" (F32.lit 91 2)
                  ltac:(discriminate) ltac:(discriminate) ltac:(discriminate))).
  - exists Scenario.firstRequest. reflexivity.
  - vm_compute. reflexivity.
  - vm_compute. discriminate.
  - vm_compute. reflexivity.
Defined.

(** One vote for a can at 0.70 and one for glass at 0.90: no majority,
    glass has the greatest sum and is returned. *)
Lemma calculateBin_greatest_confidence_witness :
  let g := fst (run Libc.atof Scenario.canThenGlass initial) in
  votesCan g = 1 /\ votesGlass g = 1 /\ votesBottle g = 0 /\
  hasMajority g = false /\ calculateBin g = 2.
Proof.
  cbv zeta.
  split; [vm_compute; reflexivity|]. split; [vm_compute; reflexivity|].
  split; [vm_compute; reflexivity|]. split; [vm_compute; reflexivity|].
  apply (proj2 (calculateBin_greatest_confidence Libc.atof
                  (fst (run Libc.atof Scenario.canThenGlass initial))
                  ltac:(exists Scenario.canThenGlass; reflexivity)
                  ltac:(vm_compute; reflexivity)
                  ltac:(vm_compute; discriminate)) 2 ltac:(lia)).
  intros c Hc Hne.
  assert (Hcase : c = 1 \/ c = 3) by lia.
  destruct Hcase as [-> | ->]; vm_compute; reflexivity.
Defined.

End MachineProofs.

(* ================================================================== *)
(** * Properties of the detection filter *)
(* ================================================================== *)

Module VisionProofs.
Import Vision VisionSpec.
Local Open Scope nat_scope.

(** ** Arrays and loops *)

Lemma length_put (i : nat) (v : BoundingBox) (l : list BoundingBox) :
  List.length (put i v l) = List.length l.
Proof.
  revert i. induction l as [|a l IH]; intros [|i]; simpl; auto.
Qed.

Lemma get_put_same (i : nat) (v : BoundingBox) (l : list BoundingBox) :
  i < List.length l -> get (put i v l) i = v.
Proof.
  unfold get. revert i. induction l as [|a l IH]; intros [|i] Hi; simpl in *;
    try lia; auto. apply IH. lia.
Qed.

Lemma get_put_other (i j : nat) (v : BoundingBox) (l : list BoundingBox) :
  i <> j -> get (put i v l) j = get l j.
Proof.
  unfold get. revert i j. induction l as [|a l IH]; intros [|i] [|j] Hij; simpl;
    try reflexivity; try lia. apply IH. lia.
Qed.

Lemma length_suppress (i : nat) (l : list BoundingBox) :
  List.length (suppress i l) = List.length l.
Proof. apply length_put. Qed.

Lemma for_range_ind {St : Type} (P : St -> Prop) (body : nat -> St -> St)
      (from n : nat) (s : St) :
  P s ->
  (forall k s', from <= k < from + n -> P s' -> P (body k s')) ->
  P (for_range from n body s).
Proof.
  unfold for_range. revert from s. induction n as [|n IH]; intros from s Hs Hbody.
  - exact Hs.
  - cbn [seq fold_left]. apply IH.
    + apply Hbody; [lia | exact Hs].
    + intros k s' Hk. apply Hbody. lia.
Qed.

(** An invariant that counts the iterations done. *)
Lemma for_range_count {St : Type} (P : nat -> St -> Prop) (body : nat -> St -> St)
      (n : nat) (s : St) :
  P 0 s ->
  (forall k s', k < n -> P k s' -> P (S k) (body k s')) ->
  P n (for_range 0 n body s).
Proof.
  intros H0 Hstep.
  enough (Hgen : forall m from s', from + m = n -> P from s' ->
                   P n (fold_left (fun s k => body k s) (seq from m) s')).
  { apply (Hgen n 0 s); [lia | exact H0]. }
  induction m as [|m IH]; intros from s' Hm Hs'.
  - cbn. replace n with from by lia. exact Hs'.
  - cbn [seq fold_left]. apply IH; [lia|]. apply Hstep; [lia | exact Hs'].
Qed.

(** ** Growth *)

Lemma grows_refl (b : BoundingBox) : grows b b.
Proof. left. reflexivity. Qed.

Lemma set_suppressed_id (b : BoundingBox) :
  set_suppressed (suppressed b) b = b.
Proof. destruct b. reflexivity. Qed.

Lemma grows_suppress (b : BoundingBox) : grows b (set_suppressed true b).
Proof.
  destruct (suppressed b) eqn:Hs.
  - left. rewrite <- Hs. apply set_suppressed_id.
  - right. auto.
Qed.

Lemma grows_trans (a b c : BoundingBox) : grows a b -> grows b c -> grows a c.
Proof.
  intros [-> | [Ha ->]] [-> | [Hb ->]]; try (left; reflexivity);
    right; (split; [assumption | reflexivity]).
Qed.

Lemma inPlace_refl (l : list BoundingBox) : inPlace l l.
Proof. induction l; constructor; auto using grows_refl. Qed.

Lemma inPlace_trans (l1 l2 l3 : list BoundingBox) :
  inPlace l1 l2 -> inPlace l2 l3 -> inPlace l1 l3.
Proof.
  intros H12. revert l3. induction H12 as [|a b l1 l2 Hab _ IH]; intros l3 H23.
  - inversion H23. constructor.
  - inversion H23 as [|b' c l2' l3' Hbc Hrest]; subst.
    constructor; [eapply grows_trans; eassumption | apply IH; assumption].
Qed.

Lemma inPlace_length (l1 l2 : list BoundingBox) :
  inPlace l1 l2 -> List.length l1 = List.length l2.
Proof. induction 1; simpl; congruence. Qed.

Lemma inPlace_put (i : nat) (v : BoundingBox) (l : list BoundingBox) :
  grows (get l i) v -> inPlace l (put i v l).
Proof.
  unfold get. revert i. induction l as [|a l IH]; intros [|i] Hv; simpl in *.
  - constructor.
  - constructor.
  - constructor; [exact Hv | apply inPlace_refl].
  - constructor; [apply grows_refl | apply IH; exact Hv].
Qed.

Lemma inPlace_suppress (i : nat) (l : list BoundingBox) : inPlace l (suppress i l).
Proof. apply inPlace_put, grows_suppress. Qed.

Lemma inPlace_get (l1 l2 : list BoundingBox) (i : nat) :
  inPlace l1 l2 -> grows (get l1 i) (get l2 i).
Proof.
  unfold get. intros H12. revert i.
  induction H12 as [|a b l1 l2 Hab _ IH]; intros [|i]; simpl;
    auto using grows_refl.
Qed.

Lemma stageRel_of_inPlace (l1 l2 : list BoundingBox) : inPlace l1 l2 -> stageRel l1 l2.
Proof. intros H12. exists l1. split; [apply Permutation_refl | exact H12]. Qed.

Lemma stageRel_trans (l1 l2 l3 : list BoundingBox) :
  stageRel l1 l2 -> stageRel l2 l3 -> stageRel l1 l3.
Proof.
  intros (p & Hp & Hg) (q & Hq & Hh).
  (* carry the permutation [l2 ~ q] back along the growth [p -> l2] *)
  assert (Hback : exists p', Permutation p p' /\ Forall2 grows p' q).
  { clear Hh Hp. revert p Hg. induction Hq; intros p0 Hg.
    - inversion Hg; subst. exists []. split; constructor.
    - inversion Hg as [|a b p1 l2' Hab Hrest]; subst.
      destruct (IHHq _ Hrest) as (p' & Hpp & Hgg).
      exists (a :: p'). split; [constructor; exact Hpp | constructor; assumption].
    - inversion Hg as [|a b p1 l2' Hab Hrest]; subst.
      inversion Hrest as [|a2 b2 p2 l2'' Hab2 Hrest2]; subst.
      exists (a2 :: a :: p2). split; [apply perm_swap|].
      constructor; [assumption|]. constructor; assumption.
    - destruct (IHHq1 _ Hg) as (p1 & Hp1 & Hg1).
      destruct (IHHq2 _ Hg1) as (p2 & Hp2 & Hg2).
      exists p2. split; [eapply Permutation_trans; eassumption | exact Hg2]. }
  destruct Hback as (p' & Hpp' & Hgq).
  exists p'. split.
  - eapply Permutation_trans; eassumption.
  - exact (inPlace_trans _ _ _ Hgq Hh).
Qed.

(** ** The stages only suppress *)

Section Stages.
Variables W H : Z.

Lemma filterInvalidBody_inPlace (i : nat) (l : list BoundingBox) :
  inPlace l (filterInvalidBody W H i l).
Proof.
  unfold filterInvalidBody.
  repeat match goal with
         | |- context [if ?c then _ else _] => destruct c
         end; auto using inPlace_refl, inPlace_suppress.
Qed.

Lemma filterInvalid_inPlace (boxes : list BoundingBox) :
  inPlace boxes (filterInvalid W H boxes).
Proof.
  unfold filterInvalid. apply for_range_ind; [apply inPlace_refl|].
  intros k s _ Hs. eapply inPlace_trans; [exact Hs | apply filterInvalidBody_inPlace].
Qed.

End Stages.

Lemma removeContainedInner_inPlace (i j : nat) (l : list BoundingBox) :
  inPlace l (removeContainedInner i j l).
Proof.
  unfold removeContainedInner.
  repeat match goal with
         | |- context [if ?c then _ else _] => destruct c
         end; auto using inPlace_refl, inPlace_suppress.
Qed.

Lemma removeContained_inPlace (boxes : list BoundingBox) :
  inPlace boxes (removeContained boxes).
Proof.
  unfold removeContained. apply for_range_ind; [apply inPlace_refl|].
  intros i s _ Hs. eapply inPlace_trans; [exact Hs|].
  unfold removeContainedOuter. destruct (suppressed (get s i)); [apply inPlace_refl|].
  apply for_range_ind; [apply inPlace_refl|].
  intros j s' _ Hs'. eapply inPlace_trans; [exact Hs' | apply removeContainedInner_inPlace].
Qed.

Lemma nmsInner_inPlace (i j : nat) (l : list BoundingBox) :
  inPlace l (nmsInner i j l).
Proof.
  unfold nmsInner.
  repeat match goal with
         | |- context [if ?c then _ else _] => destruct c
         end; auto using inPlace_refl, inPlace_suppress.
Qed.

Lemma nmsOuter_inPlace (count i : nat) (l : list BoundingBox) :
  inPlace l (nmsOuter count i l).
Proof.
  unfold nmsOuter. destruct (suppressed (get l i)); [apply inPlace_refl|].
  apply for_range_ind; [apply inPlace_refl|].
  intros j s' _ Hs'. eapply inPlace_trans; [exact Hs' | apply nmsInner_inPlace].
Qed.

Lemma nmsScan_inPlace (count : nat) (l : list BoundingBox) :
  inPlace l (for_range 0 count (nmsOuter count) l).
Proof.
  apply for_range_ind; [apply inPlace_refl|].
  intros i s _ Hs. eapply inPlace_trans; [exact Hs | apply nmsOuter_inPlace].
Qed.

Lemma keepBestInner_inPlace (i : nat) (js : list nat) (l : list BoundingBox) :
  inPlace l (keepBestInner i js l).
Proof.
  revert l. induction js as [|j js IH]; intros l; cbn [keepBestInner].
  - apply inPlace_refl.
  - destruct (suppressed (get l j)); [apply IH|].
    destruct (negb (sameClass (get l i) (get l j))); [apply IH|].
    destruct (F32.ge (score (get l i)) (score (get l j))).
    + eapply inPlace_trans; [apply inPlace_suppress | apply IH].
    + apply inPlace_suppress.
Qed.

Lemma keepBestPerClass_inPlace (boxes : list BoundingBox) :
  inPlace boxes (keepBestPerClass boxes).
Proof.
  unfold keepBestPerClass. apply for_range_ind; [apply inPlace_refl|].
  intros i s _ Hs. eapply inPlace_trans; [exact Hs|].
  unfold keepBestOuter. destruct (suppressed (get s i)); [apply inPlace_refl|].
  apply keepBestInner_inPlace.
Qed.

(** ** The bubble sort *)

Lemma sortStep_0 (a b : BoundingBox) (l : list BoundingBox) :
  sortStep 0 (a :: b :: l)
  = if F32.lt (confidence a) (confidence b) then b :: a :: l else a :: b :: l.
Proof. reflexivity. Qed.

Lemma sortStep_S (j : nat) (a : BoundingBox) (l : list BoundingBox) :
  sortStep (S j) (a :: l) = a :: sortStep j l.
Proof.
  unfold sortStep. cbn [get nth Nat.add].
  change (nth j l emptyBox) with (get l j).
  change (nth (j + 1) l emptyBox) with (get l (j + 1)).
  destruct (F32.lt (confidence (get l j)) (confidence (get l (j + 1))));
    [|reflexivity].
  destruct l; reflexivity.
Qed.

Lemma sortStep_perm (j : nat) (l : list BoundingBox) :
  j + 1 < List.length l -> Permutation l (sortStep j l).
Proof.
  revert l. induction j as [|j IH]; intros l Hj.
  - destruct l as [|a [|b l]]; simpl in Hj; try lia.
    rewrite sortStep_0. destruct (F32.lt _ _); [apply perm_swap | apply Permutation_refl].
  - destruct l as [|a l]; simpl in Hj; try lia.
    rewrite sortStep_S. apply perm_skip, IH. lia.
Qed.

Lemma sortByConfidence_perm (boxes sorted : list BoundingBox) :
  sortByConfidence boxes = Some sorted -> Permutation boxes sorted.
Proof.
  unfold sortByConfidence. destruct (List.length boxes) as [|n] eqn:Hlen; [discriminate|].
  intros [= <-].
  apply (for_range_ind (fun s => Permutation boxes s)); [apply Permutation_refl|].
  intros i s Hi Hs.
  apply (for_range_ind (fun s' => Permutation boxes s')); [exact Hs|].
  intros j s' Hj Hs'. eapply Permutation_trans; [exact Hs'|].
  apply sortStep_perm. rewrite <- (Permutation_length Hs'), Hlen.
  destruct i; cbn in Hj; lia.
Qed.

Lemma sortByConfidence_some (boxes : list BoundingBox) :
  boxes <> [] -> exists sorted, sortByConfidence boxes = Some sorted.
Proof.
  intros Hne. unfold sortByConfidence.
  destruct boxes as [|a l]; [contradiction|]. cbn [List.length]. eauto.
Qed.

Lemma applyNMS_stageRel (boxes out : list BoundingBox) :
  applyNMS boxes = Some out -> stageRel boxes out.
Proof.
  unfold applyNMS. destruct (sortByConfidence boxes) as [sorted|] eqn:Hsort; [|discriminate].
  intros [= <-]. exists sorted.
  split; [apply sortByConfidence_perm, Hsort | apply nmsScan_inPlace].
Qed.

Lemma applyNMS_some (boxes : list BoundingBox) :
  boxes <> [] -> exists out, applyNMS boxes = Some out.
Proof.
  intros Hne. unfold applyNMS.
  destruct (sortByConfidence_some boxes Hne) as [sorted ->]. eauto.
Qed.

(** ** The bubble sort sorts *)

Lemma fold_sortStep_shift (k from : nat) (a : BoundingBox) (l : list BoundingBox) :
  fold_left (fun s j => sortStep j s) (seq (S from) k) (a :: l)
  = a :: fold_left (fun s j => sortStep j s) (seq from k) l.
Proof.
  revert from l. induction k as [|k IH]; intros from l; [reflexivity|].
  cbn [seq fold_left]. rewrite sortStep_S. apply IH.
Qed.

Lemma pass_0 (l : list BoundingBox) : pass 0 l = l.
Proof. reflexivity. Qed.

Lemma pass_S (k : nat) (a b : BoundingBox) (l : list BoundingBox) :
  pass (S k) (a :: b :: l)
  = if F32.lt (confidence a) (confidence b)
    then b :: pass k (a :: l) else a :: pass k (b :: l).
Proof.
  unfold pass, for_range. cbn [seq fold_left]. rewrite sortStep_0.
  destruct (F32.lt (confidence a) (confidence b)); apply fold_sortStep_shift.
Qed.

Lemma pass_app (k : nat) (p s : list BoundingBox) :
  k < List.length p -> pass k (p ++ s) = pass k p ++ s.
Proof.
  revert p. induction k as [|k IH]; intros p Hk; [reflexivity|].
  destruct p as [|a [|b p]]; simpl in Hk; try lia.
  cbn [app]. rewrite !pass_S.
  destruct (F32.lt (confidence a) (confidence b)).
  - change (a :: p ++ s) with ((a :: p) ++ s). rewrite IH by (simpl; lia). reflexivity.
  - change (b :: p ++ s) with ((b :: p) ++ s). rewrite IH by (simpl; lia). reflexivity.
Qed.

Lemma confGe_refl (a : BoundingBox) :
  F32.is_nan (confidence a) = false -> confGe a a.
Proof. apply FloatOrder.ge_refl. Qed.

Lemma confGe_trans (a b c : BoundingBox) : confGe a b -> confGe b c -> confGe a c.
Proof. apply FloatOrder.ge_trans. Qed.

Lemma noNaN_perm (l1 l2 : list BoundingBox) :
  Permutation l1 l2 -> noNaN l1 -> noNaN l2.
Proof. intros Hp. apply Permutation_Forall, Hp. Qed.

(** A full pass moves a box of least confidence to the end. *)
Lemma pass_least (k : nat) (l : list BoundingBox) :
  List.length l = S k -> noNaN l ->
  exists front least,
    pass k l = front ++ [least] /\
    Permutation l (front ++ [least]) /\
    Forall (fun b => confGe b least) (front ++ [least]).
Proof.
  revert l. induction k as [|k IH]; intros l Hlen Hnan.
  - destruct l as [|a [|b l]]; simpl in Hlen; try lia.
    exists [], a. cbn. repeat split; auto.
    constructor; [|constructor]. apply confGe_refl. inversion Hnan; assumption.
  - destruct l as [|a [|b l]]; simpl in Hlen; try lia.
    inversion Hnan as [|? ? Ha Hnan']; subst.
    inversion Hnan' as [|? ? Hb Hnan'']; subst.
    rewrite pass_S. destruct (F32.lt (confidence a) (confidence b)) eqn:Hlt.
    + destruct (IH (a :: l)) as (front & least & Hpass & Hperm & Hall);
        [simpl; lia | constructor; assumption |].
      exists (b :: front), least. rewrite Hpass. split; [reflexivity|]. split.
      * eapply Permutation_trans; [apply perm_swap|]. apply perm_skip, Hperm.
      * cbn [app]. constructor; [|exact Hall].
        apply (confGe_trans _ a).
        -- apply FloatOrder.gt_ge. exact Hlt.
        -- rewrite Forall_forall in Hall. apply Hall.
           apply (Permutation_in _ Hperm). left. reflexivity.
    + destruct (IH (b :: l)) as (front & least & Hpass & Hperm & Hall);
        [simpl; lia | constructor; assumption |].
      exists (a :: front), least. rewrite Hpass. split; [reflexivity|]. split.
      * apply perm_skip, Hperm.
      * cbn [app]. constructor; [|exact Hall].
        apply (confGe_trans _ b).
        -- apply FloatOrder.not_gt_ge; assumption.
        -- rewrite Forall_forall in Hall. apply Hall.
           apply (Permutation_in _ Hperm). left. reflexivity.
Qed.

Lemma sortedTail_step (boxes : list BoundingBox) (i : nat) (s : list BoundingBox) :
  noNaN boxes -> i + 1 < List.length boxes ->
  sortedTail boxes i s ->
  sortedTail boxes (S i) (pass (List.length boxes - i - 1) s).
Proof.
  intros Hnan Hi (Hperm & front & tail & -> & Hlen & Hsorted & Hcross).
  pose proof (Permutation_length Hperm) as Hn. rewrite length_app in Hn.
  assert (Hfront : List.length front = S (List.length boxes - i - 1)) by lia.
  assert (Hnf : noNaN front).
  { pose proof (noNaN_perm _ _ Hperm Hnan) as Hall.
    apply Forall_app in Hall. apply Hall. }
  destruct (pass_least _ front Hfront Hnf) as (front' & least & Hpass & Hp & Hall).
  rewrite pass_app by lia. rewrite Hpass.
  split.
  - eapply Permutation_trans; [exact Hperm|]. apply Permutation_app_tail, Hp.
  - exists front', (least :: tail). rewrite <- app_assoc. split; [reflexivity|].
    split; [simpl; lia|].
    assert (Hleast : In least front).
    { apply (Permutation_in _ (Permutation_sym Hp)), in_or_app. right. left. reflexivity. }
    split.
    + constructor; [exact Hsorted|]. apply Forall_forall. intros t Ht.
      apply Hcross; assumption.
    + intros p t Hpin [<- | Ht].
      * rewrite Forall_forall in Hall. apply Hall, in_or_app. left. exact Hpin.
      * apply Hcross; [|exact Ht].
        apply (Permutation_in _ (Permutation_sym Hp)), in_or_app. left. exact Hpin.
Qed.

Lemma sortByConfidence_sorted (boxes sorted : list BoundingBox) :
  sortByConfidence boxes = Some sorted -> noNaN boxes ->
  StronglySorted confGe sorted.
Proof.
  unfold sortByConfidence. destruct (List.length boxes) as [|n] eqn:Hlen; [discriminate|].
  intros [= <-] Hnan.
  assert (Hinv : sortedTail boxes (S n - 1)
                   (for_range 0 (S n - 1)
                      (fun i => for_range 0 (S n - i - 1) sortStep) boxes)).
  { apply (for_range_count (sortedTail boxes)).
    - split; [apply Permutation_refl|]. exists boxes, [].
      rewrite app_nil_r. repeat split; [constructor | intros ? ? _ []].
    - intros i s Hi Hs. rewrite <- Hlen. apply sortedTail_step; [exact Hnan | lia | exact Hs]. }
  destruct Hinv as (Hperm & front & tail & Heq & Hlt & Hsorted & Hcross).
  change (StronglySorted confGe
            (for_range 0 (S n - 1)
               (fun i => for_range 0 (S n - i - 1) sortStep) boxes)).
  rewrite Heq.
  pose proof (Permutation_length Hperm) as Hn. rewrite Heq, length_app, Hlen in Hn.
  destruct front as [|p [|p' front]]; simpl in Hn; try lia.
  cbn [app]. constructor; [exact Hsorted|].
  apply Forall_forall. intros t Ht. apply Hcross; [left; reflexivity | exact Ht].
Qed.

(** ** The scan of [applyNMS] *)

Lemma for_range_count_from {St : Type} (P : nat -> St -> Prop)
      (body : nat -> St -> St) (from n : nat) (s : St) :
  P from s ->
  (forall k s', from <= k < from + n -> P k s' -> P (S k) (body k s')) ->
  P (from + n) (for_range from n body s).
Proof.
  unfold for_range. revert from s. induction n as [|n IH]; intros from s H0 Hstep.
  - cbn. rewrite Nat.add_0_r. exact H0.
  - cbn [seq fold_left]. replace (from + S n) with (S from + n) by lia.
    apply IH; [apply Hstep; [lia | exact H0]|].
    intros k s' Hk. apply Hstep. lia.
Qed.

Lemma clash_set_suppressed (u v : bool) (a b : BoundingBox) :
  clash (set_suppressed u a) (set_suppressed v b) = clash a b.
Proof.
  destruct a, b.
  unfold clash, sameClass, tooClose, calculateIoU, distance, area, centerX, centerY.
  unfold set_suppressed. cbn [x y width height label]. reflexivity.
Qed.

Lemma grows_fields (a b : BoundingBox) :
  grows a b -> b = set_suppressed (suppressed b) a.
Proof.
  intros [-> | [_ ->]]; [symmetry; apply set_suppressed_id | reflexivity].
Qed.

Lemma clash_grows (a a' b b' : BoundingBox) :
  grows a a' -> grows b b' -> clash a' b' = clash a b.
Proof.
  intros Ha Hb. rewrite (grows_fields _ _ Ha), (grows_fields _ _ Hb).
  apply clash_set_suppressed.
Qed.

Lemma suppressed_nmsMark (a b : BoundingBox) :
  suppressed (nmsMark a b) = suppressed b || clash a b.
Proof.
  unfold nmsMark. destruct (suppressed b) eqn:Hb; cbn [negb andb orb].
  - exact Hb.
  - destruct (clash a b); [reflexivity | exact Hb].
Qed.

Lemma nmsInner_eq (i j : nat) (l : list BoundingBox) :
  nmsInner i j l
  = if negb (suppressed (get l j)) && clash (get l i) (get l j)
    then suppress j l else l.
Proof.
  unfold nmsInner, clash.
  destruct (suppressed (get l j)); [reflexivity|].
  destruct (sameClass (get l i) (get l j)); [|reflexivity].
  destruct (tooClose (get l i) (get l j)); reflexivity.
Qed.

Lemma nmsOuter_get (i : nat) (l : list BoundingBox) :
  i < List.length l ->
  List.length (nmsOuter (List.length l) i l) = List.length l /\
  forall q,
    get (nmsOuter (List.length l) i l) q
    = if negb (suppressed (get l i)) && (i <? q) && (q <? List.length l)
      then nmsMark (get l i) (get l q) else get l q.
Proof.
  intros Hi. unfold nmsOuter.
  destruct (suppressed (get l i)) eqn:Hsi; [split; reflexivity|].
  cbn [negb andb].
  set (n := List.length l).
  assert (Hinv : List.length (for_range (i + 1) (n - (i + 1)) (nmsInner i) l) = n /\
                 forall q,
                   get (for_range (i + 1) (n - (i + 1)) (nmsInner i) l) q
                   = if (i <? q) && (q <? (i + 1) + (n - (i + 1)))
                     then nmsMark (get l i) (get l q) else get l q).
  { apply (for_range_count_from
             (fun m r => List.length r = n /\
                         forall q, get r q = if (i <? q) && (q <? m)
                                             then nmsMark (get l i) (get l q)
                                             else get l q)).
    - split; [reflexivity|]. intros q.
      destruct (i <? q) eqn:H1; destruct (q <? i + 1) eqn:H2; try reflexivity.
      apply Nat.ltb_lt in H1, H2. lia.
    - intros m r Hm [Hlen Hget]. rewrite nmsInner_eq.
      assert (Hrm : get r m = get l m).
      { rewrite Hget. rewrite Nat.ltb_irrefl, andb_false_r. reflexivity. }
      assert (Hri : get r i = get l i).
      { rewrite Hget. rewrite Nat.ltb_irrefl. reflexivity. }
      rewrite Hrm, Hri.
      assert (Him : (i <? m) = true) by (apply Nat.ltb_lt; lia).
      split.
      + destruct (negb (suppressed (get l m)) && clash (get l i) (get l m));
          [rewrite length_suppress|]; exact Hlen.
      + intros q. destruct (Nat.eq_dec m q) as [<-|Hne].
        * rewrite Him. assert ((m <? S m) = true) as -> by (apply Nat.ltb_lt; lia).
          cbn [andb]. unfold nmsMark.
          destruct (negb (suppressed (get l m)) && clash (get l i) (get l m)).
          -- unfold suppress. rewrite get_put_same by lia. rewrite Hrm. reflexivity.
          -- exact Hrm.
        * assert ((q <? S m) = (q <? m)) as ->.
          { destruct (q <? m) eqn:H1.
            - apply Nat.ltb_lt in H1. apply Nat.ltb_lt. lia.
            - apply Nat.ltb_ge in H1. apply Nat.ltb_ge. lia. }
          rewrite <- Hget.
          destruct (negb (suppressed (get l m)) && clash (get l i) (get l m));
            [|reflexivity].
          unfold suppress. apply get_put_other, Hne. }
  destruct Hinv as [Hlen Hget]. split; [exact Hlen|].
  intros q. rewrite Hget. replace (i + 1 + (n - (i + 1))) with n by lia. reflexivity.
Qed.

Lemma existsb_agree {A : Type} (f g : A -> bool) (l : list A) :
  (forall a, In a l -> f a = g a) -> existsb f l = existsb g l.
Proof.
  induction l as [|a l IH]; intros Hfg; [reflexivity|].
  cbn. rewrite (Hfg a) by (left; reflexivity).
  rewrite IH; [reflexivity|]. intros b Hb. apply Hfg. right. exact Hb.
Qed.

(** The flag of each box after the scan: it was set before, or an
    earlier box that is left unsuppressed clashes with it. *)
Lemma nmsScan_flags (s : list BoundingBox) :
  let out := for_range 0 (List.length s) (nmsOuter (List.length s)) s in
  inPlace s out /\
  forall q, q < List.length s ->
    suppressed (get out q)
    = suppressed (get s q)
      || existsb (fun p => negb (suppressed (get out p)) && clash (get s p) (get s q))
                 (seq 0 q).
Proof.
  cbv zeta. set (n := List.length s).
  assert (Hinv :
    inPlace s (for_range 0 n (nmsOuter n) s) /\
    forall q, q < n ->
      suppressed (get (for_range 0 n (nmsOuter n) s) q)
      = suppressed (get s q)
        || existsb (fun p => negb (suppressed (get (for_range 0 n (nmsOuter n) s) p))
                             && clash (get s p) (get s q))
                   (seq 0 (Nat.min n q))).
  { apply (for_range_count
             (fun i r =>
                inPlace s r /\
                forall q, q < n ->
                  suppressed (get r q)
                  = suppressed (get s q)
                    || existsb (fun p => negb (suppressed (get r p))
                                         && clash (get s p) (get s q))
                               (seq 0 (Nat.min i q)))).
    - split; [apply inPlace_refl|]. intros q _. cbn. rewrite orb_false_r. reflexivity.
    - intros i r Hi [Hin Hflags].
      assert (Hlen : List.length r = n) by (symmetry; apply inPlace_length, Hin).
      split; [eapply inPlace_trans; [exact Hin | apply nmsOuter_inPlace]|].
      destruct (nmsOuter_get i r) as [_ Hget]; [lia|]. rewrite Hlen in Hget.
      assert (Hkeep : forall p, p <= i -> get (nmsOuter n i r) p = get r p).
      { intros p Hp. rewrite Hget.
        assert ((i <? p) = false) as -> by (apply Nat.ltb_ge; lia).
        rewrite andb_false_r. reflexivity. }
      intros q Hq. destruct (Nat.le_gt_cases q i) as [Hle|Hgt].
      + rewrite Hkeep by exact Hle. rewrite (Hflags q Hq).
        rewrite !Nat.min_r by lia. f_equal. apply existsb_agree.
        intros p Hp. apply in_seq in Hp. rewrite Hkeep by lia. reflexivity.
      + rewrite Nat.min_l by lia. rewrite seq_S, existsb_app. cbn [existsb Nat.add].
        rewrite orb_false_r. rewrite (Hkeep i) by lia.
        rewrite (existsb_agree
                   (fun p => negb (suppressed (get (nmsOuter n i r) p))
                             && clash (get s p) (get s q))
                   (fun p => negb (suppressed (get r p)) && clash (get s p) (get s q)))
          by (intros p Hp; apply in_seq in Hp; rewrite Hkeep by lia; reflexivity).
        rewrite Hget.
        assert ((i <? q) = true) as -> by (apply Nat.ltb_lt; lia).
        assert ((q <? n) = true) as -> by (apply Nat.ltb_lt; lia).
        rewrite !andb_true_r.
        pose proof (Hflags q Hq) as Hq'. rewrite Nat.min_l in Hq' by lia.
        destruct (suppressed (get r i)) eqn:Hsi; cbn [negb andb].
        * rewrite orb_false_r. exact Hq'.
        * rewrite suppressed_nmsMark, Hq'.
          rewrite (clash_grows _ _ _ _ (inPlace_get _ _ i Hin) (inPlace_get _ _ q Hin)).
          rewrite orb_assoc. reflexivity. }
  destruct Hinv as [Hin Hflags]. split; [exact Hin|].
  intros q Hq. rewrite (Hflags q Hq). rewrite Nat.min_r by lia. reflexivity.
Qed.

(** ** Survivors *)

Lemma grows_survivor (a b : BoundingBox) :
  grows a b -> suppressed b = false -> b = a.
Proof. intros [-> | [_ ->]] Hb; [reflexivity | simpl in Hb; discriminate]. Qed.

Lemma inPlace_survivors_le (l1 l2 : list BoundingBox) :
  inPlace l1 l2 -> List.length (survivors l2) <= List.length (survivors l1).
Proof.
  unfold survivors. induction 1 as [|a b l1 l2 Hab _ IH]; simpl; [lia|].
  destruct Hab as [-> | [Ha ->]].
  - destruct (negb (suppressed a)); simpl; lia.
  - rewrite Ha. simpl. lia.
Qed.

Lemma survivors_perm (l1 l2 : list BoundingBox) :
  Permutation l1 l2 -> List.length (survivors l1) = List.length (survivors l2).
Proof.
  unfold survivors. induction 1; simpl;
    repeat match goal with
           | |- context [negb (suppressed ?b)] => destruct (negb (suppressed b))
           end; simpl; congruence.
Qed.

Lemma stageRel_survivors_le (l1 l2 : list BoundingBox) :
  stageRel l1 l2 -> List.length (survivors l2) <= List.length (survivors l1).
Proof.
  intros (p & Hp & Hg). rewrite (survivors_perm _ _ Hp).
  apply inPlace_survivors_le, Hg.
Qed.

(** A survivor of a stage was a survivor, the same box, before it. *)
Lemma stageRel_survivor (l1 l2 : list BoundingBox) (b : BoundingBox) :
  stageRel l1 l2 -> In b l2 -> suppressed b = false -> In b l1.
Proof.
  intros (p & Hp & Hg) Hin Hb.
  apply (Permutation_in b (Permutation_sym Hp)).
  clear Hp. induction Hg as [|a c p l2 Hac _ IH]; [contradiction|].
  destruct Hin as [<- | Hin].
  - left. symmetry. apply grows_survivor; assumption.
  - right. apply IH, Hin.
Qed.

Section Pipeline.
Variables W H : Z.

Lemma applyFilters_some (boxes : list BoundingBox) :
  boxes <> [] -> exists out, applyFilters W H boxes = Some out.
Proof.
  intros Hne. unfold applyFilters.
  destruct (applyNMS_some (removeContained (filterInvalid W H boxes))) as [out ->]; [|eauto].
  intros Hnil. apply Hne.
  pose proof (inPlace_length _ _ (filterInvalid_inPlace W H boxes)) as H1.
  pose proof (inPlace_length _ _ (removeContained_inPlace (filterInvalid W H boxes))) as H2.
  rewrite Hnil in H2. simpl in H2. destruct boxes; [reflexivity | simpl in *; lia].
Qed.

Lemma applyFilters_stageRel (boxes out : list BoundingBox) :
  applyFilters W H boxes = Some out -> stageRel boxes out.
Proof.
  unfold applyFilters.
  destruct (applyNMS (removeContained (filterInvalid W H boxes))) as [nms|] eqn:Hnms;
    [|discriminate].
  intros [= <-].
  eapply stageRel_trans; [apply stageRel_of_inPlace, filterInvalid_inPlace|].
  eapply stageRel_trans; [apply stageRel_of_inPlace, removeContained_inPlace|].
  eapply stageRel_trans; [apply applyNMS_stageRel, Hnms|].
  apply stageRel_of_inPlace, keepBestPerClass_inPlace.
Qed.

(** C9.  Each of [filterInvalid], [removeContained] and
    [keepBestPerClass] leaves every box at its place and either unchanged
    or with its flag turned from false to true; [applyNMS], on a
    non-empty array, does the same to a permutation of its input.  So
    does the whole filter block of [runInference], and the number of
    unsuppressed boxes never grows. *)
Theorem suppression_only_grows (boxes : list BoundingBox) :
  inPlace boxes (filterInvalid W H boxes) /\
  inPlace boxes (removeContained boxes) /\
  (boxes <> [] ->
   exists out, applyNMS boxes = Some out /\ stageRel boxes out) /\
  inPlace boxes (keepBestPerClass boxes) /\
  (boxes <> [] ->
   exists out, applyFilters W H boxes = Some out /\ stageRel boxes out /\
               List.length out = List.length boxes /\
               List.length (survivors out) <= List.length (survivors boxes)) /\
  (forall input output,
     stageRel input output ->
     forall b, In b output -> suppressed b = false -> In b input).
Proof.
  split; [apply filterInvalid_inPlace|].
  split; [apply removeContained_inPlace|].
  split.
  { intros Hne. destruct (applyNMS_some boxes Hne) as [out Hout].
    exists out. split; [exact Hout | apply applyNMS_stageRel, Hout]. }
  split; [apply keepBestPerClass_inPlace|].
  split.
  { intros Hne. destruct (applyFilters_some boxes Hne) as [out Hout].
    pose proof (applyFilters_stageRel _ _ Hout) as Hrel.
    exists out. split; [exact Hout|]. split; [exact Hrel|].
    split; [|apply stageRel_survivors_le, Hrel].
    destruct Hrel as (p & Hp & Hg).
    rewrite <- (inPlace_length _ _ Hg). symmetry. apply Permutation_length, Hp. }
  intros input output Hrel b. apply stageRel_survivor, Hrel.
Qed.

(** ** What survives [filterInvalid] *)

Lemma filterInvalidBody_other (i q : nat) (l : list BoundingBox) :
  i <> q -> get (filterInvalidBody W H i l) q = get l q.
Proof.
  intros Hiq. unfold filterInvalidBody, suppress.
  repeat match goal with
         | |- context [if ?c then _ else _] => destruct c
         end; auto using get_put_other.
Qed.

Lemma filterInvalidBody_at (i : nat) (l : list BoundingBox) :
  i < List.length l ->
  suppressed (get (filterInvalidBody W H i l) i) = false ->
  plausible W H (get (filterInvalidBody W H i l) i) = true.
Proof.
  intros Hi. unfold filterInvalidBody, suppress, plausible.
  destruct (suppressed (get l i)) eqn:Hs; [congruence|].
  destruct (isValid (get l i)) eqn:Hv; cbn [negb];
    [|rewrite get_put_same by exact Hi; cbn; discriminate].
  destruct ((W <? Vision.u32 (x (get l i) + width (get l i)))%Z
            || (H <? Vision.u32 (y (get l i) + height (get l i)))%Z) eqn:Hf;
    [rewrite get_put_same by exact Hi; cbn; discriminate|].
  cbv zeta.
  destruct (F32.gt (F32.div (F32.of_Z (width (get l i))) (F32.of_Z (height (get l i))))
                   ASPECT_MAX
            || F32.lt (F32.div (F32.of_Z (width (get l i))) (F32.of_Z (height (get l i))))
                      ASPECT_MIN) eqn:Ha;
    [rewrite get_put_same by exact Hi; cbn; discriminate|].
  intros _. rewrite Hv, Hf, Ha. reflexivity.
Qed.

Lemma In_get (l : list BoundingBox) (b : BoundingBox) :
  In b l -> exists q, q < List.length l /\ get l q = b.
Proof. intros Hin. destruct (In_nth l b emptyBox Hin) as (q & Hq & Hb). eauto. Qed.

Lemma filterInvalid_survivor (boxes : list BoundingBox) (b : BoundingBox) :
  In b (filterInvalid W H boxes) -> suppressed b = false -> plausible W H b = true.
Proof.
  intros Hin Hb.
  assert (Hinv : inPlace boxes (filterInvalid W H boxes) /\
                 forall q, q < List.length boxes ->
                           suppressed (get (filterInvalid W H boxes) q) = false ->
                           plausible W H (get (filterInvalid W H boxes) q) = true).
  { unfold filterInvalid.
    apply (for_range_count
             (fun k s => inPlace boxes s /\
                         forall q, q < k -> suppressed (get s q) = false ->
                                   plausible W H (get s q) = true)).
    - split; [apply inPlace_refl | intros; lia].
    - intros k s Hk [Hs Hq]. split.
      + eapply inPlace_trans; [exact Hs | apply filterInvalidBody_inPlace].
      + intros q Hlt. destruct (Nat.eq_dec k q) as [<-|Hne].
        * apply filterInvalidBody_at. rewrite <- (inPlace_length _ _ Hs). exact Hk.
        * rewrite filterInvalidBody_other by exact Hne. apply Hq. lia. }
  destruct Hinv as [Hlen Hq].
  destruct (In_get _ _ Hin) as (q & Hlt & <-).
  apply Hq; [|exact Hb]. rewrite (inPlace_length _ _ Hlen). exact Hlt.
Qed.

Lemma applyFilters_single (b : BoundingBox) :
  suppressed b = false -> plausible W H b = true ->
  applyFilters W H [b] = Some [b].
Proof.
  intros Hs Hp. unfold plausible in Hp.
  apply andb_true_iff in Hp as [Hp Ha]. apply andb_true_iff in Hp as [Hv Hf].
  apply negb_true_iff in Ha, Hf. cbv zeta in Ha.
  assert (Hfi : filterInvalid W H [b] = [b]).
  { unfold filterInvalid, for_range. cbn [List.length seq fold_left].
    unfold filterInvalidBody. cbn [get nth]. rewrite Hs, Hv. cbn [negb].
    rewrite Hf. cbv zeta. rewrite Ha. reflexivity. }
  assert (Hrc : removeContained [b] = [b]).
  { unfold removeContained, for_range. cbn [List.length seq fold_left].
    unfold removeContainedOuter, for_range. cbn [get nth seq fold_left].
    rewrite Hs. reflexivity. }
  assert (Hnms : applyNMS [b] = Some [b]).
  { unfold applyNMS, sortByConfidence, for_range.
    cbn [List.length Nat.sub seq fold_left].
    unfold nmsOuter, for_range. cbn [get nth Nat.add Nat.sub seq fold_left].
    rewrite Hs. reflexivity. }
  assert (Hkb : keepBestPerClass [b] = [b]).
  { unfold keepBestPerClass, for_range. cbn [List.length seq fold_left].
    unfold keepBestOuter. cbn [get nth Nat.add Nat.sub seq keepBestInner].
    rewrite Hs. reflexivity. }
  unfold applyFilters. rewrite Hfi, Hrc, Hnms, Hkb. reflexivity.
Qed.

(** C7.  A box that the four stages leave unsuppressed is left as it is
    when the four stages are run again on the array that holds only that
    box; [runInference] then reports it. *)
Theorem filters_idempotent_on_survivor (boxes out : list BoundingBox)
        (b : BoundingBox) :
  applyFilters W H boxes = Some out ->
  In b out -> suppressed b = false ->
  applyFilters W H [b] = Some [b] /\
  survivors [b] = [b] /\
  runInference W H [b] = Some (Some b).
Proof.
  intros Hout Hin Hb.
  assert (Hp : plausible W H b = true).
  { unfold applyFilters in Hout.
    destruct (applyNMS (removeContained (filterInvalid W H boxes))) as [nms|] eqn:Hnms;
      [|discriminate].
    injection Hout as <-.
    apply (filterInvalid_survivor boxes); [|exact Hb].
    apply (stageRel_survivor _ _ b
             (stageRel_of_inPlace _ _ (removeContained_inPlace _))); [|exact Hb].
    apply (stageRel_survivor _ _ b (applyNMS_stageRel _ _ Hnms)); [|exact Hb].
    apply (stageRel_survivor _ _ b
             (stageRel_of_inPlace _ _ (keepBestPerClass_inPlace _))); [|exact Hb].
    exact Hin. }
  pose proof (applyFilters_single b Hb Hp) as Hsingle.
  split; [exact Hsingle|]. split.
  - unfold survivors. cbn. rewrite Hb. reflexivity.
  - unfold runInference. cbn [map].
    rewrite <- Hb at 1. rewrite set_suppressed_id, Hsingle.
    cbn. rewrite Hb. reflexivity.
Qed.

(** ** Three overlapping boxes of one class *)

Lemma filterInvalidBody_keep (i : nat) (l : list BoundingBox) :
  suppressed (get l i) = false -> plausible W H (get l i) = true ->
  filterInvalidBody W H i l = l.
Proof.
  intros Hs Hp. unfold plausible in Hp.
  apply andb_true_iff in Hp as [Hp Ha]. apply andb_true_iff in Hp as [Hv Hf].
  apply negb_true_iff in Ha, Hf. cbv zeta in Ha.
  unfold filterInvalidBody. rewrite Hs, Hv. cbn [negb]. rewrite Hf. cbv zeta.
  rewrite Ha. reflexivity.
Qed.

End Pipeline.

Lemma grows_confidence (a b : BoundingBox) : grows a b -> confidence b = confidence a.
Proof. intros [-> | [_ ->]]; reflexivity. Qed.

(** [removeContained] never suppresses a box whose confidence no other
    box exceeds. *)
Lemma removeContained_keeps_top (l : list BoundingBox) (q : nat) :
  (forall p, F32.gt (confidence (get l p)) (confidence (get l q)) = false) ->
  get (removeContained l) q = get l q.
Proof.
  intros Htop.
  enough (Hinv : inPlace l (removeContained l) /\ get (removeContained l) q = get l q)
    by apply Hinv.
  unfold removeContained.
  apply (for_range_ind (fun s => inPlace l s /\ get s q = get l q));
    [split; [apply inPlace_refl | reflexivity]|].
  intros i s _ Hs. unfold removeContainedOuter.
  destruct (suppressed (get s i)); [exact Hs|].
  apply (for_range_ind (fun s' => inPlace l s' /\ get s' q = get l q)); [exact Hs|].
  intros j s' _ [Hin Hq]. split.
  - eapply inPlace_trans; [exact Hin | apply removeContainedInner_inPlace].
  - unfold removeContainedInner.
    destruct ((i =? j) || suppressed (get s' j)); [exact Hq|].
    destruct (Nat.eq_dec j q) as [->|Hne].
    + rewrite Hq, (grows_confidence _ _ (inPlace_get _ _ i Hin)), Htop, andb_false_r.
      exact Hq.
    + destruct (containedIn (get s' j) (get s' i)
                && F32.gt (confidence (get s' i)) (confidence (get s' j)));
        [|exact Hq].
      unfold suppress. rewrite get_put_other by exact Hne. exact Hq.
Qed.

Lemma sortByConfidence_3 (a b c : BoundingBox) :
  sortByConfidence [a; b; c] = Some (pass 1 (pass 2 [a; b; c])).
Proof. reflexivity. Qed.

Lemma sameClass_sym (a b : BoundingBox) : sameClass a b = sameClass b a.
Proof. apply String.eqb_sym. Qed.

Lemma calculateIoU_sym (a b : BoundingBox) : calculateIoU a b = calculateIoU b a.
Proof.
  unfold calculateIoU.
  rewrite (Z.max_comm (x a)), (Z.max_comm (y a)).
  rewrite (Z.min_comm (Vision.u32 (x a + width a))).
  rewrite (Z.min_comm (Vision.u32 (y a + height a))).
  rewrite (Z.add_comm (area a)). reflexivity.
Qed.

Lemma overlapping_clash (a b : BoundingBox) :
  sameClass a b = true -> overlapping a b -> clash a b = true.
Proof.
  unfold clash, tooClose, overlapping. intros -> ->. reflexivity.
Qed.

Lemma inPlace_3 (a b c : BoundingBox) (l : list BoundingBox) :
  inPlace [a; b; c] l ->
  exists a' b' c', l = [a'; b'; c'] /\ grows a a' /\ grows b b' /\ grows c c'.
Proof.
  intros Hl.
  inversion Hl as [|? a' ? l1 Ha H1]; subst.
  inversion H1 as [|? b' ? l2 Hb H2]; subst.
  inversion H2 as [|? c' ? l3 Hc H3]; subst.
  inversion H3; subst. eauto 8.
Qed.

Lemma grows_suppressed (a b : BoundingBox) :
  grows a b -> suppressed b = true -> b = set_suppressed true a.
Proof. intros Hg Hb. rewrite (grows_fields _ _ Hg), Hb. reflexivity. Qed.

Section Scenario.
Variables W H : Z.

Lemma three_overlapping (b1 b2 b3 : BoundingBox) :
  suppressed b1 = false -> suppressed b2 = false -> suppressed b3 = false ->
  plausible W H b1 = true -> plausible W H b2 = true -> plausible W H b3 = true ->
  sameClass b1 b3 = true -> sameClass b2 b3 = true ->
  confidence b1 = F32.lit 9 1 -> confidence b2 = F32.lit 8 1 ->
  confidence b3 = F32.lit 95 2 ->
  overlapping b1 b3 -> overlapping b2 b3 ->
  applyFilters W H [b1; b2; b3]
  = Some [b3; set_suppressed true b1; set_suppressed true b2].
Proof.
  intros Hs1 Hs2 Hs3 Hp1 Hp2 Hp3 Hc13 Hc23 Hf1 Hf2 Hf3 Ho13 Ho23.
  (* stage 1 *)
  assert (Hfi : filterInvalid W H [b1; b2; b3] = [b1; b2; b3]).
  { unfold filterInvalid, for_range. cbn [List.length seq fold_left].
    rewrite (filterInvalidBody_keep W H 0); [|exact Hs1|exact Hp1].
    rewrite (filterInvalidBody_keep W H 1); [|exact Hs2|exact Hp2].
    apply (filterInvalidBody_keep W H 2); [exact Hs3|exact Hp3]. }
  (* stage 2 *)
  destruct (inPlace_3 _ _ _ _ (removeContained_inPlace [b1; b2; b3]))
    as (b1' & b2' & b3' & Hrc & Hg1 & Hg2 & Hg3).
  assert (Hb3' : b3' = b3).
  { change b3' with (get [b1'; b2'; b3'] 2). rewrite <- Hrc.
    apply (removeContained_keeps_top [b1; b2; b3] 2).
    intros [|[|[|[|p]]]]; unfold get; cbn [nth]; rewrite ?Hf1, ?Hf2, ?Hf3;
      vm_compute; reflexivity. }
  subst b3'.
  (* stage 3: the sort *)
  assert (Hsort : sortByConfidence [b1'; b2'; b3] = Some [b3; b1'; b2']).
  { rewrite sortByConfidence_3. rewrite pass_S.
    rewrite (grows_confidence _ _ Hg1), (grows_confidence _ _ Hg2), Hf1, Hf2.
    change (F32.lt (F32.lit 9 1) (F32.lit 8 1)) with false. cbv iota.
    rewrite pass_S. rewrite (grows_confidence _ _ Hg2), Hf2, Hf3.
    change (F32.lt (F32.lit 8 1) (F32.lit 95 2)) with true. cbv iota.
    rewrite pass_0, pass_S. rewrite (grows_confidence _ _ Hg1), Hf1, Hf3.
    change (F32.lt (F32.lit 9 1) (F32.lit 95 2)) with true. cbv iota.
    rewrite pass_0. reflexivity. }
  (* stage 3: the scan *)
  assert (Hcl1 : clash b3 b1' = true).
  { rewrite (clash_grows _ _ _ _ (grows_refl b3) Hg1).
    apply overlapping_clash; [rewrite sameClass_sym; exact Hc13|].
    unfold overlapping. rewrite calculateIoU_sym. exact Ho13. }
  assert (Hcl2 : clash b3 b2' = true).
  { rewrite (clash_grows _ _ _ _ (grows_refl b3) Hg2).
    apply overlapping_clash; [rewrite sameClass_sym; exact Hc23|].
    unfold overlapping. rewrite calculateIoU_sym. exact Ho23. }
  assert (Hnms : applyNMS [b1'; b2'; b3]
                 = Some [b3; set_suppressed true b1; set_suppressed true b2]).
  { unfold applyNMS. rewrite Hsort. f_equal.
    change (List.length [b1'; b2'; b3]) with (List.length [b3; b1'; b2']).
    destruct (nmsScan_flags [b3; b1'; b2']) as [Hin Hflags].
    destruct (inPlace_3 _ _ _ _ Hin) as (o0 & o1 & o2 & Hout & Ho0 & Ho1 & Ho2).
    pose proof (Hflags 0 ltac:(simpl; lia)) as Hq0.
    pose proof (Hflags 1 ltac:(simpl; lia)) as Hq1.
    pose proof (Hflags 2 ltac:(simpl; lia)) as Hq2.
    rewrite Hout in *. unfold get in Hq0, Hq1, Hq2.
    cbn [nth seq existsb] in Hq0, Hq1, Hq2.
    fold (get [b3; b1'; b2'] 0) in *.
    rewrite Hs3 in Hq0. cbn [orb] in Hq0.
    rewrite Hq0 in Hq1, Hq2. cbn [negb andb] in Hq1, Hq2.
    rewrite Hcl1 in Hq1. rewrite Hcl2 in Hq2.
    rewrite orb_true_r in Hq1. cbn [orb] in Hq2. rewrite orb_true_r in Hq2.
    rewrite (grows_survivor _ _ Ho0 Hq0).
    rewrite (grows_suppressed _ _ (grows_trans _ _ _ Hg1 Ho1) Hq1).
    rewrite (grows_suppressed _ _ (grows_trans _ _ _ Hg2 Ho2) Hq2).
    reflexivity. }
  (* stage 4 *)
  assert (Hkb : keepBestPerClass [b3; set_suppressed true b1; set_suppressed true b2]
                = [b3; set_suppressed true b1; set_suppressed true b2]).
  { unfold keepBestPerClass, for_range. cbn [List.length seq fold_left].
    unfold keepBestOuter at 3. unfold get at 1. cbn [nth]. rewrite Hs3.
    cbn [Nat.add Nat.sub seq keepBestInner]. unfold get at 1. cbn [nth suppressed set_suppressed].
    unfold get at 1. cbn [nth suppressed set_suppressed].
    unfold keepBestOuter. unfold get. cbn [nth suppressed set_suppressed].
    reflexivity. }
  unfold applyFilters. rewrite Hfi, Hrc, Hnms, Hkb. reflexivity.
Qed.

Lemma applyNMS_scan (boxes : list BoundingBox) :
  boxes <> [] ->
  exists sorted out,
    sortByConfidence boxes = Some sorted /\ applyNMS boxes = Some out /\
    Permutation boxes sorted /\
    (noNaN boxes -> StronglySorted confGe sorted) /\
    inPlace sorted out /\
    (forall i j, i < j < List.length out ->
                 suppressed (get out i) = false ->
                 clash (get out i) (get out j) = true ->
                 suppressed (get out j) = true) /\
    (forall j, j < List.length out -> suppressed (get out j) = true ->
               suppressed (get sorted j) = true \/
               exists i, i < j /\ suppressed (get out i) = false /\
                         clash (get out i) (get out j) = true).
Proof.
  intros Hne. destruct (sortByConfidence_some boxes Hne) as [sorted Hsort].
  pose proof (sortByConfidence_perm _ _ Hsort) as Hperm.
  exists sorted, (for_range 0 (List.length sorted) (nmsOuter (List.length sorted)) sorted).
  split; [exact Hsort|]. split.
  { unfold applyNMS. rewrite Hsort, (Permutation_length Hperm). reflexivity. }
  split; [exact Hperm|].
  split; [intros Hnan; apply (sortByConfidence_sorted _ _ Hsort Hnan)|].
  destruct (nmsScan_flags sorted) as [Hin Hflags].
  set (out := for_range 0 (List.length sorted) (nmsOuter (List.length sorted)) sorted) in *.
  pose proof (inPlace_length _ _ Hin) as Hlen.
  assert (Hclash : forall p q, clash (get sorted p) (get sorted q)
                               = clash (get out p) (get out q)).
  { intros p q. symmetry. apply clash_grows; apply inPlace_get, Hin. }
  split; [exact Hin|]. split.
  - intros i j Hij Hi Hc. rewrite Hflags by lia.
    apply orb_true_iff. right. apply existsb_exists. exists i.
    split; [apply in_seq; lia|]. rewrite Hi, Hclash, Hc. reflexivity.
  - intros j Hj Hs. rewrite Hflags in Hs by lia.
    apply orb_true_iff in Hs as [Hs | Hs]; [left; exact Hs | right].
    apply existsb_exists in Hs as (i & Hi & Hc). apply in_seq in Hi.
    apply andb_true_iff in Hc as [Hsi Hc]. apply negb_true_iff in Hsi.
    exists i. rewrite <- Hclash. repeat split; [lia | exact Hsi | exact Hc].
Qed.

(** C6, amended.  On a non-empty array [applyNMS] first produces a
    permutation of it which, for confidences that are numbers, is in
    descending order of confidence; the scan then leaves every box at
    its place and sets the flag of exactly those boxes that come after
    an unsuppressed box of the same class whose IoU with them exceeds
    0.2 or whose centre is less than 60 away.  For three boxes of one
    class that pass the validity filter, with confidences 0.9, 0.8 and
    0.95 and pairwise IoU above the threshold, the filter block leaves
    the 0.95 box as the only survivor and [runInference] reports it. *)
Theorem nms_keeps_most_confident :
  (forall a b,
     clash a b
     = sameClass a b
       && (F32.gt (calculateIoU a b) (F32.lit 2 1)
           || F32.lt (distance a b) (F32.of_Z 60))) /\
  (forall boxes, boxes <> [] ->
     exists sorted out,
       sortByConfidence boxes = Some sorted /\ applyNMS boxes = Some out /\
       Permutation boxes sorted /\
       (noNaN boxes -> StronglySorted confGe sorted) /\
       inPlace sorted out /\
       (forall i j, i < j < List.length out ->
                    suppressed (get out i) = false ->
                    clash (get out i) (get out j) = true ->
                    suppressed (get out j) = true) /\
       (forall j, j < List.length out -> suppressed (get out j) = true ->
                  suppressed (get sorted j) = true \/
                  exists i, i < j /\ suppressed (get out i) = false /\
                            clash (get out i) (get out j) = true)) /\
  (forall b1 b2 b3,
     suppressed b1 = false -> suppressed b2 = false -> suppressed b3 = false ->
     plausible W H b1 = true -> plausible W H b2 = true -> plausible W H b3 = true ->
     sameClass b1 b2 = true -> sameClass b1 b3 = true -> sameClass b2 b3 = true ->
     confidence b1 = F32.lit 9 1 -> confidence b2 = F32.lit 8 1 ->
     confidence b3 = F32.lit 95 2 ->
     overlapping b1 b2 -> overlapping b1 b3 -> overlapping b2 b3 ->
     exists out,
       applyFilters W H [b1; b2; b3] = Some out /\
       survivors out = [b3] /\
       runInference W H [b1; b2; b3] = Some (Some b3)).
Proof.
  split; [reflexivity|]. split; [exact applyNMS_scan|].
  intros b1 b2 b3 Hs1 Hs2 Hs3 Hp1 Hp2 Hp3 _ Hc13 Hc23 Hf1 Hf2 Hf3 _ Ho13 Ho23.
  pose proof (three_overlapping b1 b2 b3 Hs1 Hs2 Hs3 Hp1 Hp2 Hp3 Hc13 Hc23
                Hf1 Hf2 Hf3 Ho13 Ho23) as Hout.
  exists [b3; set_suppressed true b1; set_suppressed true b2].
  split; [exact Hout|]. split.
  - unfold survivors. cbn. rewrite Hs3. reflexivity.
  - unfold runInference. cbn [map].
    rewrite <- Hs1 at 1. rewrite <- Hs2 at 1. rewrite <- Hs3 at 1.
    rewrite !set_suppressed_id, Hout. cbn. rewrite Hs3. reflexivity.
Qed.

End Scenario.

(** C6, as stated, fails for boxes that stage 1 rejects: three
    coinciding one-pixel boxes of one class, confidences 0.9, 0.8 and
    0.95, pairwise IoU 1, leave no survivor, whatever the frame size.
    And a confidence that is not a number stops the exchanges of the
    sort: the 0.7 box stays ahead of the 0.95 box and suppresses it. *)
Lemma nms_scenario_counterexample :
  (sameClass Scenario.dot90 Scenario.dot80 = true /\
   sameClass Scenario.dot90 Scenario.dot95 = true /\
   sameClass Scenario.dot80 Scenario.dot95 = true /\
   overlapping Scenario.dot90 Scenario.dot80 /\
   overlapping Scenario.dot90 Scenario.dot95 /\
   overlapping Scenario.dot80 Scenario.dot95 /\
   (forall W H,
      runInference W H [Scenario.dot90; Scenario.dot80; Scenario.dot95] = Some None /\
      exists out,
        applyFilters W H [Scenario.dot90; Scenario.dot80; Scenario.dot95] = Some out /\
        survivors out = [])) /\
  (sortByConfidence [Scenario.can70; Scenario.canNaN; Scenario.can95]
   = Some [Scenario.can70; Scenario.canNaN; Scenario.can95] /\
   F32.lt (confidence Scenario.can70) (confidence Scenario.can95) = true /\
   runInference 96 96 [Scenario.can70; Scenario.canNaN; Scenario.can95]
   = Some (Some Scenario.can70)).
Proof.
  split; [|vm_compute; repeat split].
  do 6 (split; [vm_compute; reflexivity|]).
  intros W H.
  assert (Hfi : filterInvalid W H [Scenario.dot90; Scenario.dot80; Scenario.dot95]
                = map (set_suppressed true)
                      [Scenario.dot90; Scenario.dot80; Scenario.dot95])
    by reflexivity.
  assert (Hout : applyFilters W H [Scenario.dot90; Scenario.dot80; Scenario.dot95]
                 = Some (map (set_suppressed true)
                             [Scenario.dot95; Scenario.dot90; Scenario.dot80])).
  { unfold applyFilters. rewrite Hfi. vm_compute. reflexivity. }
  split.
  - unfold runInference.
    change (map (set_suppressed false) [Scenario.dot90; Scenario.dot80; Scenario.dot95])
      with [Scenario.dot90; Scenario.dot80; Scenario.dot95].
    cbv iota. rewrite Hout. reflexivity.
  - eexists. split; [exact Hout | reflexivity].
Qed.

(** The three overlapping cans of [Scenario]: the 0.95 box is reported. *)
Lemma nms_keeps_most_confident_witness :
  plausible 96 96 Scenario.can90 = true /\
  plausible 96 96 Scenario.can80 = true /\
  plausible 96 96 Scenario.can95 = true /\
  overlapping Scenario.can90 Scenario.can80 /\
  overlapping Scenario.can90 Scenario.can95 /\
  overlapping Scenario.can80 Scenario.can95 /\
  exists out,
    applyFilters 96 96 [Scenario.can90; Scenario.can80; Scenario.can95] = Some out /\
    survivors out = [Scenario.can95] /\
    runInference 96 96 [Scenario.can90; Scenario.can80; Scenario.can95]
    = Some (Some Scenario.can95).
Proof.
  repeat (split; [vm_compute; reflexivity|]).
  apply (proj2 (proj2 (nms_keeps_most_confident 96 96))
           Scenario.can90 Scenario.can80 Scenario.can95);
    vm_compute; reflexivity.
Defined.

(** The same three cans through the four stages. *)
Lemma suppression_only_grows_witness :
  exists out,
    applyFilters 96 96 [Scenario.can90; Scenario.can80; Scenario.can95] = Some out /\
    stageRel [Scenario.can90; Scenario.can80; Scenario.can95] out /\
    List.length out = List.length [Scenario.can90; Scenario.can80; Scenario.can95] /\
    List.length (survivors out)
    <= List.length (survivors [Scenario.can90; Scenario.can80; Scenario.can95]).
Proof.
  apply (proj1 (proj2 (proj2 (proj2 (proj2
           (suppression_only_grows 96 96
              [Scenario.can90; Scenario.can80; Scenario.can95])))))).
  discriminate.
Defined.

(** The same three cans: the survivor survives a second run alone. *)
Lemma filters_idempotent_on_survivor_witness :
  let out := [Scenario.can95; set_suppressed true Scenario.can90;
              set_suppressed true Scenario.can80] in
  applyFilters 96 96 [Scenario.can90; Scenario.can80; Scenario.can95] = Some out /\
  In Scenario.can95 out /\ suppressed Scenario.can95 = false /\
  applyFilters 96 96 [Scenario.can95] = Some [Scenario.can95].
Proof.
  cbv zeta.
  assert (Hout : applyFilters 96 96 [Scenario.can90; Scenario.can80; Scenario.can95]
                 = Some [Scenario.can95; set_suppressed true Scenario.can90;
                         set_suppressed true Scenario.can80])
    by (vm_compute; reflexivity).
  split; [exact Hout|]. split; [left; reflexivity|]. split; [reflexivity|].
  exact (proj1 (filters_idempotent_on_survivor 96 96
                  [Scenario.can90; Scenario.can80; Scenario.can95] _ Scenario.can95
                  Hout (or_introl eq_refl) eq_refl)).
Defined.

End VisionProofs.

(* ================================================================== *)
(** * Further properties of the sort controller *)
(* ================================================================== *)

Module SorterExtra.
Import Sorter SorterSpec SorterMore.

(** ** The presence sensor *)

(** X1.  [measureDistance] returns a number of centimetres between 0 and
    300, or 999.  For echo pulses shorter than 58 * 65536 microseconds
    (the 16-bit centimetre count does not wrap), [isObjectPresent] says
    yes exactly when both pulses last between 174 and 1971 microseconds,
    that is 3 cm to 33 cm. *)
Theorem presence_window (duration1 duration2 : Z) :
  0 <= duration1 < 58 * 2 ^ 16 -> 0 <= duration2 < 58 * 2 ^ 16 ->
  (0 <= Sensor.measureDistance duration1 <= 300
   \/ Sensor.measureDistance duration1 = 999) /\
  (Sensor.isObjectPresent duration1 duration2 = true <->
   174 <= duration1 <= 1971 /\ 174 <= duration2 <= 1971).
Proof.
  intros H1 H2.
  assert (Hm : forall d, 0 <= d < 58 * 2 ^ 16 ->
             (0 <= Sensor.measureDistance d <= 300 \/ Sensor.measureDistance d = 999) /\
             ((Sensor.DISTANCE_MIN <=? Sensor.measureDistance d)
              && (Sensor.measureDistance d <=? Sensor.DISTANCE_MAX) = true
              <-> 174 <= d <= 1971)).
  { intros d Hd. unfold Sensor.measureDistance, Sensor.u16,
                   Sensor.DISTANCE_MIN, Sensor.DISTANCE_MAX.
    assert (Hq : 0 <= d / 58 < 2 ^ 16)
      by (split; [apply Z.div_pos; lia | apply Z.div_lt_upper_bound; lia]).
    rewrite (Z.mod_small (d / 58)) by exact Hq.
    pose proof (Z.div_mod d 58 ltac:(lia)) as Hdm.
    pose proof (Z.mod_pos_bound d 58 ltac:(lia)) as Hr.
    destruct (d =? 0) eqn:H0.
    - apply Z.eqb_eq in H0. split; [right; reflexivity|].
      cbn. split; [discriminate | lia].
    - apply Z.eqb_neq in H0. destruct (300 <? d / 58) eqn:H300.
      + apply Z.ltb_lt in H300. split; [right; reflexivity|].
        cbn. split; [discriminate | lia].
      + apply Z.ltb_ge in H300. split; [left; lia|].
        rewrite andb_true_iff, !Z.leb_le. lia. }
  split; [apply Hm, H1|].
  unfold Sensor.isObjectPresent. cbv zeta.
  rewrite andb_true_iff. rewrite (proj2 (Hm _ H1)), (proj2 (Hm _ H2)). reflexivity.
Qed.

(** Two echoes of 10 cm. *)
Lemma presence_window_witness :
  0 <= 600 < 58 * 2 ^ 16 /\ Sensor.isObjectPresent 600 600 = true.
Proof.
  split; [lia|].
  apply (proj2 (presence_window 600 600 ltac:(lia) ltac:(lia))). lia.
Defined.

(** ** Actuation *)

(** X2.  Whatever the bin number and wherever the servos stand,
    [sortToBin] opens the flap exactly once, at the place of that bin,
    and leaves both servos at home.  The four places are different, and
    every number other than 1, 2, 3 is treated as the unknown bin 4. *)
Theorem sortToBin_one_drop (bin : Z) (p : Pose) :
  dropPoses (sortToBin bin) p = [dropPoseOf bin] /\
  poseAfter (sortToBin bin) p = mkPose S1_HOME S2_HOME /\
  (bin <> 1 -> bin <> 2 -> bin <> 3 -> sortToBin bin = sortToBin 4) /\
  (forall b b', 1 <= b <= 4 -> 1 <= b' <= 4 -> dropPoseOf b = dropPoseOf b' -> b = b').
Proof.
  split; [|split; [|split]].
  - unfold sortToBin, dropPoseOf.
    destruct (bin =? 1); [reflexivity|].
    destruct (bin =? 2); [reflexivity|].
    destruct (bin =? 3); reflexivity.
  - unfold sortToBin.
    destruct (bin =? 1); [reflexivity|].
    destruct (bin =? 2); [reflexivity|].
    destruct (bin =? 3); reflexivity.
  - intros H1 H2 H3. unfold sortToBin.
    apply Z.eqb_neq in H1, H2, H3. rewrite H1, H2, H3. reflexivity.
  - intros b b' Hb Hb' Heq.
    assert (Hc : forall c, 1 <= c <= 4 -> c = 1 \/ c = 2 \/ c = 3 \/ c = 4) by (intros; lia).
    destruct (Hc b Hb) as [-> | [-> | [-> | ->]]];
      destruct (Hc b' Hb') as [-> | [-> | [-> | ->]]];
      try reflexivity; vm_compute in Heq; discriminate Heq.
Qed.

(** ** Votes *)

Lemma accepted_above_floor (c : F32.float) :
  F32.ge c MIN_CONFIDENCE = true ->
  F32.add F32.zero c = c /\ F32.gt F32.zero c = false /\ F32.lt c CONF_FLOOR = false.
Proof.
  intros Hc. split; [|split].
  - apply FloatOrder.add_zero_l. exact (FloatOrder.ge_gt_gt c MIN_CONFIDENCE F32.zero Hc eq_refl).
  - exact (FloatOrder.ge_gt_not_lt c MIN_CONFIDENCE F32.zero Hc eq_refl).
  - exact (FloatOrder.ge_gt_not_lt c MIN_CONFIDENCE CONF_FLOOR Hc eq_refl).
Qed.

(** X3.  On a tally that has just been reset, one accepted vote
    (confidence at least [MIN_CONFIDENCE]) for a class the sorter knows
    makes [calculateBin] return the bin of that class; a vote for any
    other name leaves the result at the unknown bin 4. *)
Theorem first_vote_decides (className : string) (confidence : F32.float)
        (g : Globals) :
  F32.ge confidence MIN_CONFIDENCE = true ->
  calculateBin (recordVote className confidence (resetVotes g))
  = match binOf className with Some bin => bin | None => 4 end.
Proof.
  intros Hc. destruct (accepted_above_floor _ Hc) as (Hadd & Hgt & Hlt).
  pose proof (FloatOrder.ge_gt_gt confidence MIN_CONFIDENCE F32.zero Hc eq_refl) as Hpos.
  unfold binOf, recordVote, calculateBin, getTotalVotes.
  destruct (String.eqb className "CAN3");
    [| destruct (String.eqb className "GLASS3");
       [| destruct (String.eqb className "BOTTLE3")]];
    cbn [resetVotes set_consecutiveNones votesCan votesGlass votesBottle
         confCan confGlass confBottle];
    rewrite ?Hadd; cbn -[F32.gt F32.lt CONF_FLOOR];
    repeat (first [ rewrite Hgt | rewrite Hlt | rewrite Hpos
                  | progress change (F32.gt F32.zero F32.zero) with false ];
            cbv iota beta);
    reflexivity.
Qed.

(** A first vote for glass at 0.91. *)
Lemma first_vote_decides_witness :
  F32.ge (F32.lit 91 2) MIN_CONFIDENCE = true /\
  calculateBin (recordVote "GLASS3" (F32.lit 91 2) (resetVotes initial)) = 2.
Proof.
  split; [reflexivity|].
  exact (first_vote_decides "GLASS3" (F32.lit 91 2) initial eq_refl).
Defined.

(** ** The receive buffers *)

Lemma readLine_filter (cs : list ascii) (idx : nat) :
  readLine cs idx
  = string_of_list_ascii (firstn (31 - idx) (filter safe_char (beforeEol cs))).
Proof.
  revert idx. induction cs as [|c cs IH]; intros idx.
  - cbn. rewrite firstn_nil. reflexivity.
  - cbn [readLine beforeEol]. destruct (is_eol c).
    + cbn. rewrite firstn_nil. reflexivity.
    + cbn [filter]. destruct (safe_char c).
      * destruct (idx <? 31)%nat eqn:Hi.
        -- apply Nat.ltb_lt in Hi. rewrite IH.
           replace (31 - idx)%nat with (S (31 - S idx)) by lia. reflexivity.
        -- apply Nat.ltb_ge in Hi. rewrite IH.
           replace (31 - idx)%nat with O by lia. reflexivity.
      * apply IH.
Qed.

Lemma length_string_of_list (l : list ascii) :
  String.length (string_of_list_ascii l) = List.length l.
Proof. induction l as [|a l IH]; cbn; congruence. Qed.

Lemma length_strncpy (src : string) (n : nat) :
  (String.length (strncpy src n) <= n)%nat.
Proof.
  revert src. induction n as [|n IH]; intros src; [cbn; lia|].
  destruct src as [|a src]; cbn; [lia|]. specialize (IH src). lia.
Qed.

(** X4.  The line read in [STATE_WAIT] is made of the first 31
    characters before the end of line that pass the filter, so it fits
    [buffer[32]] with its terminator; and the class name that
    [parseResponse] stores fits [className[16]]. *)
Theorem buffers_fit (atof : string -> F32.float) (cs : list ascii)
        (buffer : string) (outConf : F32.float) :
  readLine cs 0
  = string_of_list_ascii (firstn 31 (filter safe_char (beforeEol cs))) /\
  (String.length (readLine cs 0) < 32)%nat /\
  Forall (fun c => safe_char c = true) (list_ascii_of_string (readLine cs 0)) /\
  (String.length (snd (fst (parseResponse atof buffer "" outConf))) < 16)%nat.
Proof.
  rewrite readLine_filter. change (31 - 0)%nat with 31%nat.
  split; [reflexivity|]. split; [|split].
  - rewrite length_string_of_list.
    pose proof (firstn_le_length 31 (filter safe_char (beforeEol cs))). lia.
  - rewrite list_ascii_of_string_of_list_ascii.
    apply Forall_forall. intros c Hc.
    assert (Hin : In c (filter safe_char (beforeEol cs))).
    { rewrite <- (firstn_skipn 31 (filter safe_char (beforeEol cs))).
      apply in_or_app. left. exact Hc. }
    apply filter_In in Hin. exact (proj2 Hin).
  - unfold parseResponse.
    destruct (String.eqb buffer ""); [cbn; lia|].
    destruct (starts_with "NONE" buffer); [cbn; lia|].
    destruct (starts_with "ERR:" buffer); [cbn; lia|].
    destruct (strstr buffer "OK") as [okPtr|]; [|cbn; lia].
    destruct (strchr (ptr_add okPtr 2) colon) as [colonPtr|]; [|cbn; lia].
    destruct (strchr (ptr_add colonPtr 1) colon) as [secondColonPtr|]; [|cbn; lia].
    cbn [fst snd].
    match goal with
    | |- (String.length (strncpy _ ?n) < 16)%nat =>
        pose proof (length_strncpy (ptr_add colonPtr 1) n) as Hlen;
        assert (Hn : (n <= 15)%nat)
    end.
    { destruct (15 <? String.length (ptr_add colonPtr 1)
                      - String.length secondColonPtr)%nat eqn:Hc;
        [lia | apply Nat.ltb_ge in Hc; exact Hc]. }
    lia.
Qed.

(** ** The state machine *)

Section MachineMore.
Variable atof : string -> F32.float.

Local Abbreviation step i g := (fst (runStateMachine atof i g)).

Lemma recordVote_counts (className : string) (confidence : F32.float) (g : Globals) :
  0 <= votesCan g < 2 -> 0 <= votesGlass g < 2 -> 0 <= votesBottle g < 2 ->
  let g1 := recordVote className confidence g in
  votesCan g <= votesCan g1 <= votesCan g + 1 /\
  votesGlass g <= votesGlass g1 <= votesGlass g + 1 /\
  votesBottle g <= votesBottle g1 <= votesBottle g + 1 /\
  votesCan g1 + votesGlass g1 + votesBottle g1
  <= votesCan g + votesGlass g + votesBottle g + 1 /\
  repositionAttempts g1 = repositionAttempts g /\ consecutiveNones g1 = 0 /\
  state g1 = state g /\ deadline g1 = deadline g.
Proof.
  intros Hc Hg Hb. unfold recordVote, u8.
  destruct (String.eqb className "CAN3");
    [| destruct (String.eqb className "GLASS3");
       [| destruct (String.eqb className "BOTTLE3")]];
    cbn; rewrite ?Z.mod_small by lia; repeat split; lia.
Qed.

Lemma countersInv_step (i : Input) (g : Globals) :
  countersInv g -> countersInv (step i g).
Proof.
  unfold countersInv, countersBounded, runStateMachine,
    MAJORITY_VOTES, MAX_VOTES, MAX_REPOSITIONS.
  destruct (state g) eqn:Hs; intros [Hb Hst].
  - destruct (present i); cbn; rewrite ?Hs; auto.
  - destruct (present i); cbn; (split; [lia | auto]); lia.
  - cbn. split; [exact Hb | exact Hst].
  - destruct (deadline g <? now i); [cbn; auto|].
    destruct (rx i) as [cs|]; [|cbn; rewrite Hs; auto].
    destruct (String.eqb (readLine cs 0) ""); [cbn; rewrite Hs; auto|].
    destruct (parseResponse atof (readLine cs 0) "" F32.zero) as [[ok cls] conf].
    destruct ok.
    + pose proof (recordVote_counts cls conf g) as Hv. cbv zeta in Hv.
      destruct Hv as (Hv1 & Hv2 & Hv3 & Hv4 & Hv5 & Hv6 & _); try lia.
      destruct (hasMajority (recordVote cls conf g)
                || (3 <=? getTotalVotes (recordVote cls conf g))) eqn:Hd;
        cbn -[recordVote]; (split; [lia|]); [exact I|].
      apply orb_false_elim in Hd. destruct Hd as [Hm Ht].
      unfold hasMajority, MAJORITY_VOTES in Hm.
      apply orb_false_elim in Hm. destruct Hm as [Hm Hm3].
      apply orb_false_elim in Hm. destruct Hm as [Hm1 Hm2].
      apply Z.leb_gt in Hm1, Hm2, Hm3, Ht.
      unfold getTotalVotes, u8 in Ht. rewrite Z.mod_small in Ht by lia. lia.
    + unfold u8. rewrite (Z.mod_small (consecutiveNones g + 1)) by lia.
      cbn [repositionAttempts set_consecutiveNones].
      destruct (0 <? repositionAttempts g) eqn:H0;
        [| destruct (present i)];
        try (destruct (repositionAttempts g <? 2) eqn:H2;
             [apply Z.ltb_lt in H2|]);
        cbn; (split; [lia|]); try exact I; lia.
  - unfold u8. rewrite (Z.mod_small (repositionAttempts g + 1)) by lia.
    cbn. split; lia.
  - cbn. auto.
  - cbn. auto.
  - cbn. split; [lia | exact I].
Qed.

Lemma countersInv_run (ins : list Input) (g : Globals) :
  countersInv g -> countersInv (fst (run atof ins g)).
Proof.
  revert g. induction ins as [|i ins IH]; intros g Hinv; [exact Hinv|].
  rewrite MachineProofs.run_cons. apply IH, countersInv_step, Hinv.
Qed.

(** X5.  Whatever the sensor, the clock and the serial link deliver, the
    counters of the sketch stay small: no class ever holds more than 2
    votes, the three together at most 3, [repositionAttempts] at most 2
    and [consecutiveNones] at most 3.  In particular no [uint8_t]
    counter ever wraps around. *)
Theorem counters_bounded (ins : list Input) :
  let g := fst (run atof ins initial) in
  countersBounded g /\
  u8 (votesCan g + 1) = votesCan g + 1 /\
  u8 (votesGlass g + 1) = votesGlass g + 1 /\
  u8 (votesBottle g + 1) = votesBottle g + 1 /\
  u8 (repositionAttempts g + 1) = repositionAttempts g + 1 /\
  u8 (consecutiveNones g + 1) = consecutiveNones g + 1 /\
  getTotalVotes g = votesCan g + votesGlass g + votesBottle g.
Proof.
  intros g.
  assert (Hinv : countersInv g).
  { apply countersInv_run.
    unfold countersInv, countersBounded, MAJORITY_VOTES, MAX_VOTES, MAX_REPOSITIONS.
    cbn. repeat split; lia. }
  destruct Hinv as [Hb _]. split; [exact Hb|].
  unfold countersBounded, MAJORITY_VOTES, MAX_VOTES, MAX_REPOSITIONS in Hb.
  unfold getTotalVotes, u8. rewrite !Z.mod_small by lia. repeat split.
Qed.

(** X6.  Every call of [runStateMachine] follows an arrow of the state
    diagram [mayFollow]: in particular [STATE_SORT] is entered only from
    [STATE_DECIDE], [STATE_ERROR] only from [STATE_WAIT], and both lead
    back to [STATE_IDLE]. *)
Theorem transitions_follow_diagram (i : Input) (g : Globals) :
  mayFollow (state g) (state (step i g)) = true.
Proof.
  unfold runStateMachine.
  destruct (state g) eqn:Hs.
  - destruct (present i); cbn; rewrite ?Hs; reflexivity.
  - destruct (present i); reflexivity.
  - reflexivity.
  - destruct (deadline g <? now i); [reflexivity|].
    destruct (rx i) as [cs|]; [|cbn; rewrite Hs; reflexivity].
    destruct (String.eqb (readLine cs 0) ""); [cbn; rewrite Hs; reflexivity|].
    destruct (parseResponse atof (readLine cs 0) "" F32.zero) as [[ok cls] conf].
    destruct ok.
    + destruct (hasMajority (recordVote cls conf g)
                || (MAX_VOTES <=? getTotalVotes (recordVote cls conf g)));
        reflexivity.
    + cbn [repositionAttempts set_consecutiveNones giveUp].
      destruct (0 <? repositionAttempts g);
        [| destruct (present i)];
        try destruct (repositionAttempts g <? MAX_REPOSITIONS);
        reflexivity.
  - reflexivity.
  - reflexivity.
  - reflexivity.
  - reflexivity.
Qed.

(** X7.  The deadline is [millis() + TIMEOUT_MS] in 32-bit arithmetic.
    For a request sent at [now i] and the next call at [now i'], before
    the clock itself wraps: the call reports a timeout exactly when more
    than [TIMEOUT_MS] have passed, or when the sum wrapped around, that
    is in the last 2.5 s before the clock wraps, where the timeout is
    reported at once. *)
Theorem deadline_wraps (i i' : Input) (g : Globals) :
  state g = STATE_REQUEST ->
  0 <= now i < 2 ^ 32 -> now i <= now i' < 2 ^ 32 ->
  (state (step i' (step i g)) = STATE_ERROR <->
   now i + TIMEOUT_MS < now i' \/ 2 ^ 32 <= now i + TIMEOUT_MS).
Proof.
  intros Hs Hi Hi'.
  assert (H1 : step i g
               = set_state STATE_WAIT (set_deadline (u32 (now i + TIMEOUT_MS)) g)).
  { unfold runStateMachine. rewrite Hs. reflexivity. }
  rewrite H1. clear H1.
  pose (g1 := set_state STATE_WAIT (set_deadline (u32 (now i + TIMEOUT_MS)) g)).
  fold g1.
  assert (Hd : deadline g1 = u32 (now i + TIMEOUT_MS)) by reflexivity.
  assert (Hs1 : state g1 = STATE_WAIT) by reflexivity.
  assert (Hlate : deadline g1 < now i'
                  <-> now i + TIMEOUT_MS < now i' \/ 2 ^ 32 <= now i + TIMEOUT_MS).
  { rewrite Hd. unfold u32, TIMEOUT_MS in *.
    destruct (Z_lt_le_dec (now i + 2500) (2 ^ 32)) as [Hlt | Hge].
    - rewrite Z.mod_small by lia. lia.
    - replace (now i + 2500) with (now i + 2500 - 2 ^ 32 + 1 * 2 ^ 32) by lia.
      rewrite Z.mod_add by lia. rewrite Z.mod_small by lia. lia. }
  rewrite <- Hlate. split.
  - intros He. apply (MachineProofs.step_to_error atof i' g1); [congruence | exact He].
  - intros Hl. apply Z.ltb_lt in Hl. unfold runStateMachine.
    rewrite Hs1, Hl. reflexivity.
Qed.

Lemma dropPoses_sortToBin (bin : Z) (p : Pose) :
  dropPoses (sortToBin bin) p = [dropPoseOf bin].
Proof.
  unfold sortToBin, dropPoseOf.
  destruct (bin =? 1); [reflexivity|].
  destruct (bin =? 2); [reflexivity|].
  destruct (bin =? 3); reflexivity.
Qed.

Lemma inferSent_sortToBin (bin : Z) : inferSent (sortToBin bin) = O.
Proof.
  unfold sortToBin.
  destruct (bin =? 1); [reflexivity|].
  destruct (bin =? 2); [reflexivity|].
  destruct (bin =? 3); reflexivity.
Qed.

(** X8.  What a call does to the outside world depends on the state it
    starts in: the flap is opened only by a call in [STATE_SORT], once,
    at the place of [calculateBin], or in [STATE_ERROR], once, at the
    place of bin 4; [INFER] is sent only by a call in [STATE_REQUEST],
    once. *)
Theorem effects_by_state (i : Input) (g : Globals) (p : Pose) :
  dropPoses (snd (runStateMachine atof i g)) p
  = match state g with
    | STATE_SORT => [dropPoseOf (calculateBin g)]
    | STATE_ERROR => [dropPoseOf 4]
    | _ => []
    end /\
  inferSent (snd (runStateMachine atof i g))
  = match state g with STATE_REQUEST => 1%nat | _ => O end.
Proof.
  unfold runStateMachine.
  destruct (state g) eqn:Hs.
  - split; reflexivity.
  - destruct (present i); split; reflexivity.
  - split; reflexivity.
  - destruct (deadline g <? now i); [split; reflexivity|].
    destruct (rx i) as [cs|]; [|split; reflexivity].
    destruct (String.eqb (readLine cs 0) ""); [split; reflexivity|].
    destruct (parseResponse atof (readLine cs 0) "" F32.zero) as [[ok cls] conf].
    destruct ok.
    + destruct (hasMajority (recordVote cls conf g)
                || (MAX_VOTES <=? getTotalVotes (recordVote cls conf g)));
        split; reflexivity.
    + cbn [repositionAttempts set_consecutiveNones giveUp].
      destruct (0 <? repositionAttempts g);
        [| destruct (present i)];
        try destruct (repositionAttempts g <? MAX_REPOSITIONS);
        split; reflexivity.
  - cbn [snd].
    destruct (repositionAttempts
                (set_repositionAttempts (u8 (repositionAttempts g + 1)) g) =? 1);
      split; reflexivity.
  - split; reflexivity.
  - cbn [snd]. split; [apply dropPoses_sortToBin | apply inferSent_sortToBin].
  - split; reflexivity.
Qed.

Lemma nones_unused_step (i : Input) (g : Globals) (n : Z) :
  let r := runStateMachine atof i g in
  let r' := runStateMachine atof i (set_consecutiveNones n g) in
  snd r' = snd r /\
  fst r' = set_consecutiveNones (consecutiveNones (fst r')) (fst r).
Proof.
  destruct g as [s vc vg vb cc cg cb d ra cn].
  unfold runStateMachine, set_consecutiveNones.
  cbn [state votesCan votesGlass votesBottle confCan confGlass confBottle
       deadline repositionAttempts consecutiveNones].
  destruct s.
  - destruct (present i); split; reflexivity.
  - destruct (present i); split; reflexivity.
  - split; reflexivity.
  - destruct (d <? now i); [split; reflexivity|].
    destruct (rx i) as [cs|]; [|split; reflexivity].
    destruct (String.eqb (readLine cs 0) ""); [split; reflexivity|].
    destruct (parseResponse atof (readLine cs 0) "" F32.zero) as [[ok cls] conf].
    destruct ok.
    + unfold recordVote, hasMajority, getTotalVotes.
      destruct (String.eqb cls "CAN3");
        [| destruct (String.eqb cls "GLASS3");
           [| destruct (String.eqb cls "BOTTLE3")]];
        cbn [state votesCan votesGlass votesBottle confCan confGlass confBottle
             deadline repositionAttempts consecutiveNones set_consecutiveNones];
        match goal with
        | |- context [if ?c then _ else _] => destruct c
        end; split; reflexivity.
    + cbn [state votesCan votesGlass votesBottle confCan confGlass confBottle
           deadline repositionAttempts consecutiveNones set_consecutiveNones giveUp].
      destruct (0 <? ra);
        [| destruct (present i)];
        try destruct (ra <? MAX_REPOSITIONS);
        split; reflexivity.
  - split; reflexivity.
  - split; reflexivity.
  - split; reflexivity.
  - split; reflexivity.
Qed.

(** X9.  [consecutiveNones] is written but never read: started from two
    states that differ only in it, the sketch does the same things on
    the same inputs and ends in states that again differ only in it. *)
Theorem consecutiveNones_unused (ins : list Input) (g : Globals) (n : Z) :
  snd (run atof ins (set_consecutiveNones n g)) = snd (run atof ins g) /\
  sameButNones (fst (run atof ins (set_consecutiveNones n g)))
               (fst (run atof ins g)).
Proof.
  revert g n. induction ins as [|i ins IH]; intros g n.
  - cbn. unfold sameButNones, sameTally, sameVotes. repeat split; reflexivity.
  - cbn [run].
    pose proof (nones_unused_step i g n) as Hstep. cbv zeta in Hstep.
    destruct Hstep as [Hfx Hg].
    destruct (runStateMachine atof i (set_consecutiveNones n g)) as [g1' fx1'].
    destruct (runStateMachine atof i g) as [g1 fx1].
    cbn [fst snd] in Hfx, Hg. subst fx1'. rewrite Hg.
    specialize (IH g1 (consecutiveNones g1')). destruct IH as [IHfx IHg].
    destruct (run atof ins (set_consecutiveNones (consecutiveNones g1') g1))
      as [g2' fx2'].
    destruct (run atof ins g1) as [g2 fx2].
    cbn [fst snd] in *. subst fx2'. split; [reflexivity | exact IHg].
Qed.

Lemma length_substring_le (n : nat) (s : string) :
  (String.length (substring 0 n s) <= n)%nat.
Proof.
  revert s. induction n as [|n IH]; intros [|c s]; cbn; try lia.
  specialize (IH s). lia.
Qed.

Ltac lcd_check :=
  cbn [snd app];
  repeat match goal with
         | |- Forall lcdFits (_ :: _) => apply Forall_cons
         | |- Forall lcdFits [] => apply Forall_nil
         | |- Forall lcdFits (_ ++ _) => apply Forall_app; split
         | |- lcdFits (Lcd _ _) => split
         | |- lcdFits _ => exact I
         end;
  try apply length_substring_le; try (cbn; lia).

Lemma moveServo1_fits (angle : Z) : Forall lcdFits (moveServo1 angle).
Proof. unfold moveServo1. lcd_check. Qed.

Lemma sortToBin_fits (bin : Z) : Forall lcdFits (sortToBin bin).
Proof.
  unfold sortToBin, performDrop, moveServo1, moveServo2.
  destruct (bin =? 1); [lcd_check|].
  destruct (bin =? 2); [lcd_check|].
  destruct (bin =? 3); lcd_check.
Qed.

Lemma showVotes_fits (g : Globals) : Forall lcdFits (showVotes g).
Proof. unfold showVotes. lcd_check. Qed.

Lemma decimal_digit (v : Z) : 0 <= v <= 3 -> String.length (decimal v) = 1%nat.
Proof.
  intros Hv.
  assert (Hc : v = 0 \/ v = 1 \/ v = 2 \/ v = 3) by lia.
  destruct Hc as [-> | [-> | [-> | ->]]]; reflexivity.
Qed.

(** X10.  Nothing that is shown overflows the display: every line
    handed to [updateDisplay] has at most 16 characters, in every state.
    And in the states the sketch can reach, where the counters are
    single digits, the line of votes is shown in full, not cut by
    [snprintf]. *)
Theorem display_fits (ins : list Input) (i : Input) (g : Globals) :
  Forall lcdFits (snd (runStateMachine atof i g)) /\
  let g' := fst (run atof ins initial) in
  showVotes g'
  = [Lcd "Voting..."
         ("C:" ++ decimal (votesCan g') ++ " G:" ++ decimal (votesGlass g')
          ++ " B:" ++ decimal (votesBottle g'))].
Proof.
  split.
  - unfold runStateMachine.
    destruct (state g).
    + lcd_check.
    + destruct (present i); unfold moveServo1; lcd_check.
    + cbn [requestInference snd]. lcd_check.
    + destruct (deadline g <? now i); [lcd_check|].
      destruct (rx i) as [cs|]; [|lcd_check].
      destruct (String.eqb (readLine cs 0) ""); [lcd_check|].
      destruct (parseResponse atof (readLine cs 0) "" F32.zero) as [[ok cls] conf].
      destruct ok.
      * assert (Hfx : Forall lcdFits
                        ([Delay 50] ++ showVotes (recordVote cls conf g) ++ [Delay 500])).
        { apply Forall_app. split; [lcd_check|].
          apply Forall_app. split; [apply showVotes_fits | lcd_check]. }
        destruct (hasMajority (recordVote cls conf g)
                  || (MAX_VOTES <=? getTotalVotes (recordVote cls conf g)));
          exact Hfx.
      * cbn [repositionAttempts set_consecutiveNones giveUp].
        destruct (0 <? repositionAttempts g);
          [| destruct (present i)];
          try destruct (repositionAttempts g <? MAX_REPOSITIONS);
          cbn [snd]; lcd_check.
    + cbn [snd]. apply Forall_app. split; [lcd_check|].
      apply Forall_app. split; [|lcd_check].
      destruct (_ =? 1); apply moveServo1_fits.
    + cbn [snd]. apply Forall_cons; [|lcd_check].
      split; [apply length_substring_le|].
      unfold binName.
      destruct (calculateBin g =? 1); [cbn; lia|].
      destruct (calculateBin g =? 2); [cbn; lia|].
      destruct (calculateBin g =? 3); cbn; lia.
    + apply sortToBin_fits.
    + cbn [snd]. apply Forall_app. split; [lcd_check|].
      apply Forall_app. split; [apply moveServo1_fits | apply sortToBin_fits].
  - intros g'.
    assert (Hinv : countersInv g').
    { apply countersInv_run.
      unfold countersInv, countersBounded, MAJORITY_VOTES, MAX_VOTES, MAX_REPOSITIONS.
      cbn. repeat split; lia. }
    destruct Hinv as [Hb _].
    unfold countersBounded, MAJORITY_VOTES, MAX_VOTES, MAX_REPOSITIONS in Hb.
    unfold showVotes, snprintf17. f_equal. f_equal.
    apply ParserProofs.substring_all.
    cbn [append String.length].
    rewrite !ParserProofs.length_append. cbn [append String.length].
    rewrite !ParserProofs.length_append. cbn [append String.length].
    rewrite !decimal_digit by lia. lia.
Qed.

(** X11.  A cycle starts only after the object has been seen twice in a
    row, and it starts clean: from [STATE_IDLE], two calls lead to
    [STATE_REQUEST] exactly when [isObjectPresent] answered yes in both,
    and then all votes, confidences and both counters are zero. *)
Theorem cycle_starts_clean (i1 i2 : Input) (g : Globals) :
  state g = STATE_IDLE ->
  (state (step i2 (step i1 g)) = STATE_REQUEST
   <-> present i1 = true /\ present i2 = true) /\
  (state (step i2 (step i1 g)) = STATE_REQUEST ->
   tallyZero (step i2 (step i1 g)) /\
   repositionAttempts (step i2 (step i1 g)) = 0 /\
   consecutiveNones (step i2 (step i1 g)) = 0).
Proof.
  intros Hs.
  assert (H1 : step i1 g = if present i1 then set_state STATE_DETECT g else g)
    by (unfold runStateMachine; rewrite Hs; reflexivity).
  rewrite H1. clear H1. destruct (present i1).
  - assert (H2 : step i2 (set_state STATE_DETECT g)
                 = if present i2 then set_state STATE_REQUEST (resetVotes g)
                   else set_state STATE_IDLE g)
      by (unfold runStateMachine; cbn [state set_state]; destruct (present i2); reflexivity).
    rewrite H2. clear H2. destruct (present i2); cbn.
    + split; [tauto|]. intros _. unfold tallyZero. cbn. tauto.
    + split; [split; [discriminate | intros [_ H]; discriminate H] | discriminate].
  - assert (H2 : step i2 g = if present i2 then set_state STATE_DETECT g else g)
      by (unfold runStateMachine; rewrite Hs; reflexivity).
    rewrite H2. clear H2. destruct (present i2); cbn; rewrite ?Hs;
      (split; [split; [discriminate | intros [H _]; discriminate H] | discriminate]).
Qed.

(** X12.  The second vote for a class ends the voting and sorts the
    object to the bin of that class: in [STATE_WAIT], with no majority
    yet and one vote for the class, an accepted reply for it in time
    leads to [STATE_DECIDE] with that bin, and the next two calls show
    the bin, open the flap once at its place and return to
    [STATE_IDLE]. *)
Theorem second_vote_sorts (i i1 i2 : Input) (g : Globals) (className : string)
        (confidence : F32.float) (bin : Z) (p : Pose) :
  state g = STATE_WAIT -> now i <= deadline g ->
  replyOf atof i = Some (true, className, confidence) ->
  binOf className = Some bin ->
  votesOf className g = 1 -> hasMajority g = false ->
  state (step i g) = STATE_DECIDE /\
  calculateBin (step i g) = bin /\
  state (step i1 (step i g)) = STATE_SORT /\
  dropPoses (snd (runStateMachine atof i2 (step i1 (step i g)))) p = [dropPoseOf bin] /\
  state (step i2 (step i1 (step i g))) = STATE_IDLE.
Proof.
  intros Hs Hnow Hreply Hbin Hone Hmaj.
  assert (Hstep : step i g = set_state STATE_DECIDE (recordVote className confidence g)
                  /\ calculateBin (recordVote className confidence g) = bin).
  { assert (Hdecide : hasMajority (recordVote className confidence g) = true /\
                      calculateBin (recordVote className confidence g) = bin).
    { unfold hasMajority, MAJORITY_VOTES in Hmaj.
      apply orb_false_elim in Hmaj. destruct Hmaj as [Hm Hm3].
      apply orb_false_elim in Hm. destruct Hm as [Hm1 Hm2].
      unfold binOf, votesOf in *. unfold recordVote, hasMajority, calculateBin.
      destruct (String.eqb className "CAN3");
        [| destruct (String.eqb className "GLASS3");
           [| destruct (String.eqb className "BOTTLE3")]];
        try discriminate; injection Hbin as <-;
        cbn [set_consecutiveNones votesCan votesGlass votesBottle];
        unfold MAJORITY_VOTES;
        rewrite Hone, ?Hm1, ?Hm2, ?Hm3; split; reflexivity. }
    destruct Hdecide as [Hmaj1 Hbin1]. split; [|exact Hbin1].
    unfold runStateMachine. rewrite Hs.
    replace (deadline g <? now i) with false by (symmetry; apply Z.ltb_ge; exact Hnow).
    unfold replyOf in Hreply.
    destruct (rx i) as [cs|]; [|discriminate].
    destruct (String.eqb (readLine cs 0) ""); [discriminate|].
    injection Hreply as ->. rewrite Hmaj1. reflexivity. }
  destruct Hstep as [-> Hbin1].
  split; [reflexivity|]. split; [exact Hbin1|]. split; [reflexivity|].
  split; [|reflexivity].
  unfold runStateMachine. cbn [state set_state fst snd].
  change (calculateBin (set_state STATE_SORT
                          (set_state STATE_DECIDE (recordVote className confidence g))))
    with (calculateBin (recordVote className confidence g)).
  rewrite Hbin1. apply dropPoses_sortToBin.
Qed.

End MachineMore.

(** A request sent one second before the clock wraps times out at the
    next call, ten milliseconds later. *)
Lemma deadline_wraps_witness :
  state (fst (runStateMachine Libc.atof (mkInput (2 ^ 32 - 990) true None)
           (fst (runStateMachine Libc.atof (mkInput (2 ^ 32 - 1000) true None)
                   (set_state STATE_REQUEST initial)))))
  = STATE_ERROR.
Proof.
  apply (proj2 (deadline_wraps Libc.atof (mkInput (2 ^ 32 - 1000) true None)
                  (mkInput (2 ^ 32 - 990) true None)
                  (set_state STATE_REQUEST initial) eq_refl
                  ltac:(cbn; lia) ltac:(cbn; lia))).
  right. cbn. lia.
Defined.

(** The object is seen twice; the cycle starts with an empty tally
    although an earlier cycle had left a vote. *)
Lemma cycle_starts_clean_witness :
  state (fst (runStateMachine Libc.atof Scenario.objectSeen
           (fst (runStateMachine Libc.atof Scenario.objectSeen
                   (set_state STATE_IDLE Scenario.detecting)))))
  = STATE_REQUEST /\
  votesCan (fst (runStateMachine Libc.atof Scenario.objectSeen
             (fst (runStateMachine Libc.atof Scenario.objectSeen
                     (set_state STATE_IDLE Scenario.detecting)))))
  = 0.
Proof.
  pose proof (cycle_starts_clean Libc.atof Scenario.objectSeen Scenario.objectSeen
                (set_state STATE_IDLE Scenario.detecting) eq_refl) as [Hiff Hclean].
  assert (Hreq : state (fst (runStateMachine Libc.atof Scenario.objectSeen
                   (fst (runStateMachine Libc.atof Scenario.objectSeen
                           (set_state STATE_IDLE Scenario.detecting)))))
                 = STATE_REQUEST)
    by (apply (proj2 Hiff); split; reflexivity).
  split; [exact Hreq|]. exact (proj1 (proj1 (Hclean Hreq))).
Defined.

(** A second vote for glass, at 0.91, with one vote for glass already
    recorded: the object goes to bin 2. *)
Lemma second_vote_sorts_witness :
  calculateBin
    (fst (runStateMachine Libc.atof ScenarioMore.glassReply ScenarioMore.oneGlass))
  = 2 /\
  dropPoses
    (snd (runStateMachine Libc.atof Scenario.objectSeen
            (fst (runStateMachine Libc.atof Scenario.objectSeen
                    (fst (runStateMachine Libc.atof ScenarioMore.glassReply
                            ScenarioMore.oneGlass))))))
    (mkPose S1_HOME S2_HOME)
  = [mkPose S1_MID S2_RIGHT].
Proof.
  pose proof (second_vote_sorts Libc.atof ScenarioMore.glassReply Scenario.objectSeen
                Scenario.objectSeen ScenarioMore.oneGlass "GLASS3" (F32.lit 91 2) 2
                (mkPose S1_HOME S2_HOME) eq_refl ltac:(cbn; lia)
                ltac:(vm_compute; reflexivity) eq_refl eq_refl eq_refl)
    as (_ & Hbin & _ & Hdrop & _).
  split; [exact Hbin | exact Hdrop].
Defined.

End SorterExtra.

(* ================================================================== *)
(** * Further properties of the vision controller *)
(* ================================================================== *)

Module VisionExtra.
Import Vision VisionSpec VisionMore VisionProofs.

Local Close Scope Z_scope.

Section Filters.
Variables W H : Z.

Lemma filterInvalidBody_filterOne (i : nat) (l : list BoundingBox) :
  i < List.length l ->
  get (filterInvalidBody W H i l) i = filterOne W H (get l i).
Proof.
  intros Hi. unfold filterInvalidBody, filterOne, plausible, suppress.
  destruct (suppressed (get l i)) eqn:Hs; [reflexivity|].
  destruct (isValid (get l i)); cbn [negb andb];
    [|apply get_put_same, Hi].
  destruct ((W <? Vision.u32 (x (get l i) + width (get l i)))%Z
            || (H <? Vision.u32 (y (get l i) + height (get l i)))%Z);
    cbn [negb andb]; [apply get_put_same, Hi|].
  cbv zeta.
  destruct (F32.gt (F32.div (F32.of_Z (width (get l i))) (F32.of_Z (height (get l i))))
                   ASPECT_MAX
            || F32.lt (F32.div (F32.of_Z (width (get l i))) (F32.of_Z (height (get l i))))
                      ASPECT_MIN);
    cbn [negb]; [apply get_put_same, Hi | reflexivity].
Qed.

Lemma filterInvalid_map (boxes : list BoundingBox) :
  filterInvalid W H boxes = map (filterOne W H) boxes.
Proof.
  assert (Hinv : List.length (filterInvalid W H boxes) = List.length boxes /\
                 forall q, q < List.length boxes ->
                   get (filterInvalid W H boxes) q
                   = if q <? List.length boxes then filterOne W H (get boxes q)
                     else get boxes q).
  { unfold filterInvalid.
    apply (for_range_count
             (fun k s => List.length s = List.length boxes /\
                         forall q, q < List.length boxes ->
                           get s q = if q <? k then filterOne W H (get boxes q)
                                     else get boxes q)).
    - split; [reflexivity | intros q _; reflexivity].
    - intros k s Hk [Hlen Hq]. split.
      + rewrite <- Hlen. symmetry. apply inPlace_length, filterInvalidBody_inPlace.
      + intros q Hlt. destruct (Nat.eq_dec k q) as [<-|Hne].
        * rewrite filterInvalidBody_filterOne by (rewrite Hlen; exact Hk).
          rewrite (Hq k Hk), Nat.ltb_irrefl.
          replace (k <? S k) with true by (symmetry; apply Nat.ltb_lt; lia).
          reflexivity.
        * rewrite filterInvalidBody_other by exact Hne. rewrite (Hq q Hlt).
          destruct (q <? k) eqn:H1.
          -- apply Nat.ltb_lt in H1.
             replace (q <? S k) with true by (symmetry; apply Nat.ltb_lt; lia).
             reflexivity.
          -- apply Nat.ltb_ge in H1.
             replace (q <? S k) with false by (symmetry; apply Nat.ltb_ge; lia).
             reflexivity. }
  destruct Hinv as [Hlen Hq].
  apply (nth_ext _ _ emptyBox (filterOne W H emptyBox)).
  - rewrite length_map. exact Hlen.
  - intros q Hlt. rewrite Hlen in Hlt. rewrite map_nth.
    fold (get (filterInvalid W H boxes) q). fold (get boxes q).
    rewrite (Hq q Hlt).
    replace (q <? List.length boxes) with true by (symmetry; apply Nat.ltb_lt; lia).
    reflexivity.
Qed.

Lemma plausible_set_suppressed (v : bool) (b : BoundingBox) :
  plausible W H (set_suppressed v b) = plausible W H b.
Proof. destruct b. reflexivity. Qed.

Lemma filterOne_idem (b : BoundingBox) :
  filterOne W H (filterOne W H b) = filterOne W H b.
Proof.
  unfold filterOne. destruct (suppressed b) eqn:Hs; [rewrite Hs; reflexivity|].
  destruct (plausible W H b) eqn:Hp; [rewrite Hs, Hp; reflexivity|].
  reflexivity.
Qed.

Lemma filterInvalid_survivors (boxes : list BoundingBox) :
  survivors (filterInvalid W H boxes) = filter (plausible W H) (survivors boxes).
Proof.
  rewrite filterInvalid_map. unfold survivors.
  induction boxes as [|b l IH]; [reflexivity|].
  cbn [map filter]. rewrite IH. unfold filterOne.
  destruct (suppressed b) eqn:Hs; [rewrite Hs; reflexivity|].
  destruct (plausible W H b) eqn:Hp; cbn [negb filter].
  - rewrite Hs, Hp. reflexivity.
  - cbn. rewrite Hp. reflexivity.
Qed.

(** X13.  [filterInvalid] treats every box on its own: a box that is
    already suppressed or that passes the tests (size, confidence, inside
    the frame, aspect ratio) is left as it is, any other box is
    suppressed.  Hence a second run changes nothing, and the boxes left
    are exactly the plausible ones among those that were left before. *)
Theorem filterInvalid_pointwise (boxes : list BoundingBox) :
  filterInvalid W H boxes = map (filterOne W H) boxes /\
  filterInvalid W H (filterInvalid W H boxes) = filterInvalid W H boxes /\
  survivors (filterInvalid W H boxes) = filter (plausible W H) (survivors boxes).
Proof.
  split; [apply filterInvalid_map|]. split.
  - rewrite !filterInvalid_map, map_map. apply map_ext, filterOne_idem.
  - apply filterInvalid_survivors.
Qed.

End Filters.

(** ** Growth of the flags *)

Lemma grows_label (a b : BoundingBox) : grows a b -> label b = label a.
Proof. intros [-> | [_ ->]]; reflexivity. Qed.

Lemma grows_stays (a b : BoundingBox) :
  grows a b -> suppressed a = true -> suppressed b = true.
Proof. intros [-> | [Ha ->]] Hs; [exact Hs | reflexivity]. Qed.

Lemma grows_was_alive (a b : BoundingBox) :
  grows a b -> suppressed b = false -> suppressed a = false.
Proof.
  intros Hg Hb. destruct (suppressed a) eqn:Ha; [|reflexivity].
  rewrite (grows_stays _ _ Hg Ha) in Hb. discriminate.
Qed.

Lemma grows_sameClass (a a' b b' : BoundingBox) :
  grows a a' -> grows b b' -> sameClass a' b' = sameClass a b.
Proof.
  intros Ha Hb. unfold sameClass.
  rewrite (grows_label _ _ Ha), (grows_label _ _ Hb). reflexivity.
Qed.

Lemma get_suppress_same (i : nat) (l : list BoundingBox) :
  i < List.length l -> suppressed (get (suppress i l) i) = true.
Proof. intros Hi. unfold suppress. rewrite get_put_same by exact Hi. reflexivity. Qed.

Lemma get_suppress_other (i q : nat) (l : list BoundingBox) :
  i <> q -> get (suppress i l) q = get l q.
Proof. intros Hne. unfold suppress. apply get_put_other, Hne. Qed.

(** ** [keepBestPerClass] *)

Lemma keepBestInner_pairs (i : nat) (js : list nat) (l : list BoundingBox) :
  i < List.length l ->
  (forall j, In j js -> j <> i /\ j < List.length l) ->
  suppressed (get (keepBestInner i js l) i) = false ->
  forall j, In j js ->
    suppressed (get (keepBestInner i js l) j) = false ->
    sameClass (get (keepBestInner i js l) i) (get (keepBestInner i js l) j) = false.
Proof.
  revert l. induction js as [|j0 js IH]; intros l Hi Hjs Halive j Hj Hjalive;
    [contradiction|].
  cbn [keepBestInner] in *.
  assert (Hj0 : j0 <> i /\ j0 < List.length l) by (apply Hjs; left; reflexivity).
  assert (Hrest : forall j', In j' js -> j' <> i /\ j' < List.length l)
    by (intros j' Hj'; apply Hjs; right; exact Hj').
  destruct (suppressed (get l j0)) eqn:Hs0.
  { destruct Hj as [<- | Hj]; [|apply IH; assumption].
    pose proof (inPlace_get _ _ j0 (keepBestInner_inPlace i js l)) as Hg.
    rewrite (grows_stays _ _ Hg Hs0) in Hjalive. discriminate. }
  destruct (sameClass (get l i) (get l j0)) eqn:Hc; cbn [negb] in *.
  2:{ destruct Hj as [<- | Hj]; [|apply IH; assumption].
      rewrite (grows_sameClass _ _ _ _
                 (inPlace_get _ _ i (keepBestInner_inPlace i js l))
                 (inPlace_get _ _ j0 (keepBestInner_inPlace i js l))).
      exact Hc. }
  destruct (F32.ge (score (get l i)) (score (get l j0))).
  - assert (Hlen : List.length (suppress j0 l) = List.length l) by apply length_suppress.
    destruct Hj as [<- | Hj].
    + pose proof (inPlace_get _ _ j0 (keepBestInner_inPlace i js (suppress j0 l))) as Hg.
      rewrite (grows_stays _ _ Hg (get_suppress_same j0 l (proj2 Hj0))) in Hjalive.
      discriminate.
    + apply IH; try assumption; rewrite ?Hlen; assumption.
  - rewrite (get_suppress_same i l Hi) in Halive. discriminate.
Qed.

Lemma pair_inPlace (s s' : list BoundingBox) (i j : nat) :
  inPlace s s' ->
  (suppressed (get s i) = false -> suppressed (get s j) = false ->
   sameClass (get s i) (get s j) = false) ->
  suppressed (get s' i) = false -> suppressed (get s' j) = false ->
  sameClass (get s' i) (get s' j) = false.
Proof.
  intros Hin Hp Hi Hj.
  pose proof (inPlace_get _ _ i Hin) as Hgi.
  pose proof (inPlace_get _ _ j Hin) as Hgj.
  rewrite (grows_sameClass _ _ _ _ Hgi Hgj).
  apply Hp; eapply grows_was_alive; eassumption.
Qed.

Lemma keepBestPerClass_pairs (boxes : list BoundingBox) :
  onePerClass (keepBestPerClass boxes).
Proof.
  set (n := List.length boxes).
  enough (Hinv : List.length (keepBestPerClass boxes) = n /\
                 forall i j, i < n -> i < j < n ->
                   suppressed (get (keepBestPerClass boxes) i) = false ->
                   suppressed (get (keepBestPerClass boxes) j) = false ->
                   sameClass (get (keepBestPerClass boxes) i)
                             (get (keepBestPerClass boxes) j) = false).
  { destruct Hinv as [Hlen Hp]. unfold onePerClass. rewrite Hlen.
    intros i j Hij. apply Hp; lia. }
  unfold keepBestPerClass. fold n.
  apply (for_range_count
           (fun k s => List.length s = n /\
                       forall i j, i < k -> i < j < n ->
                         suppressed (get s i) = false ->
                         suppressed (get s j) = false ->
                         sameClass (get s i) (get s j) = false)).
  - split; [reflexivity | intros i j Hi; lia].
  - intros k s Hk [Hlen Hp].
    assert (Hin : inPlace s (keepBestOuter n k s)).
    { unfold keepBestOuter. destruct (suppressed (get s k)); [apply inPlace_refl|].
      apply keepBestInner_inPlace. }
    split; [rewrite <- (inPlace_length _ _ Hin); exact Hlen|].
    intros i j Hi Hij.
    destruct (Nat.eq_dec i k) as [->|Hne].
    + unfold keepBestOuter. destruct (suppressed (get s k)) eqn:Hsk.
      * intros Hk'. rewrite Hsk in Hk'. discriminate.
      * intros Hk' Hj'. apply keepBestInner_pairs; try assumption.
        -- rewrite Hlen. exact Hk.
        -- intros j' Hj''. apply in_seq in Hj''. rewrite Hlen. lia.
        -- apply in_seq. lia.
    + apply (pair_inPlace s _ i j Hin). apply Hp; lia.
Qed.

(** X14.  After [keepBestPerClass] no two boxes that are left carry the
    same label; the same holds after the whole filter block, whose last
    stage it is. *)
Theorem one_box_per_class (W H : Z) (boxes : list BoundingBox) :
  onePerClass (keepBestPerClass boxes) /\
  (forall out, applyFilters W H boxes = Some out -> onePerClass out).
Proof.
  split; [apply keepBestPerClass_pairs|].
  intros out. unfold applyFilters.
  destruct (applyNMS (removeContained (filterInvalid W H boxes))) as [nms|];
    [|discriminate].
  intros [= <-]. apply keepBestPerClass_pairs.
Qed.

(** ** Some box stays in the running *)

Lemma alive_iff (l : list BoundingBox) :
  alive l = true <-> exists q, q < List.length l /\ suppressed (get l q) = false.
Proof.
  unfold alive. rewrite existsb_exists. split.
  - intros (b & Hin & Hb). destruct (In_get _ _ Hin) as (q & Hq & <-).
    exists q. split; [exact Hq | apply negb_true_iff, Hb].
  - intros (q & Hq & Hs). exists (get l q). split.
    + apply nth_In, Hq.
    + rewrite Hs. reflexivity.
Qed.

Lemma alive_perm (l1 l2 : list BoundingBox) :
  Permutation l1 l2 -> alive l1 = true -> alive l2 = true.
Proof.
  unfold alive. rewrite !existsb_exists. intros Hp (b & Hin & Hb).
  exists b. split; [eapply Permutation_in; eassumption | exact Hb].
Qed.

Lemma gt_irrefl (a : F32.float) : F32.gt a a = false.
Proof.
  unfold F32.gt, SFltb.
  destruct a as [[]|[]| |[] m e]; simpl; try reflexivity;
    rewrite Z.compare_refl, FloatOrder.pos_cmp, Pos.compare_refl; reflexivity.
Qed.

Lemma gt_trans (a b c : F32.float) :
  F32.gt a b = true -> F32.gt b c = true -> F32.gt a c = true.
Proof. unfold F32.gt, SFltb. FloatOrder.by_cases3 a b c. Qed.

(** Among the boxes left there is one whose confidence no other box
    that is left exceeds. *)
Lemma exists_top (l : list BoundingBox) :
  alive l = true ->
  exists m, In m l /\ suppressed m = false /\
    forall p, In p l -> suppressed p = false ->
              F32.gt (confidence p) (confidence m) = false.
Proof.
  unfold alive. induction l as [|h t IH]; [discriminate|].
  cbn [existsb]. destruct (existsb (fun b => negb (suppressed b)) t) eqn:Ht.
  - intros _. destruct (IH eq_refl) as (m & Hm & Hms & Htop).
    destruct (suppressed h) eqn:Hh.
    + exists m. split; [right; exact Hm|]. split; [exact Hms|].
      intros p [<- | Hp] Hps; [congruence | apply Htop; assumption].
    + destruct (F32.gt (confidence h) (confidence m)) eqn:Hgt.
      * exists h. split; [left; reflexivity|]. split; [exact Hh|].
        intros p [<- | Hp] Hps; [apply gt_irrefl|].
        destruct (F32.gt (confidence p) (confidence h)) eqn:Hph; [|reflexivity].
        rewrite <- (Htop p Hp Hps). symmetry. eapply gt_trans; eassumption.
      * exists m. split; [right; exact Hm|]. split; [exact Hms|].
        intros p [<- | Hp] Hps; [exact Hgt | apply Htop; assumption].
  - rewrite orb_false_r. intros Hh. apply negb_true_iff in Hh.
    exists h. split; [left; reflexivity|]. split; [exact Hh|].
    intros p [<- | Hp] Hps; [apply gt_irrefl|].
    exfalso.
    assert (Hex : existsb (fun b => negb (suppressed b)) t = true).
    { apply existsb_exists. exists p. split; [exact Hp|]. rewrite Hps. reflexivity. }
    congruence.
Qed.

Lemma removeContained_keeps_best (l : list BoundingBox) (q : nat) :
  (forall p, p < List.length l -> suppressed (get l p) = false ->
             F32.gt (confidence (get l p)) (confidence (get l q)) = false) ->
  get (removeContained l) q = get l q.
Proof.
  intros Htop.
  enough (Hinv : inPlace l (removeContained l) /\ get (removeContained l) q = get l q)
    by apply Hinv.
  unfold removeContained.
  apply (for_range_ind (fun s => inPlace l s /\ get s q = get l q));
    [split; [apply inPlace_refl | reflexivity]|].
  intros i s Hi Hs. unfold removeContainedOuter.
  destruct (suppressed (get s i)) eqn:Hsi; [exact Hs|].
  assert (Hli : suppressed (get l i) = false)
    by (eapply grows_was_alive; [apply inPlace_get, Hs | exact Hsi]).
  apply (for_range_ind (fun s' => inPlace l s' /\ get s' q = get l q)); [exact Hs|].
  intros j s' _ [Hin Hq]. split.
  - eapply inPlace_trans; [exact Hin | apply removeContainedInner_inPlace].
  - unfold removeContainedInner.
    destruct ((i =? j) || suppressed (get s' j)); [exact Hq|].
    destruct (Nat.eq_dec j q) as [->|Hne].
    + rewrite Hq, (grows_confidence _ _ (inPlace_get _ _ i Hin)).
      rewrite (Htop i) by (lia || exact Hli). rewrite andb_false_r. exact Hq.
    + destruct (containedIn (get s' j) (get s' i)
                && F32.gt (confidence (get s' i)) (confidence (get s' j)));
        [|exact Hq].
      rewrite get_suppress_other by exact Hne. exact Hq.
Qed.

Lemma removeContained_alive (l : list BoundingBox) :
  alive l = true -> alive (removeContained l) = true.
Proof.
  intros Ha. destruct (exists_top l Ha) as (m & Hm & Hms & Htop).
  destruct (In_get _ _ Hm) as (q & Hq & Hgq).
  apply alive_iff. exists q. split.
  - rewrite <- (inPlace_length _ _ (removeContained_inPlace l)). exact Hq.
  - rewrite removeContained_keeps_best; [rewrite Hgq; exact Hms|].
    intros p Hp Hps. rewrite Hgq. apply Htop; [apply nth_In, Hp | exact Hps].
Qed.

Lemma first_survivor (l : list BoundingBox) :
  alive l = true ->
  exists q, q < List.length l /\ suppressed (get l q) = false /\
            forall p, p < q -> suppressed (get l p) = true.
Proof.
  unfold alive. induction l as [|h t IH]; [discriminate|].
  cbn [existsb]. destruct (suppressed h) eqn:Hh; cbn [negb orb].
  - intros Ht. destruct (IH Ht) as (q & Hq & Hs & Hbefore).
    exists (S q). split; [cbn; lia|]. split; [exact Hs|].
    intros [|p] Hp; [exact Hh | apply Hbefore; lia].
  - intros _. exists 0. split; [cbn; lia|]. split; [exact Hh | intros p Hp; lia].
Qed.

Lemma applyNMS_alive (boxes out : list BoundingBox) :
  applyNMS boxes = Some out -> alive boxes = true -> alive out = true.
Proof.
  unfold applyNMS. destruct (sortByConfidence boxes) as [sorted|] eqn:Hsort;
    [|discriminate].
  intros [= <-] Ha.
  pose proof (sortByConfidence_perm _ _ Hsort) as Hperm.
  rewrite (Permutation_length Hperm).
  destruct (first_survivor sorted (alive_perm _ _ Hperm Ha)) as (q & Hq & Hs & Hbefore).
  pose proof (nmsScan_flags sorted) as Hflags. cbv zeta in Hflags.
  destruct Hflags as [Hin Hflags].
  apply alive_iff. exists q. split.
  - rewrite <- (inPlace_length _ _ Hin). exact Hq.
  - rewrite (Hflags q Hq), Hs. cbn [orb].
    apply not_true_is_false. intros Hex. apply existsb_exists in Hex.
    destruct Hex as (p & Hp & Hpc). apply in_seq in Hp.
    rewrite (grows_stays _ _ (inPlace_get _ _ p Hin) (Hbefore p ltac:(lia))) in Hpc.
    discriminate.
Qed.

Lemma keepBestInner_alive (i : nat) (js : list nat) (l : list BoundingBox) :
  i < List.length l -> suppressed (get l i) = false ->
  (forall j, In j js -> j <> i /\ j < List.length l) ->
  alive (keepBestInner i js l) = true.
Proof.
  revert l. induction js as [|j0 js IH]; intros l Hi Hs Hjs; cbn [keepBestInner].
  - apply alive_iff. exists i. auto.
  - assert (Hj0 : j0 <> i /\ j0 < List.length l) by (apply Hjs; left; reflexivity).
    assert (Hrest : forall j', In j' js -> j' <> i /\ j' < List.length l)
      by (intros j' Hj'; apply Hjs; right; exact Hj').
    destruct (suppressed (get l j0)) eqn:Hs0; [apply IH; assumption|].
    destruct (negb (sameClass (get l i) (get l j0))); [apply IH; assumption|].
    destruct (F32.ge (score (get l i)) (score (get l j0))).
    + apply IH; rewrite ?length_suppress; try assumption.
      rewrite get_suppress_other by (apply (proj1 Hj0)). exact Hs.
    + apply alive_iff. exists j0. rewrite length_suppress.
      split; [apply (proj2 Hj0)|].
      rewrite get_suppress_other by (intros E; apply (proj1 Hj0); symmetry; exact E).
      exact Hs0.
Qed.

Lemma keepBestPerClass_alive (boxes : list BoundingBox) :
  alive boxes = true -> alive (keepBestPerClass boxes) = true.
Proof.
  intros Ha. set (n := List.length boxes).
  enough (Hinv : List.length (keepBestPerClass boxes) = n /\
                 alive (keepBestPerClass boxes) = true) by apply Hinv.
  unfold keepBestPerClass. fold n.
  apply (for_range_ind (fun s => List.length s = n /\ alive s = true));
    [split; [reflexivity | exact Ha]|].
  intros k s Hk [Hlen Hs]. unfold keepBestOuter.
  destruct (suppressed (get s k)) eqn:Hsk; [split; assumption|].
  split.
  - rewrite <- (inPlace_length _ _ (keepBestInner_inPlace k _ s)). exact Hlen.
  - apply keepBestInner_alive; [lia | exact Hsk|].
    intros j Hj. apply in_seq in Hj. lia.
Qed.

(** ** What [runInference] reports *)

Section Report.
Variables W H : Z.

Lemma alive_survivors (l : list BoundingBox) :
  alive l = true <-> survivors l <> [].
Proof.
  unfold alive, survivors. induction l as [|b l IH]; cbn.
  - split; [discriminate | congruence].
  - destruct (negb (suppressed b)); cbn; [split; [discriminate | reflexivity]|].
    exact IH.
Qed.

Lemma applyFilters_alive (boxes out : list BoundingBox) :
  applyFilters W H boxes = Some out ->
  alive (filterInvalid W H boxes) = true -> alive out = true.
Proof.
  unfold applyFilters.
  destruct (applyNMS (removeContained (filterInvalid W H boxes))) as [nms|] eqn:Hnms;
    [|discriminate].
  intros [= <-] Ha.
  apply keepBestPerClass_alive, (applyNMS_alive _ _ Hnms), removeContained_alive, Ha.
Qed.

Lemma applyFilters_survivor (boxes out : list BoundingBox) (b : BoundingBox) :
  applyFilters W H boxes = Some out -> In b out -> suppressed b = false ->
  In b boxes /\ plausible W H b = true.
Proof.
  unfold applyFilters.
  destruct (applyNMS (removeContained (filterInvalid W H boxes))) as [nms|] eqn:Hnms;
    [|discriminate].
  intros [= <-] Hin Hb.
  assert (Hfi : In b (filterInvalid W H boxes)).
  { apply (stageRel_survivor _ _ b
             (stageRel_of_inPlace _ _ (removeContained_inPlace _))); [|exact Hb].
    apply (stageRel_survivor _ _ b (applyNMS_stageRel _ _ Hnms)); [|exact Hb].
    apply (stageRel_survivor _ _ b
             (stageRel_of_inPlace _ _ (keepBestPerClass_inPlace _))); [|exact Hb].
    exact Hin. }
  split.
  - apply (stageRel_survivor _ _ b
             (stageRel_of_inPlace _ _ (filterInvalid_inPlace W H boxes)));
      assumption.
  - apply (filterInvalid_survivor W H boxes); assumption.
Qed.

Lemma runInference_total (raw : list BoundingBox) :
  exists r, runInference W H raw = Some r.
Proof.
  unfold runInference. destruct raw as [|r0 rs]; [eexists; reflexivity|].
  cbn [map].
  destruct (applyFilters_some W H
              (set_suppressed false r0 :: map (set_suppressed false) rs))
    as [out ->]; [discriminate | eexists; reflexivity].
Qed.

(** X15.  [runInference] always has a result.  It reports nothing
    ([NONE]) exactly when no raw detection passes the tests of
    [filterInvalid]; otherwise the box it reports is one of the raw
    detections that pass them, so its confidence is at least
    [MIN_CONFIDENCE] and it lies inside the frame. *)
Theorem runInference_reports (raw : list BoundingBox) :
  exists r, runInference W H raw = Some r /\
    match r with
    | None => forall b, In b raw -> plausible W H b = false
    | Some b =>
        suppressed b = false /\ plausible W H b = true /\
        F32.ge (confidence b) Vision.MIN_CONFIDENCE = true /\
        exists b0, In b0 raw /\ b = set_suppressed false b0
    end.
Proof.
  unfold runInference. destruct raw as [|r0 rs].
  { exists None. split; [reflexivity | intros b []]. }
  set (boxes := map (set_suppressed false) (r0 :: rs)).
  destruct (applyFilters_some W H boxes) as [out Hout]; [discriminate|].
  change (map (set_suppressed false) (r0 :: rs)) with boxes.
  assert (Hcons : exists b1 bs, boxes = b1 :: bs) by (cbn; eauto).
  destruct Hcons as (b1 & bs & Hcons). rewrite Hcons, <- Hcons, Hout.
  exists (find (fun b => negb (suppressed b)) out). split; [reflexivity|].
  destruct (find (fun b => negb (suppressed b)) out) as [b|] eqn:Hfind.
  - apply find_some in Hfind. destruct Hfind as [Hin Hb].
    apply negb_true_iff in Hb.
    destruct (applyFilters_survivor _ _ b Hout Hin Hb) as [Hraw Hp].
    split; [exact Hb|]. split; [exact Hp|]. split.
    + unfold plausible in Hp. apply andb_true_iff in Hp as [Hp _].
      apply andb_true_iff in Hp as [Hv _]. unfold isValid in Hv.
      apply andb_true_iff in Hv as [_ Hc]. exact Hc.
    + apply in_map_iff in Hraw. destruct Hraw as (b0 & Hb0 & Hin0).
      exists b0. split; [exact Hin0 | symmetry; exact Hb0].
  - intros b Hb. destruct (plausible W H b) eqn:Hp; [|reflexivity]. exfalso.
    assert (Hdead : alive out = false).
    { unfold alive. apply not_true_is_false. intros Hex.
      apply existsb_exists in Hex. destruct Hex as (c & Hc & Hcs).
      rewrite (find_none _ _ Hfind c Hc) in Hcs. discriminate. }
    assert (Ha : alive (filterInvalid W H boxes) = true).
    { apply alive_survivors. rewrite filterInvalid_survivors.
      intros Hnil.
      assert (Hin : In (set_suppressed false b)
                       (filter (plausible W H) (survivors boxes))).
      { apply filter_In. split.
        - unfold survivors. apply filter_In. split; [|reflexivity].
          unfold boxes. apply in_map, Hb.
        - rewrite plausible_set_suppressed. exact Hp. }
      rewrite Hnil in Hin. contradiction. }
    rewrite (applyFilters_alive _ _ Hout Ha) in Hdead. discriminate.
Qed.

End Report.

(** ** The sort and the test of [applyNMS] *)

(** X16.  On an array that is not empty [sortByConfidence] returns a
    rearrangement of it, and when no confidence is NaN the result is in
    descending order of confidence.  On the empty array the loop bound
    [count - 1] wraps around and the call has no result. *)
Theorem sortByConfidence_sorts (boxes : list BoundingBox) :
  boxes <> [] ->
  sortByConfidence [] = None /\
  exists sorted,
    sortByConfidence boxes = Some sorted /\
    Permutation boxes sorted /\
    List.length sorted = List.length boxes /\
    (noNaN boxes -> StronglySorted confGe sorted).
Proof.
  intros Hne. split; [reflexivity|].
  destruct (sortByConfidence_some boxes Hne) as [sorted Hs].
  exists sorted. split; [exact Hs|].
  pose proof (sortByConfidence_perm _ _ Hs) as Hp.
  split; [exact Hp|]. split; [symmetry; apply Permutation_length, Hp|].
  intros Hn. apply (sortByConfidence_sorted boxes); assumption.
Qed.

Lemma i32_congr (a b : Z) :
  (a mod 2 ^ 32 = b mod 2 ^ 32)%Z -> Vision.i32 a = Vision.i32 b.
Proof.
  intros Hab. unfold Vision.i32.
  rewrite (Z.add_mod a), (Z.add_mod b), Hab by lia. reflexivity.
Qed.

Lemma i32_mod (a : Z) : (Vision.i32 a mod 2 ^ 32 = a mod 2 ^ 32)%Z.
Proof.
  unfold Vision.i32. rewrite Zminus_mod_idemp_l. f_equal. lia.
Qed.

Lemma square_diff_congr (u v : Z) :
  Vision.i32 (Vision.i32 (u - v) * Vision.i32 (u - v))
  = Vision.i32 (Vision.i32 (v - u) * Vision.i32 (v - u)).
Proof.
  apply i32_congr.
  rewrite (Z.mul_mod (Vision.i32 (u - v))), (Z.mul_mod (Vision.i32 (v - u))) by lia.
  rewrite !i32_mod. rewrite <- !Z.mul_mod by lia.
  f_equal. ring.
Qed.

Lemma distance_sym (a b : BoundingBox) : distance a b = distance b a.
Proof.
  unfold distance. cbv zeta.
  rewrite (square_diff_congr (Vision.i32 (centerX a)) (Vision.i32 (centerX b))).
  rewrite (square_diff_congr (Vision.i32 (centerY a)) (Vision.i32 (centerY b))).
  reflexivity.
Qed.

(** X17.  The test by which [applyNMS] lets one box suppress another
    (same label, and IoU above the threshold or centres closer than
    [SPATIAL_THRESHOLD]) is symmetric in the two boxes, 32-bit
    wrap-around included: which of the two goes depends only on the
    order the sort has put them in. *)
Theorem nms_test_symmetric (a b : BoundingBox) :
  calculateIoU a b = calculateIoU b a /\
  distance a b = distance b a /\
  clash a b = clash b a.
Proof.
  split; [apply calculateIoU_sym|]. split; [apply distance_sym|].
  unfold clash, tooClose. cbv zeta.
  rewrite (sameClass_sym a b), (calculateIoU_sym a b), (distance_sym a b).
  reflexivity.
Qed.

(** ** Why a box is suppressed *)

Lemma containedIn_set_suppressed (u v : bool) (a b : BoundingBox) :
  containedIn (set_suppressed u a) (set_suppressed v b) = containedIn a b.
Proof. destruct a, b. reflexivity. Qed.

Lemma containedIn_grows (a a' b b' : BoundingBox) :
  grows a a' -> grows b b' -> containedIn a' b' = containedIn a b.
Proof.
  intros Ha Hb. rewrite (grows_fields _ _ Ha), (grows_fields _ _ Hb).
  apply containedIn_set_suppressed.
Qed.

Lemma score_grows (a a' : BoundingBox) : grows a a' -> score a' = score a.
Proof. intros [-> | [_ ->]]; [reflexivity | destruct a; reflexivity]. Qed.

(** X18.  [removeContained] suppresses a box only for a reason: the box
    lies inside another box of the array that was not suppressed and
    whose confidence is strictly greater. *)
Theorem removeContained_reason (l : list BoundingBox) (q : nat) :
  suppressed (get l q) = false ->
  suppressed (get (removeContained l) q) = true ->
  exists i, i < List.length l /\ i <> q /\ suppressed (get l i) = false /\
            containedIn (get l q) (get l i) = true /\
            F32.gt (confidence (get l i)) (confidence (get l q)) = true.
Proof.
  intros Hq.
  pose (reason := exists i, i < List.length l /\ i <> q /\
                    suppressed (get l i) = false /\
                    containedIn (get l q) (get l i) = true /\
                    F32.gt (confidence (get l i)) (confidence (get l q)) = true).
  enough (Hinv : inPlace l (removeContained l) /\
                 (suppressed (get (removeContained l) q) = true -> reason))
    by apply Hinv.
  unfold removeContained.
  apply (for_range_ind (fun s => inPlace l s /\ (suppressed (get s q) = true -> reason))).
  { split; [apply inPlace_refl | congruence]. }
  intros i s Hi Hs. unfold removeContainedOuter.
  destruct (suppressed (get s i)) eqn:Hsi; [exact Hs|].
  assert (Hli : suppressed (get l i) = false)
    by (eapply grows_was_alive; [apply inPlace_get, Hs | exact Hsi]).
  apply (for_range_ind (fun s' => inPlace l s' /\ (suppressed (get s' q) = true -> reason)));
    [exact Hs|].
  intros j s' _ [Hin Hr]. split.
  - eapply inPlace_trans; [exact Hin | apply removeContainedInner_inPlace].
  - unfold removeContainedInner.
    destruct (i =? j) eqn:Hij; cbn [orb]; [exact Hr|].
    apply Nat.eqb_neq in Hij.
    destruct (suppressed (get s' j)) eqn:Hsj; [exact Hr|].
    destruct (containedIn (get s' j) (get s' i)
              && F32.gt (confidence (get s' i)) (confidence (get s' j))) eqn:Hc;
      [|exact Hr].
    destruct (Nat.eq_dec j q) as [->|Hne];
      [|rewrite get_suppress_other by exact Hne; exact Hr].
    intros _. apply andb_true_iff in Hc as [Hc Hg].
    rewrite (containedIn_grows _ _ _ _ (inPlace_get _ _ q Hin) (inPlace_get _ _ i Hin))
      in Hc.
    rewrite (grows_confidence _ _ (inPlace_get _ _ q Hin)),
            (grows_confidence _ _ (inPlace_get _ _ i Hin)) in Hg.
    exists i. repeat split; try assumption. lia.
Qed.

Lemma keepBestInner_keeps (l : list BoundingBox) (q i : nat) (js : list nat)
      (s : list BoundingBox) :
  q < List.length l -> suppressed (get l q) = false ->
  (forall p, p < List.length l -> p <> q -> suppressed (get l p) = false ->
             sameClass (get l p) (get l q) = true ->
             F32.gt (score (get l q)) (score (get l p)) = true) ->
  inPlace l s -> get s q = get l q ->
  i < List.length l -> suppressed (get s i) = false ->
  (forall j, In j js -> j <> i /\ j < List.length l) ->
  get (keepBestInner i js s) q = get l q.
Proof.
  intros Hq Hsq Hbest. revert s.
  induction js as [|j0 js IH]; intros s Hin Hgq Hi Hsi Hjs; cbn [keepBestInner];
    [exact Hgq|].
  assert (Hj0 : j0 <> i /\ j0 < List.length l) by (apply Hjs; left; reflexivity).
  assert (Hrest : forall j', In j' js -> j' <> i /\ j' < List.length l)
    by (intros j' Hj'; apply Hjs; right; exact Hj').
  destruct (suppressed (get s j0)) eqn:Hs0; [apply IH; assumption|].
  destruct (sameClass (get s i) (get s j0)) eqn:Hc; cbn [negb];
    [|apply IH; assumption].
  pose proof (inPlace_get _ _ i Hin) as Hgi.
  pose proof (inPlace_get _ _ j0 Hin) as Hgj.
  rewrite (grows_sameClass _ _ _ _ Hgi Hgj) in Hc.
  rewrite (score_grows _ _ Hgi), (score_grows _ _ Hgj).
  pose proof (grows_was_alive _ _ Hgi Hsi) as Hli.
  pose proof (grows_was_alive _ _ Hgj Hs0) as Hlj.
  destruct (F32.ge (score (get l i)) (score (get l j0))) eqn:Hge.
  - assert (Hne : j0 <> q).
    { intros ->. rewrite (FloatOrder.gt_not_ge _ _ (Hbest i Hi (fun E => proj1 Hj0 (eq_sym E)) Hli Hc))
        in Hge. discriminate. }
    apply IH; try assumption.
    + eapply inPlace_trans; [exact Hin | apply inPlace_suppress].
    + rewrite get_suppress_other by exact Hne. exact Hgq.
    + rewrite get_suppress_other by (apply (proj1 Hj0)). exact Hsi.
  - assert (Hne : i <> q).
    { intros ->. rewrite sameClass_sym in Hc.
      rewrite (FloatOrder.gt_ge _ _ (Hbest j0 (proj2 Hj0) (proj1 Hj0) Hlj Hc)) in Hge.
      discriminate. }
    rewrite get_suppress_other by exact Hne. exact Hgq.
Qed.

(** X19.  [keepBestPerClass] keeps the best box of a class: a box that
    is not suppressed and whose score is strictly greater than the score
    of every other unsuppressed box with the same label is left as it
    is. *)
Theorem best_of_class_kept (l : list BoundingBox) (q : nat) :
  q < List.length l -> suppressed (get l q) = false ->
  (forall p, p < List.length l -> p <> q -> suppressed (get l p) = false ->
             sameClass (get l p) (get l q) = true ->
             F32.gt (score (get l q)) (score (get l p)) = true) ->
  get (keepBestPerClass l) q = get l q.
Proof.
  intros Hq Hsq Hbest.
  enough (Hinv : inPlace l (keepBestPerClass l) /\ get (keepBestPerClass l) q = get l q)
    by apply Hinv.
  unfold keepBestPerClass.
  apply (for_range_ind (fun s => inPlace l s /\ get s q = get l q));
    [split; [apply inPlace_refl | reflexivity]|].
  intros i s Hi [Hin Hgq]. unfold keepBestOuter.
  destruct (suppressed (get s i)) eqn:Hsi; [split; assumption|].
  split.
  - eapply inPlace_trans; [exact Hin | apply keepBestInner_inPlace].
  - apply (keepBestInner_keeps l q i); try assumption; [lia|].
    intros j Hj. apply in_seq in Hj. lia.
Qed.

(** ** The properties on concrete boxes *)

(** Three cans are put in descending order. *)
Lemma sortByConfidence_sorts_witness :
  sortByConfidence [Scenario.can80; Scenario.can95; Scenario.can90]
  = Some [Scenario.can95; Scenario.can90; Scenario.can80] /\
  exists sorted,
    sortByConfidence [Scenario.can80; Scenario.can95; Scenario.can90] = Some sorted /\
    Permutation [Scenario.can80; Scenario.can95; Scenario.can90] sorted /\
    List.length sorted = 3 /\
    (noNaN [Scenario.can80; Scenario.can95; Scenario.can90] ->
     StronglySorted confGe sorted).
Proof.
  split; [vm_compute; reflexivity|].
  exact (proj2 (sortByConfidence_sorts
                  [Scenario.can80; Scenario.can95; Scenario.can90]
                  ltac:(discriminate))).
Defined.

(** The small can inside the big one is suppressed, and the big one is
    the reason. *)
Lemma removeContained_reason_witness :
  suppressed (get (removeContained [ScenarioMore.canBig; ScenarioMore.canInside]) 1)
  = true /\
  exists i, i < 2 /\ i <> 1 /\
    suppressed (get [ScenarioMore.canBig; ScenarioMore.canInside] i) = false /\
    containedIn ScenarioMore.canInside
                (get [ScenarioMore.canBig; ScenarioMore.canInside] i) = true /\
    F32.gt (confidence (get [ScenarioMore.canBig; ScenarioMore.canInside] i))
           (confidence ScenarioMore.canInside) = true.
Proof.
  split; [vm_compute; reflexivity|].
  exact (removeContained_reason [ScenarioMore.canBig; ScenarioMore.canInside] 1
           eq_refl ltac:(vm_compute; reflexivity)).
Defined.

(** The big can has the best score of its class and is kept; the
    bottle is of another class. *)
Lemma best_of_class_kept_witness :
  get (keepBestPerClass
         [ScenarioMore.canInside; ScenarioMore.canBig; ScenarioMore.bottle]) 1
  = ScenarioMore.canBig.
Proof.
  apply (best_of_class_kept
           [ScenarioMore.canInside; ScenarioMore.canBig; ScenarioMore.bottle] 1).
  - cbn. lia.
  - reflexivity.
  - intros [|[|[|p]]] Hp Hne Hs Hc.
    + vm_compute. reflexivity.
    + contradiction Hne. reflexivity.
    + vm_compute in Hc. discriminate Hc.
    + cbn in Hp. lia.
Defined.

End VisionExtra.

(* ================================================================== *)
(** * Further properties: camera, main loop and serial link *)
(* ================================================================== *)

Module EspExtra.
Import Vision Esp EspMore.

Local Close Scope Z_scope.

Lemma heapAfter_app (a b : list Event) (blocks : list Z) :
  heapAfter (a ++ b) blocks
  = match heapAfter a blocks with
    | Some bs => heapAfter b bs
    | None => None
    end.
Proof.
  revert blocks. induction a as [|e a IH]; intros blocks; [reflexivity|].
  destruct e; cbn [app heapAfter]; try apply IH.
  destruct (freeBlock p blocks); [apply IH | reflexivity].
Qed.

Lemma framesAfter_app (a b : list Event) (held : nat) :
  framesAfter (a ++ b) held
  = match framesAfter a held with
    | Some h => framesAfter b h
    | None => None
    end.
Proof.
  revert held. induction a as [|e a IH]; intros held; [reflexivity|].
  destruct e; cbn [app framesAfter]; try apply IH;
    destruct held; try reflexivity; apply IH.
Qed.

Lemma sent_app (a b : list Event) : sent (a ++ b) = sent a ++ sent b.
Proof.
  induction a as [|e a IH]; [reflexivity|].
  destruct e; cbn [app sent]; rewrite ?IH; reflexivity.
Qed.

Lemma freeBlock_head (p : Z) (bs : list Z) : freeBlock p (p :: bs) = Some bs.
Proof. cbn. rewrite Z.eqb_refl. reflexivity. Qed.

Lemma capture_facts (targetWidth targetHeight : Z) (w : World)
      (cam : CameraManager) :
  let '(ok, cam', fx) := capture targetWidth targetHeight w cam in
  active cam' = active cam /\
  imageBuffer cam'
  = (if ok then malloc w else if active cam then None else imageBuffer cam) /\
  (if ok then imageBuffer cam' <> None else True) /\
  heapAfter fx (owned cam) = Some (owned cam') /\
  framesAfter fx 0 = Some 0 /\
  sent fx = [].
Proof.
  unfold capture, owned. destruct cam as [act ib]. cbn [active imageBuffer].
  destruct act; cbn [negb]; [|repeat split; reflexivity].
  destruct (malloc w) as [p|].
  2:{ destruct ib as [p0|]; cbn; rewrite ?Z.eqb_refl; repeat split; reflexivity. }
  unfold getFrame, MAX_RETRY.
  destruct (fb_get w 0) as [f|];
    [| destruct (fb_get w 1) as [f|];
       [| destruct (fb_get w 2) as [f|]]];
    cbn [Nat.ltb Nat.leb Nat.sub app];
    try (destruct (negb (buf f) || (len f =? 0)%Z);
         [| destruct (negb (fmt2rgb888 w));
            [| destruct (negb (targetWidth =? RAW_WIDTH)%Z
                         || negb (targetHeight =? RAW_HEIGHT)%Z)]]);
    destruct ib as [p0|]; cbn; rewrite ?Z.eqb_refl;
    repeat split; try reflexivity; discriminate.
Qed.


Lemma release_facts (cam : CameraManager) :
  let '(cam', fx) := release cam in
  active cam' = active cam /\ imageBuffer cam' = None /\
  heapAfter fx (owned cam) = Some [] /\
  (forall h, framesAfter fx h = Some h) /\ sent fx = [].
Proof.
  unfold release, owned. destruct cam as [act [p|]]; cbn; rewrite ?Z.eqb_refl;
    repeat split; reflexivity.
Qed.

Section Loop.
Variables W H : Z.
Variable printf_2f : F32.float -> string.

Lemma response_isReplyLine (b : BoundingBox) :
  isReplyLine (response printf_2f b) = true.
Proof.
  unfold isReplyLine, response, snprintf32.
  apply orb_true_iff. right. apply ParserProofs.prefix_spec.
  exists (substring 0 28 (label b ++ ":" ++ printf_2f (confidence b))).
  reflexivity.
Qed.

Lemma runInference_facts (p : Z) (w : World) :
  exists flag fx line,
    Esp.runInference W H printf_2f (Some p) w = Some (flag, fx) /\
    (forall blocks, heapAfter fx blocks = Some blocks) /\
    (forall h, framesAfter fx h = Some h) /\
    sent fx = [line] /\ isReplyLine line = true.
Proof.
  unfold Esp.runInference. destruct (run_classifier w) as [result|].
  - destruct (VisionExtra.runInference_total W H (map copyRaw result)) as [r ->].
    destruct r as [b|].
    + exists true. eexists. exists (response printf_2f b).
      split; [reflexivity|]. repeat split. apply response_isReplyLine.
    + exists true. eexists. exists "NONE"%string.
      split; [reflexivity|]. repeat split.
  - exists false. eexists. exists "ERR:INFERENCE_FAILED"%string.
    split; [reflexivity|]. repeat split.
Qed.

Lemma handleCommand_facts (fromArduino : bool) (rx : list ascii) (w : World)
      (cam : CameraManager) :
  exists flag cam' fx,
    handleCommand W H printf_2f fromArduino rx w cam = Some (flag, cam', fx) /\
    active cam' = active cam /\
    (imageBuffer cam = None -> imageBuffer cam' = None) /\
    (isInferLine (Some rx) = true -> imageBuffer cam' = None) /\
    heapAfter fx (owned cam) = Some (owned cam') /\
    framesAfter fx 0 = Some 0 /\
    Forall (fun line => isReplyLine line = true) (sent fx) /\
    List.length (sent fx) <= (if isInferLine (Some rx) then 1 else 0) /\
    (fromArduino = true ->
     List.length (sent fx) = (if isInferLine (Some rx) then 1 else 0)).
Proof.
  unfold handleCommand, isInferLine.
  destruct (String.eqb (trim (readStringUntil LF rx)) "INFER").
  2:{ exists false, cam, []. repeat split; auto. discriminate. }
  pose proof (capture_facts W H w cam) as Hcap.
  destruct (capture W H w cam) as [[ok cam1] fx1].
  destruct Hcap as (Hact & Hbuf & Hok & Hheap & Hfr & Hsent).
  pose proof (release_facts cam1) as Hrel.
  destruct (release cam1) as [cam2 fx2] eqn:Hr.
  destruct Hrel as (Hact2 & Hbuf2 & Hheap2 & Hfr2 & Hsent2).
  assert (Hown2 : owned cam2 = []) by (unfold owned; rewrite Hbuf2; reflexivity).
  destruct ok; cbn [negb].
  - unfold getBuffer. destruct (imageBuffer cam1) as [p|] eqn:Hp; [|congruence].
    destruct (runInference_facts p w) as (flag & fxr & line & -> & Hh & Hf & Hs & Hl).
    exists false, cam2, (fx1 ++ fxr ++ fx2).
    split; [reflexivity|]. split; [congruence|].
    split; [auto|]. split; [auto|].
    split; [rewrite heapAfter_app, Hheap, heapAfter_app, Hh, Hheap2, Hown2; reflexivity|].
    split; [rewrite framesAfter_app, Hfr, framesAfter_app, Hf; apply Hfr2|].
    rewrite !sent_app, Hsent, Hs, Hsent2. cbn.
    split; [constructor; [exact Hl | constructor]|]. split; [lia | reflexivity].
  - exists true, cam2,
      (fx1 ++ (if fromArduino then [Serial2Println "ERR:CAPTURE_FAILED"] else []) ++ fx2).
    split; [reflexivity|]. split; [congruence|].
    split; [auto|]. split; [auto|].
    split.
    { rewrite heapAfter_app, Hheap, heapAfter_app.
      destruct fromArduino; cbn [heapAfter]; rewrite Hheap2, Hown2; reflexivity. }
    split.
    { rewrite framesAfter_app, Hfr, framesAfter_app.
      destruct fromArduino; cbn [framesAfter]; apply Hfr2. }
    rewrite !sent_app, Hsent, Hsent2.
    destruct fromArduino; cbn.
    + split; [constructor; [reflexivity | constructor]|]. split; [lia | reflexivity].
    + split; [constructor|]. split; [lia | discriminate].
Qed.

(** X21.  Every [INFER] that arrives from the Arduino is answered by
    exactly one line, one of [ERR:CAPTURE_FAILED], [ERR:INFERENCE_FAILED],
    [NONE] and [OK:...], whatever the camera, the heap and the classifier
    do; afterwards the image buffer is released, no image buffer has
    been freed twice and no frame is kept. *)
Theorem infer_gets_one_reply (rx : list ascii) (w : World) (cam : CameraManager) :
  trim (readStringUntil LF rx) = "INFER"%string ->
  exists flag cam' fx line,
    handleCommand W H printf_2f true rx w cam = Some (flag, cam', fx) /\
    imageBuffer cam' = None /\ active cam' = active cam /\
    heapAfter fx (owned cam) = Some [] /\ framesAfter fx 0 = Some 0 /\
    sent fx = [line] /\ isReplyLine line = true.
Proof.
  intros Hcmd.
  destruct (handleCommand_facts true rx w cam)
    as (flag & cam' & fx & Hrun & Hact & _ & Hbuf & Hheap & Hfr & Hall & _ & Hlen).
  assert (Hinfer : isInferLine (Some rx) = true)
    by (unfold isInferLine; rewrite Hcmd; reflexivity).
  rewrite Hinfer in Hlen. specialize (Hbuf Hinfer). specialize (Hlen eq_refl).
  destruct (sent fx) as [|line [|line' rest]] eqn:Hsent; try discriminate.
  exists flag, cam', fx, line.
  split; [exact Hrun|]. split; [exact Hbuf|]. split; [exact Hact|].
  split; [rewrite Hheap; unfold owned; rewrite Hbuf; reflexivity|].
  split; [exact Hfr|]. split; [exact Hsent|].
  inversion Hall; assumption.
Qed.

Lemma loop_facts (i : LoopInput) (cam : CameraManager) :
  imageBuffer cam = None ->
  exists cam' fx,
    loop W H printf_2f i cam = Some (cam', fx) /\
    active cam' = active cam /\ imageBuffer cam' = None /\
    heapAfter fx [] = Some [] /\ framesAfter fx 0 = Some 0 /\
    Forall (fun line => isReplyLine line = true) (sent fx) /\
    (serial0 i = None ->
     List.length (sent fx) = (if isInferLine (serial2 i) then 1 else 0)).
Proof.
  intros Hbuf. unfold loop.
  assert (Hfirst : exists flag cam1 fx1,
             match serial2 i with
             | Some rx => handleCommand W H printf_2f true rx (world2 i) cam
             | None => Some (false, cam, [])
             end = Some (flag, cam1, fx1) /\
             active cam1 = active cam /\ imageBuffer cam1 = None /\
             heapAfter fx1 [] = Some [] /\ framesAfter fx1 0 = Some 0 /\
             Forall (fun line => isReplyLine line = true) (sent fx1) /\
             List.length (sent fx1) = (if isInferLine (serial2 i) then 1 else 0)).
  { destruct (serial2 i) as [rx|].
    - destruct (handleCommand_facts true rx (world2 i) cam)
        as (flag & cam1 & fx1 & Hrun & Hact & Hb & _ & Hheap & Hfr & Hall & _ & Hlen).
      exists flag, cam1, fx1. specialize (Hb Hbuf).
      unfold owned in Hheap. rewrite Hbuf, Hb in Hheap. auto 10.
    - exists false, cam, []. cbn. auto 10. }
  destruct Hfirst as (flag & cam1 & fx1 & -> & Hact1 & Hb1 & Hheap1 & Hfr1 & Hall1 & Hlen1).
  destruct flag.
  { exists cam1, fx1. auto 10. }
  assert (Hsecond : exists flag cam2 fx2,
             match serial0 i with
             | Some rx => handleCommand W H printf_2f false rx (world0 i) cam1
             | None => Some (false, cam1, [])
             end = Some (flag, cam2, fx2) /\
             active cam2 = active cam1 /\ imageBuffer cam2 = None /\
             heapAfter fx2 [] = Some [] /\ framesAfter fx2 0 = Some 0 /\
             Forall (fun line => isReplyLine line = true) (sent fx2) /\
             (serial0 i = None -> sent fx2 = [])).
  { destruct (serial0 i) as [rx|].
    - destruct (handleCommand_facts false rx (world0 i) cam1)
        as (flag & cam2 & fx2 & Hrun & Hact & Hb & _ & Hheap & Hfr & Hall & _ & _).
      exists flag, cam2, fx2. specialize (Hb Hb1).
      unfold owned in Hheap. rewrite Hb1, Hb in Hheap.
      repeat split; auto. discriminate.
    - exists false, cam1, []. cbn. auto 10. }
  destruct Hsecond as (flag & cam2 & fx2 & -> & Hact2 & Hb2 & Hheap2 & Hfr2 & Hall2 & Hs2).
  assert (Hboth : heapAfter (fx1 ++ fx2) [] = Some [] /\
                  framesAfter (fx1 ++ fx2) 0 = Some 0 /\
                  Forall (fun line => isReplyLine line = true) (sent (fx1 ++ fx2)) /\
                  (serial0 i = None ->
                   List.length (sent (fx1 ++ fx2))
                   = (if isInferLine (serial2 i) then 1 else 0))).
  { rewrite heapAfter_app, Hheap1, framesAfter_app, Hfr1, sent_app.
    repeat split; auto.
    - apply Forall_app. auto.
    - intros H0. rewrite (Hs2 H0), app_nil_r. exact Hlen1. }
  destruct Hboth as (Hh & Hf & Ha & Hl).
  destruct flag.
  - exists cam2, (fx1 ++ fx2). split; [reflexivity|].
    split; [congruence|]. auto 10.
  - exists cam2, (fx1 ++ fx2 ++ [Pause 10]). split; [reflexivity|].
    split; [congruence|]. split; [exact Hb2|].
    rewrite app_assoc, heapAfter_app, Hh, framesAfter_app, Hf, sent_app.
    cbn [heapAfter framesAfter sent]. rewrite app_nil_r. auto.
Qed.

(** X22.  Run [loop] any number of times, starting without an image
    buffer.  Every call has a result and ends without an image buffer;
    over the whole run no image buffer is freed twice, none is left
    allocated and no frame is kept; every line sent to the Arduino is a
    reply; and
    as long as nothing is typed on the serial monitor, the lines sent
    are exactly as many as the [INFER] commands received. *)
Theorem replies_match_requests (ins : list LoopInput) (cam : CameraManager) :
  imageBuffer cam = None ->
  exists cam' fx,
    loops W H printf_2f ins cam = Some (cam', fx) /\
    active cam' = active cam /\ imageBuffer cam' = None /\
    heapAfter fx [] = Some [] /\ framesAfter fx 0 = Some 0 /\
    Forall (fun line => isReplyLine line = true) (sent fx) /\
    (Forall (fun i => serial0 i = None) ins ->
     List.length (sent fx) = requests ins).
Proof.
  revert cam. induction ins as [|i ins IH]; intros cam Hbuf.
  - exists cam, []. cbn. auto 10.
  - destruct (loop_facts i cam Hbuf)
      as (cam1 & fx1 & Hrun & Hact1 & Hb1 & Hh1 & Hf1 & Ha1 & Hl1).
    destruct (IH cam1 Hb1) as (cam2 & fx2 & Hrun2 & Hact2 & Hb2 & Hh2 & Hf2 & Ha2 & Hl2).
    exists cam2, (fx1 ++ fx2). cbn [loops]. rewrite Hrun, Hrun2.
    split; [reflexivity|]. split; [congruence|]. split; [exact Hb2|].
    rewrite heapAfter_app, Hh1, framesAfter_app, Hf1, sent_app.
    split; [exact Hh2|]. split; [exact Hf2|].
    split; [apply Forall_app; auto|].
    intros Hquiet. inversion Hquiet as [|? ? H0 Hrest]; subst.
    rewrite length_app, (Hl1 H0), (Hl2 Hrest). unfold requests. cbn [filter].
    destruct (isInferLine (serial2 i)); reflexivity.
Qed.

End Loop.

(** ** The serial link between the two boards *)

Lemma safe_not_eol (c : ascii) :
  Sorter.safe_char c = true -> Sorter.is_eol c = false.
Proof.
  destruct c as [[] [] [] [] [] [] [] []]; intros Hs; try reflexivity;
    vm_compute in Hs; discriminate Hs.
Qed.

Lemma readLine_println (l : list ascii) (idx : nat) :
  forallb Sorter.safe_char l = true -> idx + List.length l <= 31 ->
  Sorter.readLine (l ++ [CR; LF]) idx = string_of_list_ascii l.
Proof.
  revert idx. induction l as [|c l IH]; intros idx Hsafe Hlen; [reflexivity|].
  cbn [forallb] in Hsafe. apply andb_true_iff in Hsafe as [Hc Hl].
  cbn [app Sorter.readLine string_of_list_ascii List.length] in *.
  rewrite (safe_not_eol c Hc), Hc.
  replace (idx <? 31) with true by (symmetry; apply Nat.ltb_lt; lia).
  rewrite IH by (assumption || lia). reflexivity.
Qed.

Lemma list_ascii_of_string_app (a b : string) :
  list_ascii_of_string (a ++ b) = list_ascii_of_string a ++ list_ascii_of_string b.
Proof. induction a as [|c a IH]; cbn; [reflexivity | rewrite IH; reflexivity]. Qed.

Lemma length_list_ascii (s : string) :
  List.length (list_ascii_of_string s) = String.length s.
Proof. induction s as [|c s IH]; cbn; congruence. Qed.

Section Link.
Variable atof : string -> F32.float.
Variable printf_2f : F32.float -> string.

(** X23.  The two sketches understand each other.  The line that
    [requestInference] sends is the command [INFER] for [loop].  A reply
    [OK:label:confidence] of [runInference], for a label of at most 15
    letters and digits and a number that fits the 31 characters, is read
    and parsed by [STATE_WAIT] into that label and the number that [atof]
    reads from the printed confidence; [NONE] and the two error lines
    are read as no detection. *)
Theorem reply_round_trip (b : BoundingBox) (now : Z) (present : bool) :
  forallb Sorter.safe_char (list_ascii_of_string (label b)) = true ->
  SorterSpec.countChar Sorter.colon (label b) = 0 ->
  String.length (label b) <= 15 ->
  forallb Sorter.safe_char (list_ascii_of_string (printf_2f (confidence b))) = true ->
  String.length (label b) + String.length (printf_2f (confidence b)) <= 27 ->
  isInferLine (Some (println "INFER")) = true /\
  SorterSpec.replyOf atof
    (Sorter.mkInput now present (Some (println (response printf_2f b))))
  = Some (F32.ge (atof (printf_2f (confidence b))) Sorter.MIN_CONFIDENCE,
          label b, atof (printf_2f (confidence b))) /\
  Forall (fun line =>
            SorterSpec.replyOf atof (Sorter.mkInput now present (Some (println line)))
            = Some (false, ""%string, F32.zero))
         ["NONE"; "ERR:CAPTURE_FAILED"; "ERR:INFERENCE_FAILED"]%string.
Proof.
  intros Hlbl Hcolon Hlen Hnum Hfit.
  split; [reflexivity|]. split; [|repeat constructor].
  set (num := printf_2f (confidence b)) in *.
  set (line := ("OK:" ++ label b ++ ":" ++ num)%string).
  assert (Hll : String.length line = 4 + String.length (label b) + String.length num).
  { unfold line. cbn [append String.length].
    rewrite ParserProofs.length_append. cbn [append String.length]. lia. }
  assert (Hresp : response printf_2f b = line).
  { unfold response, snprintf32. fold num. fold line.
    apply ParserProofs.substring_all. lia. }
  assert (Hread : Sorter.readLine (println line) 0 = line).
  { unfold println. rewrite readLine_println.
    - apply string_of_list_ascii_of_string.
    - unfold line. cbn [append list_ascii_of_string forallb].
      rewrite list_ascii_of_string_app, forallb_app, Hlbl.
      cbn [append list_ascii_of_string forallb]. rewrite Hnum. reflexivity.
    - rewrite length_list_ascii. lia. }
  unfold SorterSpec.replyOf. cbn [Sorter.rx]. rewrite Hresp, Hread. cbv zeta.
  assert (Hne : String.eqb line "" = false) by reflexivity.
  rewrite Hne. f_equal.
  rewrite (ParserProofs.parseResponse_ok atof line "" "" (label b) num).
  - rewrite ParserProofs.substring_all by exact Hlen. reflexivity.
  - unfold SorterSpec.okShape. split; [reflexivity|]. split; [reflexivity|].
    split; [|split; [reflexivity | exact Hcolon]].
    split; [reflexivity | intros; cbn; lia].
Qed.

End Link.

(** ** The pixels handed to the classifier *)

Lemma fill_packed (image : list Z) (n o : nat) :
  3 * (o + n) <= List.length image ->
  (3 * Z.of_nat (o + n) < 2 ^ 32)%Z ->
  EspImage.fill image (3 * Z.of_nat o) n
  = Some (map (fun k => F32.of_Z (ImageMore.packed image k)) (seq o n)).
Proof.
  revert o. induction n as [|n IH]; intros o Hlen Hsmall; [reflexivity|].
  cbn [EspImage.fill seq map].
  assert (Hpix : EspImage.readPixel image (3 * Z.of_nat o)
                 = Some (F32.of_Z (ImageMore.packed image o))).
  { unfold EspImage.readPixel, EspImage.u32, ImageMore.packed.
    rewrite !Z.mod_small by lia.
    replace (Z.to_nat (3 * Z.of_nat o + 2)) with (3 * o + 2) by lia.
    replace (Z.to_nat (3 * Z.of_nat o + 1)) with (3 * o + 1) by lia.
    replace (Z.to_nat (3 * Z.of_nat o)) with (3 * o) by lia.
    rewrite (nth_error_nth' image 0%Z (n := 3 * o + 2)) by lia.
    rewrite (nth_error_nth' image 0%Z (n := 3 * o + 1)) by lia.
    rewrite (nth_error_nth' image 0%Z (n := 3 * o)) by lia.
    reflexivity. }
  rewrite Hpix.
  replace (EspImage.u32 (3 * Z.of_nat o + 3)) with (3 * Z.of_nat (S o))%Z
    by (unfold EspImage.u32; rewrite Z.mod_small by lia; lia).
  rewrite IH by lia. reflexivity.
Qed.

(** X24.  [getImageData], for an image of [W * H] pixels of three bytes
    and a request that does not wrap around the 32 bits of [size_t]: it
    returns -1 and reads nothing when the request ends beyond the last
    pixel; otherwise it returns 0, reads only bytes of the image and
    stores, for each pixel of the request, the three bytes packed into
    one number below 2^24. *)
Theorem getImageData_in_bounds (W H : Z) (image : list Z) (offset length : nat) :
  (0 <= W * H)%Z -> (3 * (W * H) < 2 ^ 32)%Z ->
  Z.of_nat (List.length image) = (3 * (W * H))%Z ->
  (Z.of_nat offset + Z.of_nat length < 2 ^ 32)%Z ->
  EspImage.getImageData W H (Some image) (Z.of_nat offset) (Z.of_nat length) true
  = (if (W * H <? Z.of_nat (offset + length))%Z then Some ((-1)%Z, [])
     else Some (0%Z, map (fun k => F32.of_Z (ImageMore.packed image k))
                         (seq offset length))) /\
  (Forall (fun byte => 0 <= byte < 256)%Z image ->
   forall k, (0 <= ImageMore.packed image k < 2 ^ 24)%Z).
Proof.
  intros HWH Hsmall Hlen Hreq. split.
  - unfold EspImage.getImageData, EspImage.u32. cbn [negb].
    rewrite (Z.mod_small (W * H)) by lia.
    rewrite (Z.mod_small (Z.of_nat offset + Z.of_nat length)) by lia.
    replace (Z.of_nat offset + Z.of_nat length)%Z with (Z.of_nat (offset + length))
      by lia.
    destruct (W * H <? Z.of_nat (offset + length))%Z eqn:Hend; [reflexivity|].
    apply Z.ltb_ge in Hend.
    rewrite (Z.mod_small (Z.of_nat offset * 3)) by lia.
    rewrite Nat2Z.id.
    replace (Z.of_nat offset * 3)%Z with (3 * Z.of_nat offset)%Z by lia.
    rewrite fill_packed by lia. reflexivity.
  - intros Hbytes k. unfold ImageMore.packed.
    assert (Hbyte : forall q, (0 <= nth q image 0 < 256)%Z).
    { intros q. destruct (Nat.lt_ge_cases q (List.length image)) as [Hq|Hq].
      - rewrite Forall_forall in Hbytes. apply Hbytes, nth_In, Hq.
      - rewrite nth_overflow by exact Hq. lia. }
    pose proof (Hbyte (3 * k + 2)) as H2.
    pose proof (Hbyte (3 * k + 1)) as H1.
    pose proof (Hbyte (3 * k)) as H0.
    rewrite !Z.shiftl_mul_pow2 by lia. lia.
Qed.

(** ** The properties on concrete runs *)

(** The second row of the image of two by two pixels; and a request
    that ends beyond the image. *)
Lemma getImageData_in_bounds_witness :
  EspImage.getImageData 2 2 (Some ScenarioMore.tinyImage) 2 2 true
  = Some (0%Z, [F32.of_Z (255 * 65536); F32.of_Z (2 ^ 24 - 1)]) /\
  EspImage.getImageData 2 2 (Some ScenarioMore.tinyImage) 3 2 true
  = Some ((-1)%Z, []).
Proof.
  split.
  - refine (eq_trans
              (proj1 (getImageData_in_bounds 2 2 ScenarioMore.tinyImage 2 2
                        _ _ eq_refl _)) _).
    + lia.
    + lia.
    + cbn. lia.
    + vm_compute. reflexivity.
  - vm_compute. reflexivity.
Defined.

(** The request of the Arduino, a frame at the second attempt and three
    detections: the big can is reported. *)
Lemma infer_gets_one_reply_witness :
  handleCommand 96 96 LibcOut.printf_2f true (println "INFER")
                ScenarioMore.goodWorld ScenarioMore.readyCamera
  = Some (false, ScenarioMore.readyCamera,
          [Malloc 4096; Pause 10; FbGet; FbReturn; Resize 96 96;
           Serial2Flush; Pause 10; Serial2Println "OK:CAN3:0.90"; Serial2Flush;
           Free 4096]) /\
  exists flag cam' fx line,
    handleCommand 96 96 LibcOut.printf_2f true (println "INFER")
                  ScenarioMore.goodWorld ScenarioMore.readyCamera
    = Some (flag, cam', fx) /\
    imageBuffer cam' = None /\ active cam' = true /\
    heapAfter fx [] = Some [] /\ framesAfter fx 0 = Some 0 /\
    sent fx = [line] /\ isReplyLine line = true.
Proof.
  split; [vm_compute; reflexivity|].
  exact (infer_gets_one_reply 96 96 LibcOut.printf_2f (println "INFER")
           ScenarioMore.goodWorld ScenarioMore.readyCamera eq_refl).
Defined.

(** Two requests, the second with a blind camera: two lines are sent. *)
Lemma replies_match_requests_witness :
  exists cam' fx,
    loops 96 96 LibcOut.printf_2f ScenarioMore.twoRequests ScenarioMore.readyCamera
    = Some (cam', fx) /\
    sent fx = ["OK:CAN3:0.90"; "ERR:CAPTURE_FAILED"]%string /\
    List.length (sent fx) = 2.
Proof.
  destruct (replies_match_requests 96 96 LibcOut.printf_2f ScenarioMore.twoRequests
              ScenarioMore.readyCamera eq_refl)
    as (cam' & fx & Hrun & _ & _ & _ & _ & _ & Hlen).
  exists cam', fx. split; [exact Hrun|]. split.
  - assert (Hfx : Some (cam', fx)
                  = loops 96 96 LibcOut.printf_2f ScenarioMore.twoRequests
                          ScenarioMore.readyCamera) by (symmetry; exact Hrun).
    vm_compute in Hfx. injection Hfx as _ ->. reflexivity.
  - apply Hlen. repeat constructor.
Defined.

(** The reply for a can at 0.95 arrives as that label and that number. *)
Lemma reply_round_trip_witness :
  response LibcOut.printf_2f Scenario.can95 = "OK:CAN3:0.95"%string /\
  SorterSpec.replyOf Libc.atof
    (Sorter.mkInput 400 true
       (Some (println (response LibcOut.printf_2f Scenario.can95))))
  = Some (true, "CAN3"%string, F32.lit 95 2).
Proof.
  split; [vm_compute; reflexivity|].
  refine (eq_trans
            (proj1 (proj2 (reply_round_trip Libc.atof LibcOut.printf_2f
                             Scenario.can95 400 true eq_refl eq_refl _ eq_refl _)))
            _).
  - vm_compute. lia.
  - vm_compute. lia.
  - vm_compute. reflexivity.
Defined.

End EspExtra.
